(** * eblob binlog: a shallow embedding of library/binlog.c

    The write-ahead log of eblob keeps one file: a fixed-size disk header
    followed by records, each a fixed-size record header and a payload
    (metadata bytes, then data bytes).  This development embeds the C
    functions of binlog.c as Rocq functions over an explicit machine state
    (the [eblob_binlog_cfg] object and the operating system's view of the
    binlog file) and proves properties of them.

    Conventions.
    - binlog.h is not part of the sources: the struct layouts, the magic,
      the version, the flag bits and the record-type sentinels are the
      fields of the class [Build]; [sample_build] is one concrete choice,
      used to run the code on concrete inputs.
    - [off_t] and [ssize_t] are 64 bits wide.  The sizes read from the
      disk are not to be trusted: where the code adds them to an offset,
      passes them to a function or stores them in the descriptor, the
      value is reduced to the 64-bit type ([to_off_t], [to_ssize_t]).
      The sums [binlog_append] and [binlog_extend] form from the caller's
      sizes and the handle's offsets are bounded by the caller's buffers
      and by the file: they are left as mathematical integers.
    - [assert] is the C macro: it aborts the process unless the build
      defines NDEBUG, which is the [NDEBUG] field of [Build].
    - The operating system calls are modelled on one file (the one at
      [binlog_path]); every fallible call consumes one entry of a script
      that says whether the call behaves normally, fails with an errno or
      transfers fewer bytes than asked.
    - [binlog_init] and [binlog_destroy] only allocate and free the
      handle; they are not embedded.  A handle is a value of
      [eblob_binlog_cfg], unopened when its [cfg_fd] is -1.
    - The two helpers of library/original_id_helpers.h are embedded on
      byte arrays; blob.h is not part of the sources either: the size of a
      key and [eblob_id_cmp] are parameters of their section. *)

From Stdlib Require Import ZArith List ListDec Lia Bool Init.Byte.
From coqutil Require Import Byte Word.LittleEndianList.
Import ListNotations.
Local Open Scope Z_scope.

(** ** errno values (Linux) *)

Module Errno.
Definition ENOENT : Z := 2.
Definition EINTR : Z := 4.
Definition EIO : Z := 5.
Definition EBADF : Z := 9.
Definition EWOULDBLOCK : Z := 11.
Definition ENOMEM : Z := 12.
Definition EFAULT : Z := 14.
Definition EEXIST : Z := 17.
Definition EINVAL : Z := 22.
Definition ENOSPC : Z := 28.
Definition ENOTSUP : Z := 95.
End Errno.
Import Errno.

(** ** Data structures of binlog.h *)

(** [struct eblob_binlog_disk_hdr]: the header at offset 0 of the file. *)
Record eblob_binlog_disk_hdr := mk_dhdr {
  dh_magic : list byte;
  dh_version : Z;
  dh_flags : Z
}.

(** [struct eblob_binlog_disk_record_hdr]: the header before each payload. *)
Record eblob_binlog_disk_record_hdr := mk_rhdr {
  rh_type : Z;
  rh_size : Z;
  rh_meta_size : Z;
  rh_flags : Z;
  rh_key : list byte
}.

(** [struct eblob_binlog_cfg]: the log handle.  [cfg_disk_hdr] is a pointer,
    [None] is NULL. *)
Record eblob_binlog_cfg := mk_cfg {
  cfg_fd : Z;
  cfg_flags : Z;
  cfg_binlog_position : Z;
  cfg_prealloc_size : Z;
  cfg_prealloc_step : Z;
  cfg_disk_hdr : option eblob_binlog_disk_hdr
}.

(** A run has one log handle; a pointer to it is NULL or that object. *)
Inductive cfg_ptr := NULL | HANDLE.

(** [struct eblob_binlog_ctl]: the record descriptor.  [ctl_key], [ctl_meta]
    and [ctl_data] are pointers ([None] is NULL); a non-null pointer is
    modelled by the bytes from its address to the end of its allocation. *)
Record eblob_binlog_ctl := mk_ctl {
  ctl_cfg : cfg_ptr;
  ctl_type : Z;
  ctl_key : option (list byte);
  ctl_meta : option (list byte);
  ctl_meta_size : Z;
  ctl_data : option (list byte);
  ctl_size : Z;
  ctl_flags : Z
}.

Definition set_fd (v : Z) (c : eblob_binlog_cfg) : eblob_binlog_cfg :=
  mk_cfg v (cfg_flags c) (cfg_binlog_position c) (cfg_prealloc_size c)
         (cfg_prealloc_step c) (cfg_disk_hdr c).

Definition set_binlog_position (v : Z) (c : eblob_binlog_cfg) : eblob_binlog_cfg :=
  mk_cfg (cfg_fd c) (cfg_flags c) v (cfg_prealloc_size c)
         (cfg_prealloc_step c) (cfg_disk_hdr c).

Definition set_prealloc_size (v : Z) (c : eblob_binlog_cfg) : eblob_binlog_cfg :=
  mk_cfg (cfg_fd c) (cfg_flags c) (cfg_binlog_position c) v
         (cfg_prealloc_step c) (cfg_disk_hdr c).

Definition set_disk_hdr (v : option eblob_binlog_disk_hdr) (c : eblob_binlog_cfg)
  : eblob_binlog_cfg :=
  mk_cfg (cfg_fd c) (cfg_flags c) (cfg_binlog_position c) (cfg_prealloc_size c)
         (cfg_prealloc_step c) v.

(** ** What binlog.h and the compiler flags fix *)

Class Build := {
  NDEBUG : bool;
  sizeof_disk_hdr : Z;
  sizeof_record_hdr : Z;
  sizeof_magic : nat;
  EBLOB_BINLOG_MAGIC : list byte;
  EBLOB_BINLOG_VERSION : Z;
  EBLOB_BINLOG_FLAGS_CFG_SYNC : Z;
  EBLOB_BINLOG_FLAGS_CFG_PREALLOC : Z;
  EBLOB_BINLOG_FLAGS_CFG_TRUNCATE : Z;
  EBLOB_BINLOG_FLAGS_CFG_ALL : Z;
  EBLOB_BINLOG_TYPE_FIRST : Z;
  EBLOB_BINLOG_TYPE_LAST : Z;
  (* object representations of the two on-disk structs *)
  encode_disk_hdr : eblob_binlog_disk_hdr -> list byte;
  decode_disk_hdr : list byte -> eblob_binlog_disk_hdr;
  encode_record_hdr : eblob_binlog_disk_record_hdr -> list byte;
  decode_record_hdr : list byte -> eblob_binlog_disk_record_hdr;
  (* laws *)
  sizeof_disk_hdr_pos : 0 < sizeof_disk_hdr;
  sizeof_record_hdr_pos : 0 < sizeof_record_hdr;
  encode_disk_hdr_length :
    forall h, Z.of_nat (length (encode_disk_hdr h)) = sizeof_disk_hdr;
  encode_record_hdr_length :
    forall h, Z.of_nat (length (encode_record_hdr h)) = sizeof_record_hdr;
  (* the size field is unsigned *)
  decode_record_hdr_size : forall bs, 0 <= rh_size (decode_record_hdr bs)
}.

(** ** The operating system *)

(** What the next fallible call will do. *)
Inductive fault :=
| Normal
| Fails (errno : positive)
| Partial (n : Z).

(** Who holds the advisory lock of the binlog file. *)
Inductive lock_state :=
| Unlocked
| LockedBy (fd : Z)
| LockedElsewhere.

Record world := mk_world {
  w_file : option (list byte);
  w_fds : list Z;
  w_lock : lock_state;
  w_errno : Z;
  w_script : list fault
}.

Record machine := mk_machine {
  bcfg : eblob_binlog_cfg;
  os : world
}.

(** ** Computations: state, aborts, fuel *)

Inductive crash := AssertFailed | NullDeref.

Inductive res (A : Type) :=
| Val (a : A)
| Crash (c : crash)
| OutOfFuel.
Arguments Val {A} a.
Arguments Crash {A} c.
Arguments OutOfFuel {A}.

Definition M (S A : Type) : Type := S -> res A * S.

Definition ret {S A} (a : A) : M S A := fun s => (Val a, s).

Definition bind {S A B} (c : M S A) (k : A -> M S B) : M S B :=
  fun s =>
    match c s with
    | (Val a, s') => k a s'
    | (Crash x, s') => (Crash x, s')
    | (OutOfFuel, s') => (OutOfFuel, s')
    end.

Notation "x <- c ;; k" := (bind c (fun x => k))
  (at level 61, c at next level, right associativity).
Notation "c ;;; k" := (bind c (fun _ => k))
  (at level 61, right associativity).

Definition raise {S A} (x : crash) : M S A := fun s => (Crash x, s).

Definition get_bcfg : M machine eblob_binlog_cfg := fun m => (Val (bcfg m), m).

Definition put_bcfg (c : eblob_binlog_cfg) : M machine unit :=
  fun m => (Val tt, mk_machine c (os m)).

Definition get_os : M machine world := fun m => (Val (os m), m).

Definition put_os (w : world) : M machine unit :=
  fun m => (Val tt, mk_machine (bcfg m) w).

(** A computation on the log run next to a caller's state [U]. *)
Definition lift {U A} (c : M machine A) : M (U * machine) A :=
  fun s =>
    match c (snd s) with
    | (r, m') => (r, (fst s, m'))
    end.

Definition nez (z : Z) : bool := negb (z =? 0).

(** ** 64-bit integers *)

(** The largest [off_t] and [ssize_t]: 2^63 - 1. *)
Definition OFF_MAX : Z := 9223372036854775807.

(** A value brought to a 64-bit signed type: it is reduced modulo 2^64
    into the range from -2^63 to 2^63 - 1.  This is what an unsigned
    64-bit sum is when it is stored in an [off_t] or an [ssize_t]. *)
Definition to_int64 (z : Z) : Z :=
  (z + 9223372036854775808) mod 18446744073709551616 - 9223372036854775808.

Definition to_off_t (z : Z) : Z := to_int64 z.

Definition to_ssize_t (z : Z) : Z := to_int64 z.

#[global] Arguments to_int64 : simpl never.
#[global] Arguments to_off_t : simpl never.
#[global] Arguments to_ssize_t : simpl never.

(** ** System calls on the binlog file *)

Definition set_errno (e : Z) (w : world) : world :=
  mk_world (w_file w) (w_fds w) (w_lock w) e (w_script w).

Definition set_file (f : option (list byte)) (w : world) : world :=
  mk_world f (w_fds w) (w_lock w) (w_errno w) (w_script w).

Definition set_fds (l : list Z) (w : world) : world :=
  mk_world (w_file w) l (w_lock w) (w_errno w) (w_script w).

Definition set_lock (l : lock_state) (w : world) : world :=
  mk_world (w_file w) (w_fds w) l (w_errno w) (w_script w).

Definition set_script (s : list fault) (w : world) : world :=
  mk_world (w_file w) (w_fds w) (w_lock w) (w_errno w) s.

Definition pop_fault : M machine fault :=
  w <- get_os ;;
  match w_script w with
  | [] => ret Normal
  | f :: s => put_os (set_script s w) ;;; ret f
  end.

(** [-1] with [errno] set. *)
Definition fail_with {A} (e : Z) (a : A) : M machine A :=
  w <- get_os ;; put_os (set_errno e w) ;;; ret a.

Definition is_open (fd : Z) (w : world) : bool := existsb (Z.eqb fd) (w_fds w).

Definition file_bytes (w : world) : list byte :=
  match w_file w with Some bs => bs | None => [] end.

Definition file_size (w : world) : Z := Z.of_nat (length (file_bytes w)).

Definition zeros (n : nat) : list byte := repeat x00 n.

(** The contents after writing [bs] at offset [off]; a gap reads as zeros. *)
Definition write_at (old : list byte) (off : nat) (bs : list byte) : list byte :=
  firstn off (old ++ zeros (off - length old)) ++ bs ++ skipn (off + length bs) old.

(** The contents after setting the length to [n]. *)
Definition resize (old : list byte) (n : nat) : list byte :=
  firstn n (old ++ zeros (n - length old)).

(** The descriptor a successful [open] returns.  The world lists the
    descriptors open on the binlog file, not the other descriptors of the
    process, so the number [open(2)] picks, the lowest one free in the
    process, is not determined by it: the model names the new descriptor by
    a number that is not negative and not in the list.  The code stores the
    number, compares it with -1 and hands it back to the system calls. *)
Definition fresh_fd (fds : list Z) : Z := fold_right Z.max 2 fds + 1.

(** What a transfer of [bs] moves under fault [f]. *)
Definition transferred (f : fault) (bs : list byte) : list byte :=
  match f with
  | Partial k => firstn (Z.to_nat k) bs
  | _ => bs
  end.

(** [open(binlog_path, O_RDWR | O_CLOEXEC | ...)]; [creat_excl] is
    [O_CREAT | O_EXCL], [o_sync] is [O_SYNC]. *)
Definition sys_open (creat_excl o_sync : bool) : M machine Z :=
  f <- pop_fault ;;
  w <- get_os ;;
  match f with
  | Fails e => fail_with (Z.pos e) (-1)
  | _ =>
      match w_file w, creat_excl with
      | Some _, true => fail_with EEXIST (-1)
      | None, false => fail_with ENOENT (-1)
      | _, _ =>
          let fd := fresh_fd (w_fds w) in
          put_os (set_fds (fd :: w_fds w) (set_file (Some (file_bytes w)) w)) ;;;
          ret fd
      end
  end.

(** [close(fd)]: on Linux the descriptor is released even when the call
    reports an error; the lock goes with the descriptor. *)
Definition sys_close (fd : Z) : M machine Z :=
  f <- pop_fault ;;
  w <- get_os ;;
  if is_open fd w then
    let w1 := set_fds (filter (fun x => negb (x =? fd)) (w_fds w)) w in
    let w2 := match w_lock w with
              | LockedBy x => if x =? fd then set_lock Unlocked w1 else w1
              | _ => w1
              end in
    put_os w2 ;;;
    match f with
    | Fails e => fail_with (Z.pos e) (-1)
    | _ => ret 0
    end
  else fail_with EBADF (-1).

(** [flock(fd, LOCK_EX | LOCK_NB)] *)
Definition sys_flock_ex_nb (fd : Z) : M machine Z :=
  f <- pop_fault ;;
  w <- get_os ;;
  match f with
  | Fails e => fail_with (Z.pos e) (-1)
  | _ =>
      if is_open fd w then
        match w_lock w with
        | Unlocked => put_os (set_lock (LockedBy fd) w) ;;; ret 0
        | LockedBy x => if x =? fd then ret 0 else fail_with EWOULDBLOCK (-1)
        | LockedElsewhere => fail_with EWOULDBLOCK (-1)
        end
      else fail_with EBADF (-1)
  end.

(** [flock(fd, LOCK_UN)] *)
Definition sys_flock_un (fd : Z) : M machine Z :=
  f <- pop_fault ;;
  w <- get_os ;;
  match f with
  | Fails e => fail_with (Z.pos e) (-1)
  | _ =>
      if is_open fd w then
        match w_lock w with
        | LockedBy x =>
            if x =? fd then put_os (set_lock Unlocked w) ;;; ret 0 else ret 0
        | _ => ret 0
        end
      else fail_with EBADF (-1)
  end.

(** [ftruncate(fd, len)] *)
Definition sys_ftruncate (fd len : Z) : M machine Z :=
  f <- pop_fault ;;
  w <- get_os ;;
  match f with
  | Fails e => fail_with (Z.pos e) (-1)
  | _ =>
      if is_open fd w then
        if len <? 0 then fail_with EINVAL (-1)
        else
          put_os (set_file (Some (resize (file_bytes w) (Z.to_nat len))) w) ;;;
          ret 0
      else fail_with EBADF (-1)
  end.

(** [fstat(fd, &st)]: the return value and [st.st_size]. *)
Definition sys_fstat (fd : Z) : M machine (Z * Z) :=
  f <- pop_fault ;;
  w <- get_os ;;
  match f with
  | Fails e => fail_with (Z.pos e) (-1, 0)
  | _ =>
      if is_open fd w then ret (0, file_size w)
      else fail_with EBADF (-1, 0)
  end.

(** [pread(fd, buf, n, off)]: the return value and the bytes put in [buf]. *)
Definition sys_pread (fd n off : Z) : M machine (Z * list byte) :=
  f <- pop_fault ;;
  w <- get_os ;;
  match f with
  | Fails e => fail_with (Z.pos e) (-1, [])
  | _ =>
      if is_open fd w then
        if off <? 0 then fail_with EINVAL (-1, [])
        else
          let bs := transferred f
                      (firstn (Z.to_nat n) (skipn (Z.to_nat off) (file_bytes w))) in
          ret (Z.of_nat (length bs), bs)
      else fail_with EBADF (-1, [])
  end.

(** [pwrite(fd, buf, n, off)] where [buf] holds the [n] bytes [bs]. *)
Definition sys_pwrite (fd : Z) (bs : list byte) (off : Z) : M machine Z :=
  f <- pop_fault ;;
  w <- get_os ;;
  match f with
  | Fails e => fail_with (Z.pos e) (-1)
  | _ =>
      if is_open fd w then
        if off <? 0 then fail_with EINVAL (-1)
        else
          match transferred f bs with
          | [] => ret 0
          | b :: bs' =>
              put_os (set_file
                        (Some (write_at (file_bytes w) (Z.to_nat off) (b :: bs'))) w) ;;;
              ret (Z.of_nat (length (b :: bs')))
          end
      else fail_with EBADF (-1)
  end.

(** [malloc(size)]: [true] unless it returns NULL.  [size] is the value
    the caller holds in an [ssize_t]: a negative one is, as a [size_t], a
    request of 2^63 bytes or more, which is never granted. *)
Definition sys_malloc (size : Z) : M machine bool :=
  f <- pop_fault ;;
  match f with
  | Fails e => fail_with (Z.pos e) false
  | _ => if size <? 0 then fail_with ENOMEM false else ret true
  end.

(** A helper that returns 0 or a negated errno and leaves the file as it is. *)
Definition fd_call (fd : Z) : M machine Z :=
  f <- pop_fault ;;
  w <- get_os ;;
  match f with
  | Fails e => ret (- Z.pos e)
  | _ => if is_open fd w then ret 0 else ret (- EBADF)
  end.

(** Modelled from the spec: [binlog_datasync] is declared in binlog.h, which
    is missing; it "forces the write to stable storage (data-durability
    sync)". *)
Definition binlog_datasync (fd : Z) : M machine Z := fd_call fd.

(** Modelled from the spec: [binlog_sync] is declared in binlog.h, which is
    missing; it is the "full sync (forcing both data and metadata
    durability)". *)
Definition binlog_sync (fd : Z) : M machine Z := fd_call fd.

(** Modelled from the spec: [eblob_pagecache_hint] is declared in blob.h,
    which is missing; it is the best-effort page-cache hint. *)
Definition eblob_pagecache_hint (fd : Z) : M machine Z := fd_call fd.

(** Modelled from the spec: [_binlog_allocate] is declared in binlog.h, which
    is missing; it is the "platform space-reservation call (fails with
    Io/OutOfSpace on failure)": the file is at least [size] bytes long
    afterwards. *)
Definition _binlog_allocate (fd size : Z) : M machine Z :=
  f <- pop_fault ;;
  w <- get_os ;;
  match f with
  | Fails e => ret (- Z.pos e)
  | _ =>
      if is_open fd w then
        if file_size w <? size then
          put_os (set_file (Some (resize (file_bytes w) (Z.to_nat size))) w) ;;;
          ret 0
        else ret 0
      else ret (- EBADF)
  end.

(** ** Two properties of system calls *)

(** A computation that only touches the operating system: the handle is
    as before, and the process goes on. *)
Definition oscall {A} (c : M machine A) : Prop :=
  forall m r m', c m = (r, m') -> bcfg m' = bcfg m /\ exists v, r = Val v.

(** A call that reports failure by [-1] leaves a positive [errno]. *)
Definition sets_errno {A} (c : M machine A) (code : A -> Z) : Prop :=
  forall m a m', c m = (Val a, m') -> code a = -1 -> 0 < w_errno (os m').

(** ** binlog.c *)

Section Binlog.
Context {B : Build}.

Definition neq (a b : Z) : bool := negb (a =? b).

(** [assert(e)] of <assert.h>. *)
Definition assert (e : bool) : M machine unit :=
  if NDEBUG || e then ret tt else raise AssertFailed.

(** [(err == -1) ? -errno : -EINTR] *)
Definition io_error (n : Z) : M machine Z :=
  w <- get_os ;; ret (if n =? -1 then - w_errno w else - EINTR).

(** [-errno] *)
Definition neg_errno : M machine Z :=
  w <- get_os ;; ret (- w_errno w).

(** [strcmp] on the strings held by two byte arrays: the end of an array
    reads as the terminating NUL. *)
Fixpoint strcmp (a b : list byte) : Z :=
  match a, b with
  | [], [] => 0
  | [], y :: _ => 0 - byte.unsigned y
  | x :: _, [] => byte.unsigned x
  | x :: a', y :: b' =>
      if byte.unsigned x =? byte.unsigned y
      then (if byte.unsigned x =? 0 then 0 else strcmp a' b')
      else byte.unsigned x - byte.unsigned y
  end.

(** Extend fd by [prealloc_step] if PREALLOC is enabled. *)
Definition binlog_extend (fd : Z) : M machine Z :=
  c <- get_bcfg ;;
  if nez (Z.land (cfg_flags c) EBLOB_BINLOG_FLAGS_CFG_PREALLOC) then
    put_bcfg (set_prealloc_size (cfg_prealloc_size c + cfg_prealloc_step c) c) ;;;
    c <- get_bcfg ;;
    err <- _binlog_allocate fd (cfg_prealloc_size c) ;;
    if nez err then ret err else ret 0
  else ret 0.

Definition binlog_verify_hdr (dhdr : eblob_binlog_disk_hdr) : Z :=
  if nez (strcmp (dh_magic dhdr) EBLOB_BINLOG_MAGIC) then - EINVAL
  else if neq (dh_version dhdr) EBLOB_BINLOG_VERSION then - ENOTSUP
  else if nez (Z.land (dh_flags dhdr) (Z.lnot EBLOB_BINLOG_FLAGS_CFG_ALL)) then - EINVAL
  else 0.

Definition binlog_verify_record_hdr (rhdr : eblob_binlog_disk_record_hdr) : Z :=
  if (rh_type rhdr <=? EBLOB_BINLOG_TYPE_FIRST) || (rh_type rhdr >=? EBLOB_BINLOG_TYPE_LAST)
  then - EINVAL
  else if nez (rh_flags rhdr) then - EINVAL
  else 0.

Definition binlog_hdr_write (fd : Z) (dhdr : option eblob_binlog_disk_hdr) : M machine Z :=
  match dhdr with
  | None => ret (- EINVAL)
  | Some d =>
      if fd <? 0 then ret (- EINVAL)
      else
        assert (binlog_verify_hdr d =? 0) ;;;
        n <- sys_pwrite fd (encode_disk_hdr d) 0 ;;
        if neq n sizeof_disk_hdr then io_error n
        else
          err <- binlog_datasync fd ;;
          if nez err then ret err else ret 0
  end.

(** The result is the error code, or the header stored through [dhdrp]. *)
Definition binlog_hdr_read (fd : Z) : M machine (Z + eblob_binlog_disk_hdr) :=
  assert (0 <=? fd) ;;;
  ok <- sys_malloc sizeof_disk_hdr ;;
  if negb ok then ret (inl (- ENOMEM))
  else
    r <- sys_pread fd sizeof_disk_hdr 0 ;;
    if neq (fst r) sizeof_disk_hdr then
      err <- io_error (fst r) ;; ret (inl err)
    else
      let dhdr := decode_disk_hdr (snd r) in
      let err := binlog_verify_hdr dhdr in
      if nez err then ret (inl err) else ret (inr dhdr).

(** [memset(&dhdr, 0, ...)] then [memcpy(dhdr.magic, EBLOB_BINLOG_MAGIC,
    sizeof(dhdr.magic))]: what follows the literal reads as zeros. *)
Definition fresh_magic : list byte :=
  firstn sizeof_magic (EBLOB_BINLOG_MAGIC ++ zeros sizeof_magic).

(** Creates binlog and preallocates space for it.  (The assertions on the
    path have no counterpart: the path is fixed.) *)
Definition binlog_create : M machine Z :=
  fd <- sys_open true false ;;
  if fd =? -1 then neg_errno
  else
    err <- binlog_extend fd ;;
    if nez err then sys_close fd ;;; ret err
    else
      c <- get_bcfg ;;
      let dhdr := mk_dhdr fresh_magic EBLOB_BINLOG_VERSION (cfg_flags c) in
      err <- binlog_hdr_write fd (Some dhdr) ;;
      sys_close fd ;;; ret err.

(** Reads one record header at [offset]: the error code, or the header
    stored through [rhdr] when the code returns 0. *)
Definition binlog_read_record_hdr (offset : Z)
  : M machine (Z + eblob_binlog_disk_record_hdr) :=
  c <- get_bcfg ;;
  assert (0 <=? cfg_fd c) ;;;
  assert (0 <? offset) ;;;
  r <- sys_pread (cfg_fd c) sizeof_record_hdr offset ;;
  if neq (fst r) sizeof_record_hdr then
    err <- io_error (fst r) ;; ret (inl err)
  else
    let rhdr := decode_record_hdr (snd r) in
    let err := binlog_verify_record_hdr rhdr in
    if nez err then ret (inl err) else ret (inr rhdr).

(** Reads [size] bytes at [offset]; [None] is the NULL result. *)
Definition binlog_read_record_data (offset size : Z) : M machine (option (list byte)) :=
  c <- get_bcfg ;;
  assert (0 <=? cfg_fd c) ;;;
  assert (0 <? offset) ;;;
  assert (0 <? size) ;;;
  ok <- sys_malloc size ;;
  if negb ok then ret None
  else
    r <- sys_pread (cfg_fd c) size offset ;;
    if neq (fst r) size then ret None else ret (Some (snd r)).

(** The loop of [binlog_get_next_lsn].  [lsn += rhdr.size + sizeof(rhdr)]
    is an unsigned 64-bit sum stored in the [off_t] [lsn]. *)
Fixpoint get_next_lsn_loop (fuel : nat) (lsn : Z) : M machine Z :=
  match fuel with
  | O => fun m => (OutOfFuel, m)
  | S fuel' =>
      r <- binlog_read_record_hdr lsn ;;
      match r with
      | inr rhdr =>
          get_next_lsn_loop fuel' (to_off_t (lsn + (rh_size rhdr + sizeof_record_hdr)))
      | inl _ => ret lsn
      end
  end.

(** Iterate over binlog, starting right after the header, and find next
    LSN.  The loop of the code has no bound: a size field can send it back
    to an offset it has read.  Here it runs on a fuel of one more than the
    length of the script plus the length of the file;
    [get_next_lsn_loop_diverges] shows that a loop which uses this up
    uses up any fuel, so that [OutOfFuel] stands for a scan that never
    ends, and [binlog_get_next_lsn_complete] that a loop which ends, on
    whatever fuel, ends as this function does. *)
Definition binlog_get_next_lsn : M machine Z :=
  w <- get_os ;;
  get_next_lsn_loop (S (length (w_script w) + length (file_bytes w))) sizeof_disk_hdr.

(** What [binlog_open] does after a failure past the lock: unlock, close,
    return [err]. *)
Definition err_unlock (fd err : Z) : M machine Z :=
  sys_flock_un fd ;;; sys_close fd ;;; ret err.

Definition binlog_open (p : cfg_ptr) : M machine Z :=
  match p with
  | NULL => ret (- EINVAL)
  | HANDLE =>
      c <- get_bcfg ;;
      assert (cfg_fd c =? -1) ;;;
      err <- binlog_create ;;
      if nez err && neq err (- EEXIST) then ret err
      else
        c <- get_bcfg ;;
        fd <- sys_open false (nez (Z.land (cfg_flags c) EBLOB_BINLOG_FLAGS_CFG_SYNC)) ;;
        if fd =? -1 then neg_errno
        else
          err <- sys_flock_ex_nb fd ;;
          if err =? -1 then
            err <- neg_errno ;; sys_close fd ;;; ret err
          else
            err <- (if nez (Z.land (cfg_flags c) EBLOB_BINLOG_FLAGS_CFG_TRUNCATE)
                    then sys_ftruncate fd sizeof_disk_hdr else ret err) ;;
            if err =? -1 then
              err <- neg_errno ;; err_unlock fd err
            else
              put_bcfg (set_fd fd c) ;;;
              eblob_pagecache_hint fd ;;;
              st <- sys_fstat fd ;;
              if fst st =? -1 then
                err <- neg_errno ;; err_unlock fd err
              else
                c <- get_bcfg ;;
                put_bcfg (set_prealloc_size (snd st) c) ;;;
                r <- binlog_hdr_read fd ;;
                match r with
                | inl err => err_unlock fd err
                | inr dhdr =>
                    c <- get_bcfg ;;
                    put_bcfg (set_disk_hdr (Some dhdr) c) ;;;
                    lsn <- binlog_get_next_lsn ;;
                    c <- get_bcfg ;;
                    put_bcfg (set_binlog_position lsn c) ;;;
                    ret 0
                end
  end.

(** The [n] bytes a write takes from the buffer at [p]; nothing when the
    buffer is NULL or shorter. *)
Definition buffer (p : option (list byte)) (n : Z) : option (list byte) :=
  match p with
  | Some bs =>
      if Z.of_nat (length bs) <? n then None else Some (firstn (Z.to_nat n) bs)
  | None => None
  end.

(** [pwrite(fd, p, n, offset)] from a caller's buffer. *)
Definition pwrite_buffer (fd : Z) (p : option (list byte)) (n offset : Z) : M machine Z :=
  match buffer p n with
  | Some bs => sys_pwrite fd bs offset
  | None => pop_fault ;;; fail_with EFAULT (-1)
  end.

(** Append record to the end of binlog.  [rhdr0] is what the stack holds
    where the local [rhdr] is placed: the code assigns [type], [size],
    [flags] and [key], and never [meta_size]. *)
Definition binlog_append (rhdr0 : eblob_binlog_disk_record_hdr)
    (bctl : option eblob_binlog_ctl) : M machine Z :=
  match bctl with
  | None => ret (- EINVAL)
  | Some bctl =>
  match ctl_cfg bctl with
  | NULL => ret (- EINVAL)
  | HANDLE =>
      c <- get_bcfg ;;
      assert (0 <=? cfg_fd c) ;;;
      assert (0 <? cfg_binlog_position c) ;;;
      let record_len := sizeof_record_hdr + ctl_meta_size bctl + ctl_size bctl in
      err <- (if cfg_binlog_position c + record_len >=? cfg_prealloc_size c
              then binlog_extend (cfg_fd c) else ret 0) ;;
      if nez err then ret err
      else
        match ctl_key bctl with
        | None => raise NullDeref
        | Some key =>
            let rhdr := mk_rhdr (ctl_type bctl) (ctl_meta_size bctl + ctl_size bctl)
                                (rh_meta_size rhdr0) (ctl_flags bctl) key in
            assert (binlog_verify_record_hdr rhdr =? 0) ;;;
            c <- get_bcfg ;;
            let offset := cfg_binlog_position c in
            n <- sys_pwrite (cfg_fd c) (encode_record_hdr rhdr) offset ;;
            if neq n sizeof_record_hdr then io_error n
            else
              (* the offset moves past the header only when there is metadata *)
              let offset := if 0 <? ctl_meta_size bctl
                            then offset + sizeof_record_hdr else offset in
              n <- (if 0 <? ctl_meta_size bctl
                    then pwrite_buffer (cfg_fd c) (ctl_meta bctl) (ctl_meta_size bctl) offset
                    else ret (ctl_meta_size bctl)) ;;
              if neq n (ctl_meta_size bctl) then io_error n
              else
                let offset := if 0 <? ctl_size bctl
                              then offset + ctl_meta_size bctl else offset in
                n <- (if 0 <? ctl_size bctl
                      then pwrite_buffer (cfg_fd c) (ctl_data bctl) (ctl_size bctl) offset
                      else ret (ctl_size bctl)) ;;
                if neq n (ctl_size bctl) then io_error n
                else
                  err <- (if nez (Z.land (cfg_flags c) EBLOB_BINLOG_FLAGS_CFG_SYNC)
                          then ret 0 else binlog_datasync (cfg_fd c)) ;;
                  if nez err then ret err
                  else
                    c <- get_bcfg ;;
                    put_bcfg (set_binlog_position
                                (cfg_binlog_position c + record_len) c) ;;;
                    ret 0
        end
  end
  end.

(** What [binlog_read] stores in the descriptor once header and payload
    are read; [data] is the payload buffer (NULL for an empty payload).
    The header's sizes are unsigned 64-bit fields, the descriptor's are
    [ssize_t]: [rhdr.meta_size] and the unsigned difference
    [rhdr.size - rhdr.meta_size] are brought to [ssize_t].  The pointer
    [data + bctl->meta_size] is modelled by the bytes from it to the end of
    the buffer: that is the pointer of the code when [meta_size] is
    between 0 and the length of the buffer. *)
Definition fill_ctl (rhdr : eblob_binlog_disk_record_hdr) (data : option (list byte))
    (bctl : eblob_binlog_ctl) : eblob_binlog_ctl :=
  let meta_size := to_ssize_t (rh_meta_size rhdr) in
  let size := to_ssize_t (rh_size rhdr - rh_meta_size rhdr) in
  mk_ctl (ctl_cfg bctl)
         (rh_type rhdr)
         (Some (rh_key rhdr))
         (if 0 <? meta_size then data else ctl_meta bctl)
         meta_size
         (if 0 <? size
          then option_map (skipn (Z.to_nat meta_size)) data else ctl_data bctl)
         size
         (rh_flags rhdr).

(** Reads the record at [offset] into the descriptor: the return value and
    the descriptor afterwards. *)
Definition binlog_read (bctl : option eblob_binlog_ctl) (offset : Z)
  : M machine (Z * option eblob_binlog_ctl) :=
  match bctl with
  | None => ret (- EINVAL, None)
  | Some b =>
  match ctl_cfg b with
  | NULL => ret (- EINVAL, bctl)
  | HANDLE =>
      assert (sizeof_disk_hdr <=? offset) ;;;
      r <- binlog_read_record_hdr offset ;;
      match r with
      | inl err => ret (err, bctl)
      | inr rhdr =>
          (* the arguments are an [off_t] and an [ssize_t] *)
          data <- (if nez (rh_size rhdr)
                   then binlog_read_record_data (to_off_t (offset + sizeof_record_hdr))
                                                (to_ssize_t (rh_size rhdr))
                   else ret None) ;;
          match nez (rh_size rhdr), data with
          | true, None => ret (- EIO, bctl)
          | _, _ =>
              match ctl_key b with
              | None => raise NullDeref
              | Some _ => ret (0, Some (fill_ctl rhdr data b))
              end
          end
      end
  end
  end.

(** The caller-supplied handler of [binlog_apply], with a state [U] of its
    own; it must leave the binlog alone. *)
Definition handler (U : Type) : Type := eblob_binlog_ctl -> U -> Z * U.

Definition call_handler {U} (func : handler U) (bctl : eblob_binlog_ctl)
  : M (U * machine) Z :=
  fun s => match func bctl (fst s) with (err, u) => (Val err, (u, snd s)) end.

(** The loop of [binlog_apply] (the count of applied records is only
    logged and is left out). *)
Fixpoint apply_loop {U} (fuel : nat) (func : handler U) (offset : Z)
  : M (U * machine) Z :=
  c <- lift get_bcfg ;;
  if offset <? cfg_binlog_position c then
    match fuel with
    | O => fun s => (OutOfFuel, s)
    | S fuel' =>
        (* memset(&bctl, 0, sizeof(bctl)); bctl.cfg = bcfg; *)
        let bctl := mk_ctl HANDLE 0 None None 0 None 0 0 in
        r <- lift (binlog_read (Some bctl) offset) ;;
        if nez (fst r) then ret (fst r)
        else
          let bctl := match snd r with Some b => b | None => bctl end in
          err <- call_handler func bctl ;;
          if nez err then ret err
          else apply_loop fuel' func
                 (to_off_t (offset + (ctl_size bctl + sizeof_record_hdr)))
    end
  else ret 0.

(** Sequentially applies the binlog: from the header to the current
    position, read each record and run [func] on it. *)
Definition binlog_apply {U} (fuel : nat) (p : cfg_ptr) (func : option (handler U))
  : M (U * machine) Z :=
  match p, func with
  | HANDLE, Some f =>
      c <- lift get_bcfg ;;
      lift (assert (cfg_binlog_position c <=? sizeof_disk_hdr)) ;;;
      apply_loop fuel f sizeof_disk_hdr
  | _, _ => ret (- EINVAL)
  end.

(** Closes binlog and tries to flush it from OS memory. *)
Definition binlog_close (p : cfg_ptr) : M machine Z :=
  match p with
  | NULL => ret (- EINVAL)
  | HANDLE =>
      c <- get_bcfg ;;
      if cfg_fd c <? 0 then ret (- EINVAL)
      else
        err <- binlog_hdr_write (cfg_fd c) (cfg_disk_hdr c) ;;
        if nez err then ret err
        else
          err <- binlog_sync (cfg_fd c) ;;
          if nez err then ret err
          else
            err <- sys_flock_un (cfg_fd c) ;;
            if err =? -1 then neg_errno
            else
              eblob_pagecache_hint (cfg_fd c) ;;;
              err <- sys_close (cfg_fd c) ;;
              if err =? -1 then neg_errno else ret err
  end.

(** ** Vocabulary of the statements *)

(** The bytes a record takes in the log. *)
Definition record_len (b : eblob_binlog_ctl) : Z :=
  sizeof_record_hdr + ctl_meta_size b + ctl_size b.

(** The handle after [binlog_extend]: the preallocated size is raised
    before the space is reserved, whatever the reservation answers. *)
Definition extended (c : eblob_binlog_cfg) : eblob_binlog_cfg :=
  if nez (Z.land (cfg_flags c) EBLOB_BINLOG_FLAGS_CFG_PREALLOC)
  then set_prealloc_size (cfg_prealloc_size c + cfg_prealloc_step c) c
  else c.

(** The handle once [binlog_append] is past its extension step. *)
Definition after_extension (b : eblob_binlog_ctl) (c : eblob_binlog_cfg)
  : eblob_binlog_cfg :=
  if cfg_binlog_position c + record_len b >=? cfg_prealloc_size c
  then extended c else c.

(** [appended m l m']: successful appends of the records [l], one after
    the other, lead from [m] to [m']. *)
Inductive appended : machine -> list eblob_binlog_ctl -> machine -> Prop :=
| appended_nil m : appended m [] m
| appended_cons m rhdr0 b m1 l m2 :
    binlog_append rhdr0 (Some b) m = (Val 0, m1) ->
    appended m1 l m2 ->
    appended m (b :: l) m2.

Fixpoint total_len (l : list eblob_binlog_ctl) : Z :=
  match l with
  | [] => 0
  | b :: l' => record_len b + total_len l'
  end.

(** The recovery scan as a relation: from [lsn] in machine [m], header
    reads succeed and move the offset on, until the first one that fails,
    at the offset returned. *)
Inductive scan : machine -> Z -> machine -> Z -> Prop :=
| scan_stop m lsn err m' :
    binlog_read_record_hdr lsn m = (Val (inl err), m') ->
    scan m lsn m' lsn
| scan_next m lsn rhdr m1 m' lsn' :
    binlog_read_record_hdr lsn m = (Val (inr rhdr), m1) ->
    scan m1 (lsn + (sizeof_record_hdr + rh_size rhdr)) m' lsn' ->
    scan m lsn m' lsn'.

(** The recovery scan as the code runs it: the same chain of header reads,
    with each new offset reduced to the [off_t] it is stored in. *)
Inductive wrapped_scan : machine -> Z -> machine -> Z -> Prop :=
| wrapped_scan_stop m lsn err m' :
    binlog_read_record_hdr lsn m = (Val (inl err), m') ->
    wrapped_scan m lsn m' lsn
| wrapped_scan_next m lsn rhdr m1 m' lsn' :
    binlog_read_record_hdr lsn m = (Val (inr rhdr), m1) ->
    wrapped_scan m1 (to_off_t (lsn + (sizeof_record_hdr + rh_size rhdr))) m' lsn' ->
    wrapped_scan m lsn m' lsn'.

(** [binlog_append] as far as its last write: [inr tt] when the header,
    the metadata and the data have been written in full, [inl err] when
    the function returns [err] before that. *)
Definition append_writes (rhdr0 : eblob_binlog_disk_record_hdr) (bctl : eblob_binlog_ctl)
  : M machine (Z + unit) :=
  match ctl_cfg bctl with
  | NULL => ret (inl (- EINVAL))
  | HANDLE =>
      c <- get_bcfg ;;
      assert (0 <=? cfg_fd c) ;;;
      assert (0 <? cfg_binlog_position c) ;;;
      let record_len := sizeof_record_hdr + ctl_meta_size bctl + ctl_size bctl in
      err <- (if cfg_binlog_position c + record_len >=? cfg_prealloc_size c
              then binlog_extend (cfg_fd c) else ret 0) ;;
      if nez err then ret (inl err)
      else
        match ctl_key bctl with
        | None => raise NullDeref
        | Some key =>
            let rhdr := mk_rhdr (ctl_type bctl) (ctl_meta_size bctl + ctl_size bctl)
                                (rh_meta_size rhdr0) (ctl_flags bctl) key in
            assert (binlog_verify_record_hdr rhdr =? 0) ;;;
            c <- get_bcfg ;;
            let offset := cfg_binlog_position c in
            n <- sys_pwrite (cfg_fd c) (encode_record_hdr rhdr) offset ;;
            if neq n sizeof_record_hdr then err <- io_error n ;; ret (inl err)
            else
              let offset := if 0 <? ctl_meta_size bctl
                            then offset + sizeof_record_hdr else offset in
              n <- (if 0 <? ctl_meta_size bctl
                    then pwrite_buffer (cfg_fd c) (ctl_meta bctl) (ctl_meta_size bctl) offset
                    else ret (ctl_meta_size bctl)) ;;
              if neq n (ctl_meta_size bctl) then err <- io_error n ;; ret (inl err)
              else
                let offset := if 0 <? ctl_size bctl
                              then offset + ctl_meta_size bctl else offset in
                n <- (if 0 <? ctl_size bctl
                      then pwrite_buffer (cfg_fd c) (ctl_data bctl) (ctl_size bctl) offset
                      else ret (ctl_size bctl)) ;;
                if neq n (ctl_size bctl) then err <- io_error n ;; ret (inl err)
                else ret (inr tt)
        end
  end.

(** The synchronisation of [binlog_append]: [binlog_datasync], unless the
    log is opened with O_SYNC. *)
Definition append_sync : M machine Z :=
  c <- get_bcfg ;;
  if nez (Z.land (cfg_flags c) EBLOB_BINLOG_FLAGS_CFG_SYNC)
  then ret 0 else binlog_datasync (cfg_fd c).

(** Where a scan on [m] goes from [lsn] when the header read there
    succeeds. *)
Definition next_lsn (m : machine) (lsn : Z) : option Z :=
  match binlog_read_record_hdr lsn m with
  | (Val (inr rhdr), _) => Some (to_off_t (lsn + (rh_size rhdr + sizeof_record_hdr)))
  | _ => None
  end.

(** The offset [n] steps of [next] after [x], and the [n] offsets from [x]
    on, as long as there is a next one. *)
Fixpoint orbit (next : Z -> option Z) (n : nat) (x : Z) : option Z :=
  match n with
  | O => Some x
  | S n' => match next x with
            | Some y => orbit next n' y
            | None => None
            end
  end.

Fixpoint trace (next : Z -> option Z) (n : nat) (x : Z) : list Z :=
  match n with
  | O => []
  | S n' => x :: match next x with
                 | Some y => trace next n' y
                 | None => []
                 end
  end.


Definition version_current (dhdr : eblob_binlog_disk_hdr) : Prop :=
  dh_version dhdr = EBLOB_BINLOG_VERSION.



End Binlog.

(** ** Vocabulary of the further properties *)

(** The bytes of the binlog file from offset [off], [len] of them (fewer
    at the end of the file). *)
Definition file_range (w : world) (off len : Z) : list byte :=
  firstn (Z.to_nat len) (skipn (Z.to_nat off) (file_bytes w)).

(** [m'] differs from [m] at most in [errno] and in the script. *)
Definition untouched (m m' : machine) : Prop :=
  bcfg m' = bcfg m /\ w_file (os m') = w_file (os m)
  /\ w_fds (os m') = w_fds (os m) /\ w_lock (os m') = w_lock (os m).

(** [m'] has the file of [m]. *)
Definition same_file (m m' : machine) : Prop :=
  w_file (os m') = w_file (os m).

(** Every run of [c] relates the machine before to the machine after by
    [R], whatever the outcome. *)
Definition preserves {A} (R : machine -> machine -> Prop) (c : M machine A) : Prop :=
  forall m r m', c m = (r, m') -> R m m'.

(** The bytes a write of [n] bytes takes from the buffer at [p]: none when
    there is nothing to write. *)
Definition taken (p : option (list byte)) (n : Z) : list byte :=
  match p with
  | Some bs => firstn (Z.to_nat n) bs
  | None => []
  end.

(** No fault is left to inject in [m'] if none was in [m]. *)
Definition calm (m m' : machine) : Prop :=
  w_script (os m) = [] -> w_script (os m') = [].

(** The script of [m'] is what is left of the script of [m] after some
    calls. *)
Definition later (m m' : machine) : Prop :=
  exists k, w_script (os m') = skipn k (w_script (os m)).

(** The bytes before [pos] that [m] holds are the bytes [m'] holds there. *)
Definition agree (pos : Z) (m m' : machine) : Prop :=
  forall off len,
    0 <= off -> 0 <= len -> off + len <= pos -> off + len <= file_size (os m) ->
    file_range (os m') off len = file_range (os m) off len.

(** ** original_id_helpers.h *)

(** [struct eblob_index_block], of blob.h: the two keys that bound a block
    of the index. *)
Record eblob_index_block := mk_index_block {
  start_key : list byte;
  end_key : list byte
}.

(** [memcpy(dst + doff, src + soff, n)] on byte arrays: the array [dst]
    afterwards. *)
Definition memcpy (dst : list byte) (doff : nat) (src : list byte) (soff n : nat)
  : list byte :=
  firstn doff dst ++ firstn n (skipn soff src) ++ skipn (doff + n) dst.

Section OriginalId.

(** blob.h is not part of the sources: the size of a key and the comparison
    of two keys are parameters. *)
Variable EBLOB_ID_SIZE : nat.
Variable eblob_id_cmp : list byte -> list byte -> Z.

(** reorder ids in key: [key_reord] is the array the result is written
    into, as it was before; [sizeof(int64_t)] is 8. *)
Definition original_id_reorder (key_reord key : list byte) : list byte :=
  let key_reord := memcpy key_reord 0 key 8 (EBLOB_ID_SIZE - 8) in
  memcpy key_reord (EBLOB_ID_SIZE - 8) key 0 8.

(** [stack] is what the stack holds where the local [key_reord] is placed. *)
Definition eblob_key_range_compare_original_id_mod (stack : list byte)
    (k : list byte) (r : eblob_index_block) : Z :=
  let key := original_id_reorder stack k in
  if eblob_id_cmp key (start_key r) <? 0 then -1
  else if 0 <? eblob_id_cmp key (end_key r) then 1
  else 0.

End OriginalId.

(** A byte-wise comparison of two keys, to run the range comparison on. *)
Fixpoint bytewise_cmp (a b : list byte) : Z :=
  match a, b with
  | [], [] => 0
  | [], _ :: _ => -1
  | _ :: _, [] => 1
  | x :: a', y :: b' =>
      if byte.unsigned x <? byte.unsigned y then -1
      else if byte.unsigned y <? byte.unsigned x then 1
      else bytewise_cmp a' b'
  end.

(** ** A concrete build

    Modelled from the spec: binlog.h is missing; the order of the fields is
    the one of the spec's on-disk layout, the widths and values are one
    choice among those it allows.  Packed little-endian layouts: the disk
    header is [magic[8]], a 4-byte version and 8-byte flags; the record
    header is four 8-byte fields ([type], [size], [meta_size], [flags]) and
    a 64-byte key.  Record types 1..3 lie between the sentinels 0 and 4;
    the flag bits are SYNC = 1, PREALLOC = 2, TRUNCATE = 4. *)

Definition pad (n : nat) (bs : list byte) : list byte := firstn n (bs ++ zeros n).

Definition field (off len : nat) (bs : list byte) : list byte :=
  firstn len (skipn off bs).

Definition sample_encode_disk_hdr (h : eblob_binlog_disk_hdr) : list byte :=
  pad 8 (dh_magic h) ++ le_split 4 (dh_version h) ++ le_split 8 (dh_flags h).

Definition sample_decode_disk_hdr (bs : list byte) : eblob_binlog_disk_hdr :=
  mk_dhdr (field 0 8 bs) (le_combine (field 8 4 bs)) (le_combine (field 12 8 bs)).

Definition sample_encode_record_hdr (h : eblob_binlog_disk_record_hdr) : list byte :=
  le_split 8 (rh_type h) ++ le_split 8 (rh_size h) ++ le_split 8 (rh_meta_size h)
  ++ le_split 8 (rh_flags h) ++ pad 64 (rh_key h).

Definition sample_decode_record_hdr (bs : list byte) : eblob_binlog_disk_record_hdr :=
  mk_rhdr (le_combine (field 0 8 bs)) (le_combine (field 8 8 bs))
          (le_combine (field 16 8 bs)) (le_combine (field 24 8 bs)) (field 32 64 bs).

(** "EBINLOG" *)
Definition sample_magic : list byte := [x45; x42; x49; x4e; x4c; x4f; x47].

Definition sample_build (ndebug : bool) : Build.
Proof.
  refine {| NDEBUG := ndebug;
            sizeof_disk_hdr := 20;
            sizeof_record_hdr := 96;
            sizeof_magic := 8;
            EBLOB_BINLOG_MAGIC := sample_magic;
            EBLOB_BINLOG_VERSION := 1;
            EBLOB_BINLOG_FLAGS_CFG_SYNC := 1;
            EBLOB_BINLOG_FLAGS_CFG_PREALLOC := 2;
            EBLOB_BINLOG_FLAGS_CFG_TRUNCATE := 4;
            EBLOB_BINLOG_FLAGS_CFG_ALL := 7;
            EBLOB_BINLOG_TYPE_FIRST := 0;
            EBLOB_BINLOG_TYPE_LAST := 4;
            encode_disk_hdr := sample_encode_disk_hdr;
            decode_disk_hdr := sample_decode_disk_hdr;
            encode_record_hdr := sample_encode_record_hdr;
            decode_record_hdr := sample_decode_record_hdr |}.
  - lia.
  - lia.
  - intros h. unfold sample_encode_disk_hdr, pad, zeros.
    rewrite !length_app, !length_le_split, length_firstn, length_app, repeat_length.
    lia.
  - intros h. unfold sample_encode_record_hdr, pad, zeros.
    rewrite !length_app, !length_le_split, length_firstn, length_app, repeat_length.
    lia.
  - intros bs. apply le_combine_bound.
Defined.

(** ** Concrete runs used by the examples *)

Module Run.

Definition asserting : Build := sample_build false.
Definition release : Build := sample_build true.

(** A handle as [binlog_init] leaves it, with no flag set, on a disk
    without the binlog file. *)
Definition cfg0 : eblob_binlog_cfg := mk_cfg (-1) 0 0 0 4096 None.
Definition world0 : world := mk_world None [] Unlocked 0 [].
Definition m0 : machine := mk_machine cfg0 world0.

(** The machine after a first, successful [binlog_open]. *)
Definition opened : machine := snd (@binlog_open asserting HANDLE m0).

Definition key1 : list byte := repeat x01 64.
Definition key2 : list byte := repeat x02 64.

(** A stack slot full of zeros, and one whose [meta_size] bytes hold 7. *)
Definition stack_zero : eblob_binlog_disk_record_hdr := mk_rhdr 0 0 0 0 [].
Definition stack_seven : eblob_binlog_disk_record_hdr := mk_rhdr 0 0 7 0 [].

(** Records: data only; metadata and data; neither. *)
Definition rec_data : eblob_binlog_ctl :=
  mk_ctl HANDLE 1 (Some key1) None 0 (Some [xff]) 1 0.
Definition rec_meta : eblob_binlog_ctl :=
  mk_ctl HANDLE 1 (Some key1) (Some [x6d]) 1 (Some [x64]) 1 0.
Definition rec_empty : eblob_binlog_ctl :=
  mk_ctl HANDLE 2 (Some key2) None 0 None 0 0.

(** A descriptor to read into: it owns a key buffer. *)
Definition blank : eblob_binlog_ctl :=
  mk_ctl HANDLE 0 (Some (repeat x00 64)) None 0 None 0 0.

(** A handler that collects the descriptors it is given. *)
Definition collect : handler (list eblob_binlog_ctl) :=
  fun bctl seen => (0, seen ++ [bctl]).

(** The binlog file exists and is empty. *)
Definition m_empty_file : machine :=
  mk_machine cfg0 (mk_world (Some []) [] Unlocked 0 []).

(** The binlog file exists and starts with a foreign magic. *)
Definition m_foreign_file : machine :=
  mk_machine cfg0 (mk_world (Some (repeat x2a 20)) [] Unlocked 0 []).

(** Preallocation is on, and the write of the record header will fail
    with EIO after the space reservation went through. *)
Definition m_prealloc : machine :=
  mk_machine (mk_cfg 3 2 20 20 4096 None)
             (mk_world (Some (repeat x00 20)) [3] (LockedBy 3) 0 [Normal; Fails 5%positive]).

(** The opened log, when the three writes of an append will go through
    and the synchronisation after them will fail with EIO; and the machine
    after the writes and after the synchronisation of such an append. *)
Definition m_sync_fails : machine :=
  mk_machine (bcfg opened)
             (mk_world (w_file (os opened)) (w_fds (os opened)) (w_lock (os opened))
                       (w_errno (os opened)) [Normal; Normal; Normal; Fails 5%positive]).

(** A stack slot whose [meta_size] bytes hold 1. *)
Definition stack_one : eblob_binlog_disk_record_hdr := mk_rhdr 0 0 1 0 [].

(** The machine after appending [b] to the fresh log, with [rhdr0] on the
    stack. *)
Definition after (rhdr0 : eblob_binlog_disk_record_hdr) (b : eblob_binlog_ctl)
  : machine :=
  snd (@binlog_append asserting rhdr0 (Some b) opened).

(** The machine after the writes, and after the synchronisation, of an
    append of [rec_meta] on [m_sync_fails]. *)
Definition sync_failed : machine * machine :=
  let m1 := snd (@append_writes asserting stack_zero rec_meta m_sync_fails) in
  (m1, snd (@append_sync asserting m1)).

(** The fresh log after the records [rec_data] and then [rec_meta]. *)
Definition one : machine := after stack_zero rec_data.
Definition two : machine :=
  snd (@binlog_append asserting stack_zero (Some rec_meta) one).

(** The descriptor [binlog_read] fills from the record appended at the
    start of the fresh log ([blank] when it fills none). *)
Definition read_back (rhdr0 : eblob_binlog_disk_record_hdr) (b : eblob_binlog_ctl)
  : eblob_binlog_ctl :=
  match fst (@binlog_read asserting (Some blank) (cfg_binlog_position (bcfg opened))
                          (after rhdr0 b)) with
  | Val (_, Some d) => d
  | _ => blank
  end.

Definition hdr_bad_magic_version : eblob_binlog_disk_hdr := mk_dhdr [] 2 0.

End Run.

Module Cases.

(** A key, and two things the stack may hold where its reordered copy is
    built. *)
Definition key_a : list byte := repeat x01 8 ++ repeat x00 56.
Definition stack_ff : list byte := repeat xff 64.
Definition stack_00 : list byte := repeat x00 64.

(** Two blocks of an index, one after the other. *)
Definition block1 : eblob_index_block := mk_index_block (repeat x00 64) (repeat x01 64).
Definition block2 : eblob_index_block := mk_index_block (repeat x02 64) (repeat x03 64).

(** The fresh log after a record with one byte of metadata and one of
    data, appended while the stack held the record's metadata size. *)
Definition logged : machine := Run.after Run.stack_one Run.rec_meta.

(** A stack slot whose [meta_size] bytes are all ones: 2^64 - 1. *)
Definition stack_max : eblob_binlog_disk_record_hdr :=
  mk_rhdr 0 0 18446744073709551615 0 [].

(** The header of that record. *)
Definition hdr_logged : eblob_binlog_disk_record_hdr := mk_rhdr 1 2 1 0 Run.key1.

(** That log on disk, not open, with a handle that asks for TRUNCATE. *)
Definition m_truncate : machine :=
  mk_machine (mk_cfg (-1) 4 0 0 4096 None)
             (mk_world (w_file (os logged)) [] Unlocked 0 []).

(** The disk header of a log created without flags. *)
Definition hdr_fresh : eblob_binlog_disk_hdr :=
  mk_dhdr (@fresh_magic Run.asserting) 1 0.

(** The log [logged] on disk, not open, with a handle without flags; and
    the machine after [binlog_open] on it. *)
Definition m_logged_closed : machine :=
  mk_machine Run.cfg0 (mk_world (w_file (os logged)) [] Unlocked 0 []).
Definition reopened : machine := snd (@binlog_open Run.asserting HANDLE m_logged_closed).

(** A record header whose size field is 2^64 - 106: from offset 20, with
    the 96 bytes of the header, the sum is 2^64 + 10. *)
Definition hdr_back : eblob_binlog_disk_record_hdr :=
  mk_rhdr 1 18446744073709551510 0 0 Run.key1.

(** A log made of the disk header and that record header: open on
    descriptor 3, and on disk, not open. *)
Definition m_back : machine :=
  mk_machine (mk_cfg 3 0 0 116 4096 (Some hdr_fresh))
             (mk_world (Some (sample_encode_disk_hdr hdr_fresh
                              ++ sample_encode_record_hdr hdr_back))
                       [3] (LockedBy 3) 0 []).
Definition m_back_closed : machine :=
  mk_machine Run.cfg0 (mk_world (w_file (os m_back)) [] Unlocked 0 []).

(** A record header whose size field is 2^64 - 96: the sum is 2^64 + 20,
    the offset of the record itself; and the log made of the disk header
    and that header. *)
Definition hdr_again : eblob_binlog_disk_record_hdr :=
  mk_rhdr 1 18446744073709551520 0 0 Run.key1.
Definition m_again : machine :=
  mk_machine (mk_cfg 3 0 0 116 4096 (Some hdr_fresh))
             (mk_world (Some (sample_encode_disk_hdr hdr_fresh
                              ++ sample_encode_record_hdr hdr_again))
                       [3] (LockedBy 3) 0 []).

End Cases.

(** * Properties *)

(** ** Reasoning on computations *)

Lemma bind_inv {S A C} (c : M S A) (k : A -> M S C) s r s' :
  bind c k s = (r, s') ->
  (exists a s1, c s = (Val a, s1) /\ k a s1 = (r, s')) \/
  (exists x, c s = (Crash x, s') /\ r = Crash x) \/
  (c s = (OutOfFuel, s') /\ r = OutOfFuel).
Proof.
  unfold bind. destruct (c s) as [[a | x |] s1]; intros H.
  - left. eauto.
  - right. left. inversion H. eauto.
  - right. right. inversion H. eauto.
Qed.

Lemma ret_inv {S A} (a : A) (s : S) r s' :
  ret a s = (r, s') -> r = Val a /\ s' = s.
Proof. unfold ret. intros H. inversion H. auto. Qed.

Lemma bind_val {S A C} (c : M S A) (k : A -> M S C) s a s' :
  c s = (Val a, s') -> bind c k s = k a s'.
Proof. intros H. unfold bind. rewrite H. reflexivity. Qed.

Lemma to_int64_small z : - OFF_MAX - 1 <= z <= OFF_MAX -> to_int64 z = z.
Proof.
  unfold to_int64, OFF_MAX. intros H. rewrite Z.mod_small by lia. lia.
Qed.

Lemma to_off_t_small z : - OFF_MAX - 1 <= z <= OFF_MAX -> to_off_t z = z.
Proof. apply to_int64_small. Qed.

Lemma to_ssize_t_small z : - OFF_MAX - 1 <= z <= OFF_MAX -> to_ssize_t z = z.
Proof. apply to_int64_small. Qed.

Lemma to_int64_range z : - OFF_MAX - 1 <= to_int64 z <= OFF_MAX.
Proof.
  unfold to_int64, OFF_MAX.
  pose proof (Z.mod_pos_bound (z + 9223372036854775808) 18446744073709551616). lia.
Qed.

(** ** System calls leave the handle alone *)

Lemma oscall_ret {A} (a : A) : oscall (ret a).
Proof. intros m r m' H. apply ret_inv in H as [-> ->]. eauto. Qed.

Lemma oscall_bind {A C} (c : M machine A) (k : A -> M machine C) :
  oscall c -> (forall a, oscall (k a)) -> oscall (bind c k).
Proof.
  intros Hc Hk m r m' H.
  apply bind_inv in H as [(a & m1 & E & H) | [(x & E & ->) | (E & ->)]].
  - apply Hc in E as [E1 _]. apply Hk in H as [E2 Hv]. split; [congruence | exact Hv].
  - apply Hc in E as [_ [v Hv]]. discriminate.
  - apply Hc in E as [_ [v Hv]]. discriminate.
Qed.

Lemma oscall_get_os : oscall get_os.
Proof. intros m r m' H. inversion H. eauto. Qed.

Lemma oscall_put_os w : oscall (put_os w).
Proof. intros m r m' H. inversion H. eauto. Qed.

Create HintDb oscall.
#[local] Hint Resolve oscall_ret oscall_get_os oscall_put_os : oscall.

Ltac oscall_tac :=
  repeat first
    [ apply oscall_ret | apply oscall_get_os | apply oscall_put_os
    | solve [auto with oscall]
    | apply oscall_bind; [ | intros ? ]
    | match goal with
      | |- oscall (match ?x with _ => _ end) => destruct x
      | |- oscall (let _ := _ in _) => cbv zeta
      end ].

Lemma oscall_pop_fault : oscall pop_fault.
Proof. unfold pop_fault. oscall_tac. Qed.
#[local] Hint Resolve oscall_pop_fault : oscall.

Lemma oscall_fail_with {A} e (a : A) : oscall (fail_with e a).
Proof. unfold fail_with. oscall_tac. Qed.
#[local] Hint Resolve oscall_fail_with : oscall.

Lemma oscall_sys_open a b : oscall (sys_open a b).
Proof. unfold sys_open. oscall_tac. Qed.

Lemma oscall_sys_close fd : oscall (sys_close fd).
Proof. unfold sys_close. oscall_tac. Qed.

Lemma oscall_sys_flock_ex_nb fd : oscall (sys_flock_ex_nb fd).
Proof. unfold sys_flock_ex_nb. oscall_tac. Qed.

Lemma oscall_sys_flock_un fd : oscall (sys_flock_un fd).
Proof. unfold sys_flock_un. oscall_tac. Qed.

Lemma oscall_sys_ftruncate fd n : oscall (sys_ftruncate fd n).
Proof. unfold sys_ftruncate. oscall_tac. Qed.

Lemma oscall_sys_fstat fd : oscall (sys_fstat fd).
Proof. unfold sys_fstat. oscall_tac. Qed.

Lemma oscall_sys_pread fd n off : oscall (sys_pread fd n off).
Proof. unfold sys_pread. oscall_tac. Qed.

Lemma oscall_sys_pwrite fd bs off : oscall (sys_pwrite fd bs off).
Proof. unfold sys_pwrite. oscall_tac. Qed.

Lemma oscall_sys_malloc n : oscall (sys_malloc n).
Proof. unfold sys_malloc. oscall_tac. Qed.

Lemma oscall_fd_call fd : oscall (fd_call fd).
Proof. unfold fd_call. oscall_tac. Qed.

Lemma oscall_binlog_datasync fd : oscall (binlog_datasync fd).
Proof. apply oscall_fd_call. Qed.

Lemma oscall_binlog_sync fd : oscall (binlog_sync fd).
Proof. apply oscall_fd_call. Qed.

Lemma oscall_eblob_pagecache_hint fd : oscall (eblob_pagecache_hint fd).
Proof. apply oscall_fd_call. Qed.

Lemma oscall_binlog_allocate fd n : oscall (_binlog_allocate fd n).
Proof. unfold _binlog_allocate. oscall_tac. Qed.

#[local] Hint Resolve oscall_sys_open oscall_sys_close oscall_sys_flock_ex_nb
  oscall_sys_flock_un oscall_sys_ftruncate oscall_sys_fstat oscall_sys_pread
  oscall_sys_pwrite oscall_sys_malloc oscall_fd_call oscall_binlog_datasync
  oscall_binlog_sync oscall_eblob_pagecache_hint oscall_binlog_allocate : oscall.

(** ** Failed system calls set errno *)

Ltac split_match H :=
  repeat match type of H with
         | context [match ?x with _ => _ end] => destruct x eqn:?
         end.

Lemma sets_errno_sys_pwrite fd bs off : sets_errno (sys_pwrite fd bs off) (fun n => n).
Proof.
  intros m n m' H Hn.
  unfold sys_pwrite, pop_fault, fail_with, get_os, put_os, bind, ret in H.
  split_match H; inversion H; subst; simpl; first [ lia | reflexivity ].
Qed.

Lemma sets_errno_sys_pread fd n off : sets_errno (sys_pread fd n off) fst.
Proof.
  intros m a m' H Hn.
  unfold sys_pread, pop_fault, fail_with, get_os, put_os, bind, ret in H.
  split_match H; inversion H; subst; simpl in *; first [ lia | reflexivity ].
Qed.

(** ** Stepping through a computation *)

(** One step of a computation given by an equation [H]. *)
Tactic Notation "step" hyp(H) "as" ident(a) ident(m) ident(E) :=
  apply bind_inv in H;
  destruct H as [(a & m & E & H) | [(?x & E & H) | (E & H)]];
  [ | first [ discriminate H
            | match type of H with ?r = _ => is_var r; subst r end ] .. ].

(** The step [E] was a call that leaves the handle alone and returns. *)
Ltac by_oscall E :=
  match type of E with
  | ?c ?m = _ =>
      let O := fresh "O" in
      assert (O : oscall c) by auto with oscall;
      apply O in E; destruct E as [E [? ?]]; try discriminate
  end.

(** The step [E] read or wrote the handle. *)
Ltac by_state E := inversion E; subst; clear E.

(** ** Reads stay inside the file *)

Lemma transferred_length f (bs : list byte) : (length (transferred f bs) <= length bs)%nat.
Proof. destruct f; simpl; try lia. rewrite length_firstn. lia. Qed.

Lemma pop_fault_inv m r m' :
  pop_fault m = (r, m') ->
  bcfg m' = bcfg m /\ w_file (os m') = w_file (os m) /\ w_fds (os m') = w_fds (os m)
  /\ w_lock (os m') = w_lock (os m) /\ w_errno (os m') = w_errno (os m)
  /\ exists f, r = Val f.
Proof.
  unfold pop_fault, get_os, put_os, bind, ret.
  destruct (w_script (os m)); intros H; inversion H; subst; simpl; eauto 10.
Qed.

(** A read leaves the file and the descriptors as they are; the bytes it
    returns lie inside the file. *)
Lemma sys_pread_inv fd n off m r m' :
  sys_pread fd n off m = (r, m') ->
  bcfg m' = bcfg m /\ w_file (os m') = w_file (os m) /\ w_fds (os m') = w_fds (os m)
  /\ exists k bs, r = Val (k, bs)
       /\ (0 < k -> 0 <= off /\ off + k <= file_size (os m)).
Proof.
  intros H. unfold sys_pread in H.
  apply bind_inv in H as [(f & m1 & P & H) | [(x & P & ->) | (P & ->)]];
    apply pop_fault_inv in P as (Pc & Pf & Pd & _ & _ & f' & Pv); try discriminate.
  clear Pv f'.
  assert (Hsize : file_size (os m1) = file_size (os m))
    by (unfold file_size, file_bytes; rewrite Pf; reflexivity).
  assert (Hbytes : file_bytes (os m1) = file_bytes (os m))
    by (unfold file_bytes; rewrite Pf; reflexivity).
  rewrite <- Pc, <- Pf, <- Pd, <- Hsize.
  unfold fail_with, get_os, put_os, bind, ret in H.
  split_match H; inversion H; subst; simpl;
    (split; [ | split; [ | split ] ]); try reflexivity;
    do 2 eexists; (split; [reflexivity | ]); try lia.
  all: match goal with
       | Hlt : (_ <? 0) = false |- _ => apply Z.ltb_ge in Hlt
       end.
  all: intros Hk; split; [assumption | ].
  all: match type of Hk with
       | 0 < Z.of_nat (length ?l) =>
           match l with
           | context [skipn ?o ?fb] =>
               assert (Hl : (length l <= length fb - o)%nat)
                 by (rewrite ?length_firstn, length_skipn; lia)
           end
       end.
  all: unfold file_size; lia.
Qed.

(** A step of [H] that pops the script. *)
Ltac pop_step H :=
  let f := fresh "f" in
  let m := fresh "m" in
  let P := fresh "P" in
  apply bind_inv in H as [(f & m & P & H) | [(?x & P & ?Hr) | (P & ?Hr)]];
  try discriminate;
  apply pop_fault_inv in P as (?Pc & ?Pf & ?Pd & ?Pl & ?Pe & ?f' & ?Pv); try discriminate.

Ltac errno_crunch H :=
  unfold fail_with, get_os, put_os, bind, ret in H;
  split_match H; inversion H; subst; simpl in *; first [ lia | reflexivity ].

Lemma sets_errno_sys_open a b : sets_errno (sys_open a b) (fun n => n).
Proof.
  intros m n m' H Hn. unfold sys_open in H. pop_step H.
  assert (Hfresh : forall l, fresh_fd l <> -1).
  { intros l. unfold fresh_fd.
    assert (2 <= fold_right Z.max 2 l) by (induction l; simpl; lia). lia. }
  unfold fail_with, get_os, put_os, bind, ret in H;
    split_match H; inversion H; subst; simpl in *;
    first [ lia | reflexivity | exfalso; eapply Hfresh; eassumption ].
Qed.

Lemma sets_errno_sys_flock_ex_nb fd : sets_errno (sys_flock_ex_nb fd) (fun n => n).
Proof. intros m n m' H Hn. unfold sys_flock_ex_nb in H. pop_step H. errno_crunch H. Qed.

Lemma sets_errno_sys_ftruncate fd len : sets_errno (sys_ftruncate fd len) (fun n => n).
Proof. intros m n m' H Hn. unfold sys_ftruncate in H. pop_step H. errno_crunch H. Qed.

Lemma sets_errno_sys_fstat fd : sets_errno (sys_fstat fd) fst.
Proof. intros m n m' H Hn. unfold sys_fstat in H. pop_step H. errno_crunch H. Qed.

(** ** The functions of binlog.c *)

Section Facts.
Context {B : Build}.

Lemma oscall_io_error n : oscall (io_error n).
Proof. unfold io_error. oscall_tac. Qed.

Lemma oscall_neg_errno : oscall neg_errno.
Proof. unfold neg_errno. oscall_tac. Qed.

Lemma oscall_pwrite_buffer fd p n off : oscall (pwrite_buffer fd p n off).
Proof. unfold pwrite_buffer. oscall_tac. Qed.

Lemma assert_inv e m r m' :
  assert e m = (r, m') ->
  m' = m /\
  ((NDEBUG || e = true /\ r = Val tt) \/ (NDEBUG = false /\ e = false /\ r = Crash AssertFailed)).
Proof.
  unfold assert. destruct (NDEBUG || e) eqn:E; intros H; inversion H; subst.
  - auto.
  - apply orb_false_iff in E. tauto.
Qed.

#[local] Hint Resolve oscall_io_error oscall_neg_errno oscall_pwrite_buffer : oscall.

Lemma sets_errno_pwrite_buffer fd p n off :
  sets_errno (pwrite_buffer fd p n off) (fun n => n).
Proof.
  unfold pwrite_buffer. destruct (buffer p n).
  - apply sets_errno_sys_pwrite.
  - intros m a m' H Hn.
    unfold pop_fault, fail_with, get_os, put_os, bind, ret in H.
    split_match H; inversion H; subst; simpl; reflexivity.
Qed.

(** The code [(err == -1) ? -errno : -EINTR] is never 0 after such a call. *)
Lemma io_error_nonzero n m e m' :
  (n = -1 -> 0 < w_errno (os m)) ->
  io_error n m = (Val e, m') -> e <> 0 /\ m' = m.
Proof.
  intros Hn H. unfold io_error, get_os, bind, ret in H. inversion H; subst.
  split; [ | reflexivity ].
  destruct (Z.eqb_spec n (-1)) as [E | E]; [ specialize (Hn E); lia | unfold EINTR; lia ].
Qed.

Lemma io_error_inv n m r m' :
  io_error n m = (r, m') -> m' = m /\ exists e, r = Val e.
Proof. unfold io_error, get_os, bind, ret. intros H. inversion H. eauto. Qed.

Lemma nez_true z : nez z = true <-> z <> 0.
Proof. unfold nez. rewrite negb_true_iff. apply Z.eqb_neq. Qed.

Lemma nez_false z : nez z = false <-> z = 0.
Proof. unfold nez. rewrite negb_false_iff. apply Z.eqb_eq. Qed.

Lemma neq_true a b : neq a b = true <-> a <> b.
Proof. unfold neq. rewrite negb_true_iff. apply Z.eqb_neq. Qed.

Lemma neq_false a b : neq a b = false <-> a = b.
Proof. unfold neq. rewrite negb_false_iff. apply Z.eqb_eq. Qed.

(** *** Append and the write cursor *)

Lemma binlog_extend_inv fd m r m' :
  binlog_extend fd m = (r, m') ->
  bcfg m' = extended (bcfg m) /\ exists err, r = Val err.
Proof.
  unfold binlog_extend, extended. intros H.
  step H as c m1 E; by_state E.
  destruct (nez (Z.land (cfg_flags (bcfg m1)) EBLOB_BINLOG_FLAGS_CFG_PREALLOC)).
  - step H as u m2 E; by_state E.
    step H as c m3 E; by_state E.
    step H as err m4 E; by_oscall E.
    destruct (nez err); apply ret_inv in H as [-> ->]; simpl in *; rewrite E; eauto.
  - apply ret_inv in H as [-> ->]. eauto.
Qed.

Lemma extended_position c : cfg_binlog_position (extended c) = cfg_binlog_position c.
Proof. unfold extended. destruct (nez _); reflexivity. Qed.

Lemma extended_fd c : cfg_fd (extended c) = cfg_fd c.
Proof. unfold extended. destruct (nez _); reflexivity. Qed.

Lemma extended_flags c : cfg_flags (extended c) = cfg_flags c.
Proof. unfold extended. destruct (nez _); reflexivity. Qed.

Lemma after_extension_position b c :
  cfg_binlog_position (after_extension b c) = cfg_binlog_position c.
Proof. unfold after_extension. destruct (_ >=? _); [apply extended_position | reflexivity]. Qed.

(** What [binlog_append] does to the handle, by outcome. *)
Lemma binlog_append_inv rhdr0 b m r m' :
  binlog_append rhdr0 (Some b) m = (r, m') ->
  (r = Val 0 /\ ctl_cfg b = HANDLE /\
   bcfg m' = set_binlog_position (cfg_binlog_position (bcfg m) + record_len b)
                                 (after_extension b (bcfg m)))
  \/ (r <> Val 0 /\ bcfg m' = bcfg m /\ forall err, r = Val err -> ctl_cfg b = NULL)
  \/ (r <> Val 0 /\ bcfg m' = after_extension b (bcfg m)).
Proof.
  unfold binlog_append. intros H.
  destruct (ctl_cfg b) eqn:Hptr.
  { apply ret_inv in H as [-> ->]. right. left.
    repeat split; try (intros; discriminate); auto. }
  step H as c m1 E; by_state E.
  step H as u1 m2 A1; apply assert_inv in A1 as [-> A1].
  2,3: right; left; repeat split; try (intros; discriminate); auto.
  step H as u2 m3 A2; apply assert_inv in A2 as [-> A2].
  2,3: right; left; repeat split; try (intros; discriminate); auto.
  assert (Hext : forall err m4,
             (if cfg_binlog_position (bcfg m1) + (sizeof_record_hdr + ctl_meta_size b + ctl_size b)
                 >=? cfg_prealloc_size (bcfg m1)
              then binlog_extend (cfg_fd (bcfg m1)) else ret 0) m1 = (err, m4) ->
             bcfg m4 = after_extension b (bcfg m1) /\ exists e, err = Val e).
  { intros err m4 Hx. unfold after_extension, record_len.
    destruct (_ >=? _).
    - apply binlog_extend_inv in Hx. exact Hx.
    - apply ret_inv in Hx as [-> ->]. eauto. }
  step H as err m4 X; apply Hext in X as [X [e He]]; try discriminate.
  clear Hext.
  destruct (nez err) eqn:Herr.
  { apply ret_inv in H as [-> ->]. apply nez_true in Herr.
    right. right. split; [congruence | exact X]. }
  destruct (ctl_key b) as [key | ].
  2:{ inversion H; subst. right. right. split; [discriminate | exact X]. }
  step H as u3 m5 A3; apply assert_inv in A3 as [-> A3].
  2,3: right; right; split; [try (intros; discriminate); auto | exact X].
  step H as c1 m6 G; by_state G.
  step H as n1 m7 W1.
  2,3: by_oscall W1.
  pose proof (sets_errno_sys_pwrite _ _ _ _ _ _ W1) as Herrno1. by_oscall W1.
  destruct (neq n1 sizeof_record_hdr).
  { destruct r as [e1 | | ]; [ | by_oscall H .. ].
    pose proof H as H'. apply io_error_nonzero in H' as [Hnz ->]; [ | exact Herrno1 ].
    right. right. split; congruence. }
  assert (Hbuf : forall (cond : bool) p n off n2 m8 mm,
             bcfg mm = bcfg m6 ->
             (if cond then pwrite_buffer (cfg_fd (bcfg m6)) p n off else ret n) mm
             = (Val n2, m8) ->
             bcfg m8 = bcfg m6 /\ (n2 = -1 -> n2 <> n -> 0 < w_errno (os m8))).
  { intros cond p n off n2 m8 mm Hmm Hx. destruct cond.
    - pose proof (sets_errno_pwrite_buffer _ _ _ _ _ _ _ Hx) as Hy.
      by_oscall Hx. split; [congruence | auto].
    - apply ret_inv in Hx as [Hx ->]. injection Hx as <-. split; [exact Hmm | congruence]. }
  step H as n2 m8 W2.
  2,3: destruct (0 <? ctl_meta_size b); [by_oscall W2 | apply ret_inv in W2 as [? ?]; discriminate].
  apply Hbuf in W2 as [W2 Herrno2]; [ | exact W1 ].
  destruct (neq n2 (ctl_meta_size b)) eqn:Hn2.
  { apply neq_true in Hn2.
    destruct r as [e1 | | ]; [ | by_oscall H .. ].
    pose proof H as H'. apply io_error_nonzero in H' as [Hnz ->]; [ | auto ].
    right. right. split; congruence. }
  step H as n3 m9 W3.
  2,3: destruct (0 <? ctl_size b); [by_oscall W3 | apply ret_inv in W3 as [? ?]; discriminate].
  apply Hbuf in W3 as [W3 Herrno3]; [ | exact W2 ].
  destruct (neq n3 (ctl_size b)) eqn:Hn3.
  { apply neq_true in Hn3.
    destruct r as [e1 | | ]; [ | by_oscall H .. ].
    pose proof H as H'. apply io_error_nonzero in H' as [Hnz ->]; [ | auto ].
    right. right. split; congruence. }
  step H as err2 m10 D.
  2,3: destruct (nez _); [apply ret_inv in D as [? ?]; discriminate | by_oscall D].
  assert (D' : bcfg m10 = bcfg m9).
  { destruct (nez _); [apply ret_inv in D as [_ ->]; reflexivity | by_oscall D; exact D]. }
  destruct (nez err2) eqn:Herr2.
  { apply ret_inv in H as [-> ->]. apply nez_true in Herr2.
    right. right. split; congruence. }
  step H as c2 m11 G; by_state G.
  step H as u4 m12 G; by_state G.
  apply ret_inv in H as [-> ->]. simpl.
  left. repeat split.
  rewrite D', W3, X. rewrite after_extension_position. reflexivity.
Qed.

Lemma binlog_append_success rhdr0 b m m' :
  binlog_append rhdr0 (Some b) m = (Val 0, m') ->
  cfg_binlog_position (bcfg m') = cfg_binlog_position (bcfg m) + record_len b.
Proof.
  intros H. apply binlog_append_inv in H as [(_ & _ & E) | [(N & _) | (N & _)]];
    [ | congruence .. ].
  rewrite E. reflexivity.
Qed.

Lemma binlog_append_failure rhdr0 b m r m' :
  binlog_append rhdr0 b m = (r, m') -> r <> Val 0 ->
  cfg_binlog_position (bcfg m') = cfg_binlog_position (bcfg m).
Proof.
  intros H N. destruct b as [b | ].
  - apply binlog_append_inv in H as [(R & _) | [(_ & E & _) | (_ & E)]].
    + contradiction.
    + rewrite E. reflexivity.
    + rewrite E. apply after_extension_position.
  - apply ret_inv in H as [_ ->]. reflexivity.
Qed.

Lemma appended_position m l m' :
  appended m l m' ->
  cfg_binlog_position (bcfg m') = cfg_binlog_position (bcfg m) + total_len l.
Proof.
  induction 1 as [m | m rhdr0 b m1 l m2 Happ _ IH]; simpl.
  - lia.
  - apply binlog_append_success in Happ. lia.
Qed.

Lemma binlog_append_stages rhdr0 b m m' :
  binlog_append rhdr0 (Some b) m = (Val 0, m') ->
  exists m1 m2,
    append_writes rhdr0 b m = (Val (inr tt), m1)
    /\ append_sync m1 = (Val 0, m2)
    /\ cfg_binlog_position (bcfg m1) = cfg_binlog_position (bcfg m)
    /\ cfg_binlog_position (bcfg m2) = cfg_binlog_position (bcfg m)
    /\ m' = mk_machine (set_binlog_position
                          (cfg_binlog_position (bcfg m) + record_len b) (bcfg m2))
                       (os m2).
Proof.
  unfold binlog_append, append_writes. intros H.
  destruct (ctl_cfg b) eqn:Hptr.
  { apply ret_inv in H as [H _]. discriminate. }
  step H as c m1 E. rewrite (bind_val _ _ _ _ _ E). by_state E.
  step H as u1 m2 A1. rewrite (bind_val _ _ _ _ _ A1).
  apply assert_inv in A1 as [-> _].
  step H as u2 m3 A2. rewrite (bind_val _ _ _ _ _ A2).
  apply assert_inv in A2 as [-> _].
  step H as err m4 X. rewrite (bind_val _ _ _ _ _ X).
  assert (Xpos : cfg_binlog_position (bcfg m4) = cfg_binlog_position (bcfg m1)).
  { destruct (_ >=? _).
    - apply binlog_extend_inv in X as [-> _]. apply extended_position.
    - apply ret_inv in X as [_ ->]. reflexivity. }
  destruct (nez err) eqn:Herr.
  { apply ret_inv in H as [H _]. apply nez_true in Herr. congruence. }
  destruct (ctl_key b) as [key | ]; [ | discriminate ].
  step H as u3 m5 A3. rewrite (bind_val _ _ _ _ _ A3).
  apply assert_inv in A3 as [-> _].
  step H as c1 m6 G. rewrite (bind_val _ _ _ _ _ G). by_state G.
  step H as n1 m7 W1. rewrite (bind_val _ _ _ _ _ W1).
  pose proof (sets_errno_sys_pwrite _ _ _ _ _ _ W1) as Herrno1. by_oscall W1.
  destruct (neq n1 sizeof_record_hdr).
  { apply io_error_nonzero in H as [Hnz _]; [ congruence | exact Herrno1 ]. }
  assert (Hbuf : forall (cond : bool) p n off n2 m8 mm,
             bcfg mm = bcfg m6 ->
             (if cond then pwrite_buffer (cfg_fd (bcfg m6)) p n off else ret n) mm
             = (Val n2, m8) ->
             bcfg m8 = bcfg m6 /\ (n2 = -1 -> n2 <> n -> 0 < w_errno (os m8))).
  { intros cond p n off n2 m8 mm Hmm Hx. destruct cond.
    - pose proof (sets_errno_pwrite_buffer _ _ _ _ _ _ _ Hx) as Hy.
      by_oscall Hx. split; [congruence | auto].
    - apply ret_inv in Hx as [Hx ->]. injection Hx as <-. split; [exact Hmm | congruence]. }
  step H as n2 m8 W2. rewrite (bind_val _ _ _ _ _ W2).
  apply Hbuf in W2 as [W2 Herrno2]; [ | exact W1 ].
  destruct (neq n2 (ctl_meta_size b)) eqn:Hn2.
  { apply neq_true in Hn2.
    apply io_error_nonzero in H as [Hnz _]; [ congruence | auto ]. }
  step H as n3 m9 W3. rewrite (bind_val _ _ _ _ _ W3).
  apply Hbuf in W3 as [W3 Herrno3]; [ | exact W2 ].
  destruct (neq n3 (ctl_size b)) eqn:Hn3.
  { apply neq_true in Hn3.
    apply io_error_nonzero in H as [Hnz _]; [ congruence | auto ]. }
  step H as err2 m10 D.
  destruct (nez err2) eqn:Herr2.
  { apply ret_inv in H as [H _]. apply nez_true in Herr2. congruence. }
  apply nez_false in Herr2. subst err2.
  step H as c2 m11 G; by_state G.
  step H as u4 m12 G; by_state G.
  apply ret_inv in H as [_ ->].
  assert (D' : bcfg m11 = bcfg m9).
  { destruct (nez _); [apply ret_inv in D as [_ ->]; reflexivity | by_oscall D; exact D]. }
  exists m9, m11. split; [reflexivity | ]. split; [ | split; [ | split ] ].
  - unfold append_sync. unfold bind at 1, get_bcfg. rewrite W3. exact D.
  - rewrite W3. exact Xpos.
  - rewrite D', W3. exact Xpos.
  - unfold record_len. rewrite D', W3, Xpos. reflexivity.
Qed.

Lemma binlog_append_sync_failed rhdr0 b m m1 err m2 :
  append_writes rhdr0 b m = (Val (inr tt), m1) ->
  append_sync m1 = (Val err, m2) -> err <> 0 ->
  binlog_append rhdr0 (Some b) m = (Val err, m2).
Proof.
  unfold binlog_append, append_writes. intros H S N.
  destruct (ctl_cfg b) eqn:Hptr.
  { apply ret_inv in H as [H _]. discriminate. }
  step H as c m3 E. rewrite (bind_val _ _ _ _ _ E). by_state E.
  step H as u1 m4 A1. rewrite (bind_val _ _ _ _ _ A1).
  apply assert_inv in A1 as [-> _].
  step H as u2 m4 A2. rewrite (bind_val _ _ _ _ _ A2).
  apply assert_inv in A2 as [-> _].
  step H as err1 m4 X. rewrite (bind_val _ _ _ _ _ X).
  destruct (nez err1) eqn:Herr.
  { apply ret_inv in H as [H _]. discriminate. }
  destruct (ctl_key b) as [key | ]; [ | discriminate ].
  step H as u3 m5 A3. rewrite (bind_val _ _ _ _ _ A3).
  apply assert_inv in A3 as [-> _].
  step H as c1 m6 G. rewrite (bind_val _ _ _ _ _ G). by_state G.
  step H as n1 m7 W1. rewrite (bind_val _ _ _ _ _ W1). by_oscall W1.
  assert (Hno : forall n mm r mm', (e <- io_error n ;; ret (@inl Z unit e)) mm = (r, mm') ->
                                   r <> Val (inr tt)).
  { intros n mm r mm' Hx. unfold io_error, get_os, bind, ret in Hx.
    inversion Hx. discriminate. }
  destruct (neq n1 sizeof_record_hdr).
  { apply Hno in H. congruence. }
  assert (Hbuf : forall (cond : bool) p n off n2 m8 mm,
             bcfg mm = bcfg m6 ->
             (if cond then pwrite_buffer (cfg_fd (bcfg m6)) p n off else ret n) mm
             = (Val n2, m8) ->
             bcfg m8 = bcfg m6).
  { intros cond p n off n2 m8 mm Hmm Hx. destruct cond.
    - by_oscall Hx. congruence.
    - apply ret_inv in Hx as [Hx ->]. exact Hmm. }
  step H as n2 m8 W2. rewrite (bind_val _ _ _ _ _ W2).
  apply Hbuf in W2; [ | exact W1 ].
  destruct (neq n2 (ctl_meta_size b)).
  { apply Hno in H. congruence. }
  step H as n3 m9 W3. rewrite (bind_val _ _ _ _ _ W3).
  apply Hbuf in W3; [ | exact W2 ].
  destruct (neq n3 (ctl_size b)).
  { apply Hno in H. congruence. }
  apply ret_inv in H as [_ ->].
  unfold append_sync in S. unfold bind at 1, get_bcfg in S. rewrite W3 in S.
  rewrite (bind_val _ _ _ _ _ S).
  apply nez_true in N. rewrite N. reflexivity.
Qed.

(** C3.  After successful appends of the records [l] on a handle whose
    write cursor was at the end of the disk header, the cursor is the disk
    header's size plus the sum, over the records, of record-header size
    plus payload size; an append that returns an error leaves the cursor
    where it was; an append returns 0 only when the header, the metadata
    and the data have been written in full and the synchronisation after
    them has returned 0, the cursor being still where it was after the
    writes and after the synchronisation, and advanced in the state the
    synchronisation left; and when the synchronisation fails after complete
    writes, the append returns the synchronisation's error and the cursor
    is where it was. *)
Theorem binlog_append_cursor :
  (forall m l m',
      cfg_binlog_position (bcfg m) = sizeof_disk_hdr ->
      appended m l m' ->
      cfg_binlog_position (bcfg m') = sizeof_disk_hdr + total_len l)
  /\ (forall rhdr0 b m err m',
         binlog_append rhdr0 b m = (Val err, m') -> err <> 0 ->
         cfg_binlog_position (bcfg m') = cfg_binlog_position (bcfg m))
  /\ (forall rhdr0 b m m',
         binlog_append rhdr0 (Some b) m = (Val 0, m') ->
         exists m1 m2,
           append_writes rhdr0 b m = (Val (inr tt), m1)
           /\ append_sync m1 = (Val 0, m2)
           /\ cfg_binlog_position (bcfg m1) = cfg_binlog_position (bcfg m)
           /\ cfg_binlog_position (bcfg m2) = cfg_binlog_position (bcfg m)
           /\ m' = mk_machine
                     (set_binlog_position
                        (cfg_binlog_position (bcfg m) + record_len b) (bcfg m2))
                     (os m2))
  /\ (forall rhdr0 b m m1 err m2,
         append_writes rhdr0 b m = (Val (inr tt), m1) ->
         append_sync m1 = (Val err, m2) -> err <> 0 ->
         binlog_append rhdr0 (Some b) m = (Val err, m2)
         /\ cfg_binlog_position (bcfg m2) = cfg_binlog_position (bcfg m)).
Proof.
  split; [ | split; [ | split ] ].
  - intros m l m' H0 H. apply appended_position in H. lia.
  - intros rhdr0 b m err m' H N. eapply binlog_append_failure; [exact H | congruence].
  - intros rhdr0 b m m' H. apply binlog_append_stages. exact H.
  - intros rhdr0 b m m1 err m2 H S N.
    pose proof (binlog_append_sync_failed _ _ _ _ _ _ H S N) as R.
    split; [exact R | ].
    eapply binlog_append_failure; [exact R | congruence].
Qed.

(** C10.  When an append needs the extension, preallocation is on, the
    extension succeeds, and the append then returns an error, the handle's
    preallocated size stays raised by one step; the write cursor is
    unchanged. *)
Theorem binlog_append_failure_keeps_extension rhdr0 b m m1 err m' :
  ctl_cfg b = HANDLE ->
  nez (Z.land (cfg_flags (bcfg m)) EBLOB_BINLOG_FLAGS_CFG_PREALLOC) = true ->
  cfg_binlog_position (bcfg m) + record_len b >= cfg_prealloc_size (bcfg m) ->
  binlog_extend (cfg_fd (bcfg m)) m = (Val 0, m1) ->
  binlog_append rhdr0 (Some b) m = (Val err, m') ->
  err <> 0 ->
  cfg_prealloc_size (bcfg m') = cfg_prealloc_size (bcfg m) + cfg_prealloc_step (bcfg m)
  /\ cfg_binlog_position (bcfg m') = cfg_binlog_position (bcfg m)
  /\ bcfg m' = bcfg m1.
Proof.
  intros Hptr Hflag Hfull Hext H Herr.
  apply binlog_extend_inv in Hext as [Hext _].
  apply binlog_append_inv in H as [(R & _) | [(_ & _ & N) | (_ & E)]].
  - congruence.
  - specialize (N err eq_refl). congruence.
  - unfold after_extension in E.
    destruct (Z.geb_spec (cfg_binlog_position (bcfg m) + record_len b)
                         (cfg_prealloc_size (bcfg m))) as [_ | Hlt]; [ | lia ].
    rewrite E. split; [ | split ].
    + unfold extended. rewrite Hflag. reflexivity.
    + apply extended_position.
    + congruence.
Qed.

(** C9.  On a handle whose write cursor is at the end of the disk header,
    [binlog_apply] with any handler returns 0 and leaves the handler's
    state and the machine untouched: the handler is never called. *)
Theorem binlog_apply_empty_log {U} (fuel : nat) (func : handler U) (u : U) m :
  cfg_binlog_position (bcfg m) = sizeof_disk_hdr ->
  binlog_apply fuel HANDLE (Some func) (u, m) = (Val 0, (u, m)).
Proof.
  intros H.
  unfold binlog_apply, bind, lift, get_bcfg, assert. simpl.
  rewrite H, Z.leb_refl, orb_true_r. simpl.
  destruct fuel; simpl; unfold bind, lift, get_bcfg; simpl;
    rewrite H, Z.ltb_irrefl; reflexivity.
Qed.

(** C6, amended.  On a handle that is already open ([fd] is not -1),
    [binlog_open] in a build with assertions fails the assertion
    [bcfg->fd == -1]: the process aborts before any system call, and no
    error is returned. *)
Theorem binlog_open_twice_aborts m :
  NDEBUG = false ->
  cfg_fd (bcfg m) <> -1 ->
  binlog_open HANDLE m = (Crash AssertFailed, m).
Proof.
  intros Hn Hfd.
  unfold binlog_open, bind, get_bcfg, assert. simpl.
  apply Z.eqb_neq in Hfd. rewrite Hn, Hfd. reflexivity.
Qed.


Lemma binlog_read_record_hdr_inv lsn m r m' :
  binlog_read_record_hdr lsn m = (r, m') ->
  bcfg m' = bcfg m /\ file_bytes (os m') = file_bytes (os m)
  /\ (forall rhdr, r = Val (inr rhdr) ->
        lsn + sizeof_record_hdr <= file_size (os m) /\ 0 <= rh_size rhdr
        /\ binlog_verify_record_hdr rhdr = 0)
  /\ (0 <= cfg_fd (bcfg m) -> 0 < lsn -> exists v, r = Val v).
Proof.
  unfold binlog_read_record_hdr. intros H.
  step H as c m1 G; by_state G.
  step H as u1 m2 A1; apply assert_inv in A1 as [-> A1].
  2,3: repeat split; try (intros; discriminate); intros Hfd Hlsn;
       apply Z.leb_le in Hfd; destruct A1 as [[? ?] | (? & ? & ?)]; congruence.
  step H as u2 m3 A2; apply assert_inv in A2 as [-> A2].
  2,3: repeat split; try (intros; discriminate); intros Hfd Hlsn;
       apply Z.ltb_lt in Hlsn; destruct A2 as [[? ?] | (? & ? & ?)]; congruence.
  step H as p m4 R; apply sys_pread_inv in R as (Rc & Rf & _ & k & bs & Rv & Rk);
    try discriminate.
  injection Rv as ->.
  assert (Hfile : file_bytes (os m4) = file_bytes (os m1))
    by (unfold file_bytes; rewrite Rf; reflexivity).
  simpl in H.
  destruct (neq k sizeof_record_hdr) eqn:Hk.
  - step H as e m5 IO; apply io_error_inv in IO as [-> [e' IO]]; try discriminate.
    apply ret_inv in H as [-> ->].
    repeat split; try congruence; eauto.
  - apply neq_false in Hk. subst k.
    pose proof sizeof_record_hdr_pos as Hpos.
    pose proof (decode_record_hdr_size bs) as Hsz.
    destruct (nez (binlog_verify_record_hdr (decode_record_hdr bs))) eqn:Hv;
      apply ret_inv in H as [-> ->];
      (split; [congruence | split; [congruence | split; [ | eauto ] ] ]);
      intros h Hr; try discriminate.
    injection Hr as <-. apply nez_false in Hv.
    repeat split; [lia | exact Hsz | exact Hv].
Qed.

Lemma binlog_read_record_hdr_offset lsn m rhdr m' :
  binlog_read_record_hdr lsn m = (Val (inr rhdr), m') -> 0 <= lsn.
Proof.
  unfold binlog_read_record_hdr. intros H.
  step H as c m1 G; by_state G.
  step H as u1 m2 A1; apply assert_inv in A1 as [-> _].
  step H as u2 m3 A2; apply assert_inv in A2 as [-> _].
  step H as p m4 R; apply sys_pread_inv in R as (_ & _ & _ & k & bs & Rv & Rk).
  injection Rv as ->. simpl in H.
  destruct (neq k sizeof_record_hdr) eqn:Hk.
  - step H as e m5 IO. apply ret_inv in H as [H _]. discriminate.
  - apply neq_false in Hk. pose proof sizeof_record_hdr_pos. apply Rk. lia.
Qed.

(** In a build with assertions, a header read that returns at all was
    made at an offset above 0, on a handle with a descriptor. *)
Lemma binlog_read_record_hdr_asserted lsn m v m' :
  binlog_read_record_hdr lsn m = (Val v, m') ->
  NDEBUG = false -> 0 <= cfg_fd (bcfg m) /\ 0 < lsn.
Proof.
  unfold binlog_read_record_hdr. intros H Hnd.
  step H as c m1 G; by_state G.
  step H as u1 m2 A1; apply assert_inv in A1 as [-> [[A1 _] | (_ & _ & A1)]];
    [ | discriminate ].
  step H as u2 m3 A2; apply assert_inv in A2 as [-> [[A2 _] | (_ & _ & A2)]];
    [ | discriminate ].
  rewrite Hnd in A1, A2. simpl in A1, A2.
  apply Z.leb_le in A1. apply Z.ltb_lt in A2. auto.
Qed.

(** *** Scans that never end *)

Section Orbit.

Variable next : Z -> option Z.
Variable bound : nat.
Hypothesis next_dom : forall x y, next x = Some y -> 0 <= x < Z.of_nat bound.

Lemma orbit_add n k : forall x,
  orbit next (n + k) x
  = match orbit next n x with Some y => orbit next k y | None => None end.
Proof.
  induction n as [ | n IH]; intros x; simpl; [reflexivity | ].
  destruct (next x); [apply IH | reflexivity].
Qed.

Lemma orbit_prefix n k x : orbit next (n + k) x <> None -> orbit next n x <> None.
Proof. rewrite orbit_add. destruct (orbit next n x); congruence. Qed.

Lemma trace_length n : forall x, orbit next n x <> None -> length (trace next n x) = n.
Proof.
  induction n as [ | n IH]; intros x H; simpl in *; [reflexivity | ].
  destruct (next x); [rewrite IH; auto | congruence].
Qed.

Lemma trace_dom n : forall x y,
  orbit next n x <> None -> In y (trace next n x) -> next y <> None.
Proof.
  induction n as [ | n IH]; intros x y H Hin; simpl in *; [contradiction | ].
  destruct (next x) as [x1 | ] eqn:E; [ | congruence ].
  destruct Hin as [<- | Hin]; [congruence | eauto].
Qed.

Lemma trace_split n : forall x l1 a rest,
  trace next n x = l1 ++ a :: rest ->
  orbit next (length l1) x = Some a /\ exists k, trace next k a = a :: rest.
Proof.
  induction n as [ | n IH]; intros x l1 a rest H; simpl in H.
  - destruct l1; discriminate.
  - destruct l1 as [ | b l1]; simpl in *.
    + injection H as -> H. split; [reflexivity | ].
      exists (S n). simpl. rewrite H. reflexivity.
    + injection H as -> H.
      destruct (next b) as [y | ]; [ | destruct l1; discriminate ].
      apply IH in H. exact H.
Qed.

Lemma orbit_cycle p a :
  orbit next (S p) a = Some a -> forall n, orbit next n a <> None.
Proof.
  intros Hp n. induction n as [n IH] using lt_wf_ind.
  destruct (Nat.le_gt_cases n (S p)) as [Hle | Hgt].
  - apply (orbit_prefix n (S p - n)).
    replace (n + (S p - n))%nat with (S p) by lia. congruence.
  - replace n with (S p + (n - S p))%nat by lia.
    rewrite orbit_add, Hp. apply IH. lia.
Qed.

Lemma orbit_forever x :
  orbit next (S bound) x <> None -> forall n, orbit next n x <> None.
Proof.
  intros H.
  assert (Hrep : ~ NoDup (trace next (S bound) x)).
  { intros Hnd.
    assert (Hincl : incl (trace next (S bound) x) (map Z.of_nat (seq 0 bound))).
    { intros y Hy. apply (trace_dom _ _ _ H) in Hy.
      destruct (next y) as [z | ] eqn:E; [ | congruence ].
      apply next_dom in E. apply in_map_iff. exists (Z.to_nat y).
      split; [lia | ]. apply in_seq. lia. }
    apply NoDup_incl_length in Hincl; [ | exact Hnd ].
    rewrite trace_length in Hincl by exact H.
    rewrite length_map, length_seq in Hincl. lia. }
  apply not_NoDup in Hrep; [ | intros a b; apply Z.eq_decidable ].
  destruct Hrep as (a & l1 & l2 & l3 & Hsplit).
  apply trace_split in Hsplit as [H1 [k Hk]].
  change (a :: l2 ++ a :: l3) with ((a :: l2) ++ a :: l3) in Hk.
  apply trace_split in Hk as [H2 _]. simpl length in H2.
  intros n. destruct (Nat.le_gt_cases n (length l1)) as [Hle | Hgt].
  - apply (orbit_prefix n (length l1 - n)).
    replace (n + (length l1 - n))%nat with (length l1) by lia. congruence.
  - replace n with (length l1 + (n - length l1))%nat by lia.
    rewrite orbit_add, H1. apply (orbit_cycle _ _ H2).
Qed.

End Orbit.

(** A read that does not fail takes one entry off the script and changes
    nothing else. *)
Lemma sys_pread_pop fd n off m k bs m' :
  sys_pread fd n off m = (Val (k, bs), m') -> 0 <= k ->
  bcfg m' = bcfg m /\ os m' = set_script (tl (w_script (os m))) (os m).
Proof.
  destruct m as [c [f d l e s]].
  unfold sys_pread, pop_fault, fail_with, get_os, put_os, bind, ret. simpl.
  intros H Hk.
  destruct s as [ | [ | e1 | p] s]; simpl in H;
    split_match H; inversion H; subst; simpl; try lia; split; reflexivity.
Qed.

(** A header read never runs out of fuel, and when it returns a header it
    has taken one entry off the script and changed nothing else. *)
Lemma binlog_read_record_hdr_pop lsn m r m' :
  binlog_read_record_hdr lsn m = (r, m') ->
  r <> OutOfFuel
  /\ (forall rhdr, r = Val (inr rhdr) ->
        bcfg m' = bcfg m /\ os m' = set_script (tl (w_script (os m))) (os m)).
Proof.
  unfold binlog_read_record_hdr. intros H.
  step H as c m1 G; by_state G.
  step H as u1 m2 A1; apply assert_inv in A1 as [-> A1].
  2,3: split; [ | intros; discriminate ];
       destruct A1 as [[? ?] | (? & ? & ?)]; congruence.
  step H as u2 m3 A2; apply assert_inv in A2 as [-> A2].
  2,3: split; [ | intros; discriminate ];
       destruct A2 as [[? ?] | (? & ? & ?)]; congruence.
  step H as p m4 R.
  2,3: by_oscall R.
  destruct p as [k bs]. simpl in H.
  pose proof sizeof_record_hdr_pos as Hpos.
  destruct (neq k sizeof_record_hdr) eqn:Hk.
  - step H as e m5 IO; apply io_error_inv in IO as [-> [e' IO]]; try discriminate.
    apply ret_inv in H as [-> ->].
    split; [discriminate | intros; discriminate].
  - apply neq_false in Hk.
    apply sys_pread_pop in R; [ | lia ].
    destruct (nez _); apply ret_inv in H as [-> ->];
      (split; [discriminate | ]); intros h Hh; [discriminate | exact R].
Qed.

Lemma next_lsn_dom m x y :
  next_lsn m x = Some y -> 0 <= x < Z.of_nat (length (file_bytes (os m))).
Proof.
  unfold next_lsn. intros H.
  destruct (binlog_read_record_hdr x m) as [[[err | rhdr] | | ] m1] eqn:E; try discriminate.
  pose proof (binlog_read_record_hdr_offset _ _ _ _ E) as H0.
  apply binlog_read_record_hdr_inv in E as (_ & _ & Hin & _).
  destruct (Hin rhdr eq_refl) as (Hsz & _).
  pose proof sizeof_record_hdr_pos. unfold file_size in Hsz. lia.
Qed.

Lemma get_next_lsn_loop_orbit m :
  w_script (os m) = [] ->
  forall n lsn,
    fst (get_next_lsn_loop n lsn m) = OutOfFuel <-> orbit (next_lsn m) n lsn <> None.
Proof.
  intros Hs n. induction n as [ | n IH]; intros lsn; simpl.
  - split; [discriminate | reflexivity].
  - unfold bind, next_lsn.
    destruct (binlog_read_record_hdr lsn m) as [r m1] eqn:E.
    apply binlog_read_record_hdr_pop in E as [Hr Hm].
    destruct r as [[err | rhdr] | e | ]; simpl.
    + split; [discriminate | congruence].
    + destruct (Hm rhdr eq_refl) as [Hc Ho].
      assert (m1 = m) as ->.
      { destruct m as [c [f d l e s]], m1 as [c1 w1]. simpl in *. subst. reflexivity. }
      apply IH.
    + split; [discriminate | congruence].
    + congruence.
Qed.

(** A scan that uses up a fuel of one more than the length of the script
    plus the length of the file uses up any fuel. *)
Lemma get_next_lsn_loop_diverges m lsn :
  fst (get_next_lsn_loop (S (length (w_script (os m)) + length (file_bytes (os m)))) lsn m)
  = OutOfFuel ->
  forall fuel, fst (get_next_lsn_loop fuel lsn m) = OutOfFuel.
Proof.
  remember (length (w_script (os m))) as s eqn:Hs.
  revert m lsn Hs. induction s as [ | s IH]; intros m lsn Hs H fuel.
  - symmetry in Hs. apply length_zero_iff_nil in Hs.
    apply (get_next_lsn_loop_orbit _ Hs).
    apply (orbit_forever _ _ (next_lsn_dom m)).
    apply (get_next_lsn_loop_orbit _ Hs). exact H.
  - change (S (S s + length (file_bytes (os m))))
      with (S (S (s + length (file_bytes (os m))))) in H.
    remember (S (s + length (file_bytes (os m)))) as N eqn:HN.
    simpl in H. unfold bind in H.
    destruct (binlog_read_record_hdr lsn m) as [r m1] eqn:E.
    pose proof (binlog_read_record_hdr_inv _ _ _ _ E) as (_ & Hf & _).
    pose proof (binlog_read_record_hdr_pop _ _ _ _ E) as [Hr Hm].
    destruct r as [[err | rhdr] | e | ]; simpl in H; try discriminate; try congruence.
    destruct (Hm rhdr eq_refl) as [Hc Ho].
    assert (Hs1 : s = length (w_script (os m1))).
    { rewrite Ho. simpl. destruct (w_script (os m)); simpl in *; [discriminate | lia]. }
    subst N. rewrite <- Hf in H.
    pose proof (IH m1 _ Hs1 H) as D.
    destruct fuel as [ | fuel]; [reflexivity | ].
    simpl. unfold bind. rewrite E. apply D.
Qed.

Lemma get_next_lsn_loop_more fuel : forall lsn m r m',
  get_next_lsn_loop fuel lsn m = (r, m') -> r <> OutOfFuel ->
  forall k, get_next_lsn_loop (fuel + k) lsn m = (r, m').
Proof.
  induction fuel as [ | fuel IH]; intros lsn m r m' H Hr k; simpl in *.
  - inversion H. congruence.
  - unfold bind in *.
    destruct (binlog_read_record_hdr lsn m) as [[[err | rhdr] | e | ] m1]; try exact H.
    apply IH; assumption.
Qed.

(** Every run of the loop that ends, on whatever fuel, ends as
    [binlog_get_next_lsn] does. *)
Lemma binlog_get_next_lsn_complete fuel m r m' :
  get_next_lsn_loop fuel sizeof_disk_hdr m = (r, m') -> r <> OutOfFuel ->
  binlog_get_next_lsn m = (r, m').
Proof.
  intros H Hr. unfold binlog_get_next_lsn, bind, get_os. 
  set (N := S (length (w_script (os m)) + length (file_bytes (os m)))).
  destruct (get_next_lsn_loop N sizeof_disk_hdr m) as [r1 m1] eqn:E.
  assert (Hr1 : r1 <> OutOfFuel).
  { intros ->.
    pose proof (get_next_lsn_loop_diverges m sizeof_disk_hdr) as D.
    fold N in D. rewrite E in D. specialize (D eq_refl fuel). rewrite H in D.
    simpl in D. congruence. }
  pose proof (get_next_lsn_loop_more _ _ _ _ _ H Hr N) as H1.
  pose proof (get_next_lsn_loop_more _ _ _ _ _ E Hr1 fuel) as E1.
  rewrite Nat.add_comm in E1. simpl. congruence.
Qed.

(** *** The chain of record headers *)

Lemma scan_lower m lsn m' lsn' : scan m lsn m' lsn' -> lsn <= lsn'.
Proof.
  induction 1 as [m lsn err m' R | m lsn rhdr m1 m' lsn' R _ IH]; [lia | ].
  apply binlog_read_record_hdr_inv in R as (_ & _ & R & _).
  destruct (R rhdr eq_refl) as (_ & Hsz & _).
  pose proof sizeof_record_hdr_pos. lia.
Qed.

(** Where no record header fits between the offset and the end of the
    file, the scan stops at once. *)
Lemma scan_short m lsn m' lsn' :
  scan m lsn m' lsn' -> file_size (os m) < lsn + sizeof_record_hdr -> lsn' = lsn.
Proof.
  intros S Hshort. destruct S as [m lsn err m' R | m lsn rhdr m1 m' lsn' R _]; [reflexivity | ].
  apply binlog_read_record_hdr_inv in R as (_ & _ & R & _).
  destruct (R rhdr eq_refl) as (Hin & _). lia.
Qed.

(** The chain of the claim exists on every log: its offsets grow, and no
    header is read past the end of the file. *)
Lemma scan_total fuel : forall lsn m,
  0 <= cfg_fd (bcfg m) -> 0 < lsn ->
  file_size (os m) - lsn < Z.of_nat fuel ->
  exists lsn' m', scan m lsn m' lsn'.
Proof.
  induction fuel as [ | fuel IH]; intros lsn m Hfd Hlsn Hfuel.
  all: destruct (binlog_read_record_hdr lsn m) as [r m1] eqn:R.
  all: pose proof (binlog_read_record_hdr_inv _ _ _ _ R) as (Rc & Rf & Rok & Rval).
  all: destruct (Rval Hfd Hlsn) as [[err | rhdr] ->].
  all: try (exists lsn, m1; eapply scan_stop; exact R).
  - destruct (Rok rhdr eq_refl) as (Hin & _).
    pose proof sizeof_record_hdr_pos. simpl in Hfuel. lia.
  - destruct (Rok rhdr eq_refl) as (Hin & Hsz & _).
    pose proof sizeof_record_hdr_pos as Hpos.
    assert (Hsize : file_size (os m1) = file_size (os m))
      by (unfold file_size; rewrite Rf; reflexivity).
    destruct (IH (lsn + (sizeof_record_hdr + rh_size rhdr)) m1) as (lsn' & m' & S);
      try lia; try congruence.
    exists lsn', m'. eapply scan_next; [exact R | exact S].
Qed.

(** Where the chain ends at an offset that fits [off_t], the loop follows
    it to its end, on a fuel of the length of the file. *)
Lemma get_next_lsn_loop_follows m lsn m' lsn' :
  scan m lsn m' lsn' -> lsn' <= OFF_MAX ->
  forall fuel, file_size (os m) - lsn < Z.of_nat fuel -> (1 <= fuel)%nat ->
  get_next_lsn_loop fuel lsn m = (Val lsn', m').
Proof.
  induction 1 as [m lsn err m' R | m lsn rhdr m1 m' lsn' R S IH];
    intros Hmax fuel Hfuel Hone.
  - destruct fuel as [ | fuel]; [lia | ]. cbn [get_next_lsn_loop].
    rewrite (bind_val _ _ _ _ _ R). reflexivity.
  - destruct fuel as [ | fuel]; [lia | ]. cbn [get_next_lsn_loop].
    rewrite (bind_val _ _ _ _ _ R).
    pose proof (scan_lower _ _ _ _ S) as Hlow.
    pose proof (binlog_read_record_hdr_offset _ _ _ _ R) as Hoff.
    pose proof (binlog_read_record_hdr_inv _ _ _ _ R) as (_ & Rf & Rok & _).
    destruct (Rok rhdr eq_refl) as (Hin & Hsz & _).
    pose proof sizeof_record_hdr_pos as Hpos.
    assert (Hsize : file_size (os m1) = file_size (os m))
      by (unfold file_size; rewrite Rf; reflexivity).
    replace (rh_size rhdr + sizeof_record_hdr) with (sizeof_record_hdr + rh_size rhdr) by lia.
    rewrite to_off_t_small by (unfold OFF_MAX in *; lia).
    apply IH; [exact Hmax | lia | lia].
Qed.

Lemma binlog_get_next_lsn_follows m m' lsn :
  scan m sizeof_disk_hdr m' lsn -> lsn <= OFF_MAX ->
  binlog_get_next_lsn m = (Val lsn, m').
Proof.
  intros S Hmax. unfold binlog_get_next_lsn, bind, get_os.
  pose proof sizeof_disk_hdr_pos as Hpos.
  apply (get_next_lsn_loop_follows _ _ _ _ S Hmax); [ | lia ].
  unfold file_size. lia.
Qed.

Lemma scan_functional m lsn m1 l1 :
  scan m lsn m1 l1 -> forall m2 l2, scan m lsn m2 l2 -> m1 = m2 /\ l1 = l2.
Proof.
  induction 1 as [m lsn err m' R | m lsn rhdr m1 m' lsn' R _ IH]; intros m2 l2 S;
    inversion S; subst; try congruence.
  - split; congruence.
  - assert (rhdr0 = rhdr /\ m3 = m1) as [-> ->] by (split; congruence).
    apply IH. assumption.
Qed.

(** Whatever value the loop returns was reached by the chain of header
    reads, with the offsets reduced to [off_t]. *)
Lemma get_next_lsn_loop_sound fuel : forall lsn m lsn' m',
  get_next_lsn_loop fuel lsn m = (Val lsn', m') -> wrapped_scan m lsn m' lsn'.
Proof.
  induction fuel as [ | fuel IH]; intros lsn m lsn' m' H; simpl in H; [discriminate | ].
  step H as r m1 R; try discriminate.
  destruct r as [err | rhdr].
  - apply ret_inv in H as [H ->]. injection H as <-. eapply wrapped_scan_stop. exact R.
  - eapply wrapped_scan_next; [exact R | ].
    replace (sizeof_record_hdr + rh_size rhdr) with (rh_size rhdr + sizeof_record_hdr) by lia.
    apply IH. exact H.
Qed.

Lemma binlog_get_next_lsn_sound m lsn m' :
  binlog_get_next_lsn m = (Val lsn, m') -> wrapped_scan m sizeof_disk_hdr m' lsn.
Proof.
  unfold binlog_get_next_lsn. intros H.
  step H as w m1 G; by_state G. apply get_next_lsn_loop_sound in H. exact H.
Qed.

(** Without a complete record header after the offset, the loop stops at
    once. *)
Lemma wrapped_scan_short m lsn m' lsn' :
  wrapped_scan m lsn m' lsn' -> file_size (os m) < lsn + sizeof_record_hdr -> lsn' = lsn.
Proof.
  intros S Hshort. destruct S as [m lsn err m' R | m lsn rhdr m1 m' lsn' R _]; [reflexivity | ].
  apply binlog_read_record_hdr_inv in R as (_ & _ & R & _).
  destruct (R rhdr eq_refl) as (Hin & _). lia.
Qed.

(** In a build with assertions the loop stops above offset 0. *)
Lemma wrapped_scan_asserted m lsn m' lsn' :
  wrapped_scan m lsn m' lsn' -> NDEBUG = false -> 0 < lsn'.
Proof.
  induction 1 as [m lsn err m' R | m lsn rhdr m1 m' lsn' R _ IH]; intros Hnd.
  - apply (binlog_read_record_hdr_asserted _ _ _ _ R Hnd).
  - apply IH. exact Hnd.
Qed.

Lemma scan_frame m lsn m' lsn' :
  scan m lsn m' lsn' ->
  bcfg m' = bcfg m /\ file_bytes (os m') = file_bytes (os m).
Proof.
  induction 1 as [m lsn err m' R | m lsn rhdr m1 m' lsn' R _ IH].
  - apply binlog_read_record_hdr_inv in R as (Rc & Rf & _). auto.
  - apply binlog_read_record_hdr_inv in R as (Rc & Rf & _).
    destruct IH as [IHc IHf]. split; congruence.
Qed.

Lemma neg_errno_inv m r m' :
  neg_errno m = (r, m') -> m' = m /\ r = Val (- w_errno (os m)).
Proof. unfold neg_errno, get_os, bind, ret. intros H. inversion H. auto. Qed.

Lemma err_unlock_inv fd err m r m' :
  err_unlock fd err m = (r, m') -> r = Val err /\ bcfg m' = bcfg m.
Proof.
  unfold err_unlock. intros H.
  step H as a m1 U; by_oscall U.
  step H as c m2 C; by_oscall C.
  apply ret_inv in H as [-> ->]. split; congruence.
Qed.

Lemma binlog_hdr_read_inv fd m r m' :
  binlog_hdr_read fd m = (r, m') ->
  bcfg m' = bcfg m /\ forall err, r = Val (inl err) -> err <> 0.
Proof.
  unfold binlog_hdr_read. intros H.
  step H as u m1 A; apply assert_inv in A as [-> A].
  2,3: split; [reflexivity | intros; discriminate].
  step H as ok m2 Ma; by_oscall Ma.
  destruct ok; simpl in H.
  2:{ apply ret_inv in H as [-> ->]. split; [exact Ma | ].
      intros err He. injection He as <-. discriminate. }
  step H as p m3 R.
  2,3: by_oscall R.
  pose proof (sets_errno_sys_pread _ _ _ _ _ _ R) as Herrno. by_oscall R.
  destruct (neq (fst p) sizeof_disk_hdr).
  - step H as e m4 IO.
    2,3: by_oscall IO.
    apply io_error_nonzero in IO as [Hnz ->]; [ | exact Herrno ].
    apply ret_inv in H as [-> ->]. split; [congruence | ].
    intros err He. injection He as <-. exact Hnz.
  - destruct (nez (binlog_verify_hdr (decode_disk_hdr (snd p)))) eqn:Hv;
      apply ret_inv in H as [-> ->]; (split; [congruence | ]);
      intros err He; try discriminate.
    injection He as <-. apply nez_true in Hv. exact Hv.
Qed.

Lemma binlog_read_record_hdr_error lsn m err m' :
  binlog_read_record_hdr lsn m = (Val (inl err), m') -> err <> 0.
Proof.
  unfold binlog_read_record_hdr. intros H.
  step H as c m1 G; by_state G.
  step H as u1 m2 A1; apply assert_inv in A1 as [-> _].
  step H as u2 m3 A2; apply assert_inv in A2 as [-> _].
  step H as p m4 R.
  pose proof (sets_errno_sys_pread _ _ _ _ _ _ R) as Herrno. clear R.
  destruct (neq (fst p) sizeof_record_hdr).
  - step H as e m5 IO. apply io_error_nonzero in IO as [Hnz ->]; [ | exact Herrno ].
    apply ret_inv in H as [H _]. congruence.
  - destruct (nez (binlog_verify_record_hdr (decode_record_hdr (snd p)))) eqn:Hv;
      apply ret_inv in H as [H _]; [ | discriminate ].
    apply nez_true in Hv. congruence.
Qed.

(** Reading into a descriptor whose key pointer is NULL never succeeds. *)
Lemma binlog_read_null_key b offset m r m' :
  ctl_key b = None ->
  binlog_read (Some b) offset m = (r, m') ->
  bcfg m' = bcfg m /\ forall v, r = Val v -> fst v <> 0.
Proof.
  unfold binlog_read. intros Hkey H.
  destruct (ctl_cfg b).
  { apply ret_inv in H as [-> ->]. split; [reflexivity | ].
    intros v Hv. injection Hv as <-. discriminate. }
  step H as u m1 A; apply assert_inv in A as [-> _].
  2,3: split; [reflexivity | intros; discriminate].
  step H as hr m2 R.
  2,3: apply binlog_read_record_hdr_inv in R as (Rc & _); split;
       [exact Rc | intros; discriminate].
  pose proof (binlog_read_record_hdr_inv _ _ _ _ R) as (Rc & _).
  destruct hr as [err | rhdr].
  { apply binlog_read_record_hdr_error in R.
    apply ret_inv in H as [-> ->]. split; [exact Rc | ].
    intros v Hv. injection Hv as <-. exact R. }
  assert (Hdata : forall dr m3,
             (if nez (rh_size rhdr)
              then binlog_read_record_data (to_off_t (offset + sizeof_record_hdr))
                                           (to_ssize_t (rh_size rhdr))
              else ret None) m2 = (dr, m3) -> bcfg m3 = bcfg m2).
  { intros dr m3 Hx. destruct (nez _).
    - unfold binlog_read_record_data in Hx.
      step Hx as c m4 G; by_state G.
      step Hx as u1 m5 A1; apply assert_inv in A1 as [-> _]; [ | reflexivity .. ].
      step Hx as u2 m6 A2; apply assert_inv in A2 as [-> _]; [ | reflexivity .. ].
      step Hx as u3 m7 A3; apply assert_inv in A3 as [-> _]; [ | reflexivity .. ].
      step Hx as ok m8 Ma; by_oscall Ma.
      destruct ok; simpl in Hx.
      + step Hx as p m9 Rd; by_oscall Rd.
        destruct (neq _ _); apply ret_inv in Hx as [_ ->]; congruence.
      + apply ret_inv in Hx as [_ ->]. exact Ma.
    - apply ret_inv in Hx as [_ ->]. reflexivity. }
  step H as data m3 D; apply Hdata in D.
  2,3: split; [congruence | intros; discriminate].
  rewrite Hkey in H.
  destruct (nez (rh_size rhdr)); destruct data.
  all: try (inversion H; subst; split; [congruence | intros; discriminate]).
  apply ret_inv in H as [-> ->]. split; [congruence | ].
  intros v Hv. injection Hv as <-. discriminate.
Qed.

Lemma lift_inv {U A} (c : M machine A) (s : U * machine) r s' :
  lift c s = (r, s') -> exists m', c (snd s) = (r, m') /\ s' = (fst s, m').
Proof.
  unfold lift. destruct (c (snd s)) as [r0 m0]. intros H. inversion H. eauto.
Qed.

Lemma apply_loop_unfold {U} fuel (func : handler U) offset :
  apply_loop fuel func offset =
  (c <- lift get_bcfg ;;
   if offset <? cfg_binlog_position c then
     match fuel with
     | O => fun s => (OutOfFuel, s)
     | S fuel' =>
         let bctl := mk_ctl HANDLE 0 None None 0 None 0 0 in
         r <- lift (binlog_read (Some bctl) offset) ;;
         if nez (fst r) then ret (fst r)
         else
           let bctl := match snd r with Some b => b | None => bctl end in
           err <- call_handler func bctl ;;
           if nez err then ret err
           else apply_loop fuel' func
                  (to_off_t (offset + (ctl_size bctl + sizeof_record_hdr)))
     end
   else ret 0).
Proof. destruct fuel; reflexivity. Qed.

(** On a log that holds a record, [binlog_apply] never returns success and
    never calls the handler. *)
Lemma binlog_apply_nonempty {U} (fuel : nat) (func : handler U) (u : U) m r u' m' :
  sizeof_disk_hdr < cfg_binlog_position (bcfg m) ->
  binlog_apply fuel HANDLE (Some func) (u, m) = (r, (u', m')) ->
  r <> Val 0 /\ u' = u.
Proof.
  intros Hpos H. unfold binlog_apply in H.
  step H as c s1 G; apply lift_inv in G as (m1 & G & Hs); by_state G.
  step H as u1 s2 A; apply lift_inv in A as (m2 & A & Hs);
    apply assert_inv in A as [-> _]; simpl in Hs.
  2,3: injection Hs as <- _; split; [discriminate | reflexivity].
  subst s2.
  apply Z.ltb_lt in Hpos.
  rewrite apply_loop_unfold in H.
  step H as c s1 G; apply lift_inv in G as (m2 & G & Hs); by_state G.
  simpl snd in H. rewrite Hpos in H.
  destruct fuel as [ | fuel].
  - inversion H; subst. split; [discriminate | reflexivity].
  - cbv zeta in H.
    step H as rd s2 R; apply lift_inv in R as (m3 & R & Hs);
      apply binlog_read_null_key in R as [_ R]; try reflexivity; simpl in Hs.
    2,3: injection Hs as <- _; split; [discriminate | reflexivity].
    subst s2.
    specialize (R rd eq_refl). apply nez_true in R. rewrite R in H.
    apply ret_inv in H as [-> H]. injection H as <- _.
    apply nez_true in R. split; [congruence | reflexivity].
Qed.

End Facts.

(** ** The helpers of original_id_helpers.h *)

Lemma app_eq_by_length {A} (a b c d : list A) :
  length a = length c -> a ++ b = c ++ d -> a = c /\ b = d.
Proof.
  revert c. induction a as [ | x a IH]; intros [ | y c] Hlen H; simpl in *; try discriminate.
  - auto.
  - injection H as -> H. injection Hlen as Hlen.
    destruct (IH c Hlen H) as [-> ->]. auto.
Qed.

Section OriginalIdFacts.
Variable EBLOB_ID_SIZE : nat.
Variable eblob_id_cmp : list byte -> list byte -> Z.

Lemma original_id_reorder_eq key_reord key :
  (8 <= EBLOB_ID_SIZE)%nat ->
  length key = EBLOB_ID_SIZE ->
  length key_reord = EBLOB_ID_SIZE ->
  original_id_reorder EBLOB_ID_SIZE key_reord key = skipn 8 key ++ firstn 8 key.
Proof.
  intros Hsz Hk Ho. unfold original_id_reorder, memcpy.
  change (firstn 0 key_reord) with (@nil byte).
  change (0 + (EBLOB_ID_SIZE - 8))%nat with (EBLOB_ID_SIZE - 8)%nat.
  change (skipn 0 key) with key.
  cbn [app].
  assert (H1 : firstn (EBLOB_ID_SIZE - 8) (skipn 8 key) = skipn 8 key).
  { apply firstn_all2. rewrite length_skipn. lia. }
  rewrite H1.
  rewrite firstn_app, skipn_app.
  rewrite length_skipn, Hk.
  replace (EBLOB_ID_SIZE - 8 - (EBLOB_ID_SIZE - 8))%nat with 0%nat by lia.
  replace (EBLOB_ID_SIZE - 8 + 8 - (EBLOB_ID_SIZE - 8))%nat with 8%nat by lia.
  rewrite (firstn_all2 (skipn 8 key)) by (rewrite length_skipn; lia).
  rewrite (skipn_all2 (skipn 8 key)) by (rewrite length_skipn; lia).
  rewrite (skipn_all2 (skipn _ key_reord)) by (rewrite length_skipn; lia).
  change (firstn 0 (skipn (EBLOB_ID_SIZE - 8) key_reord)) with (@nil byte).
  cbn [app]. rewrite !app_nil_r. reflexivity.
Qed.

(** X1.  The reordered key is the key with its first eight bytes moved to the
    end; it has the size of a key and owes nothing to what [key_reord]
    held before. *)
Theorem original_id_reorder_rotates key_reord key :
  (8 <= EBLOB_ID_SIZE)%nat ->
  length key = EBLOB_ID_SIZE ->
  length key_reord = EBLOB_ID_SIZE ->
  original_id_reorder EBLOB_ID_SIZE key_reord key = skipn 8 key ++ firstn 8 key
  /\ length (original_id_reorder EBLOB_ID_SIZE key_reord key) = EBLOB_ID_SIZE.
Proof.
  intros Hsz Hk Ho. rewrite original_id_reorder_eq by assumption.
  split; [reflexivity | ].
  rewrite length_app, length_skipn, length_firstn. lia.
Qed.

(** X2.  Two keys with the same reordered key are the same key. *)
Theorem original_id_reorder_injective r1 k1 r2 k2 :
  (8 <= EBLOB_ID_SIZE)%nat ->
  length k1 = EBLOB_ID_SIZE -> length r1 = EBLOB_ID_SIZE ->
  length k2 = EBLOB_ID_SIZE -> length r2 = EBLOB_ID_SIZE ->
  original_id_reorder EBLOB_ID_SIZE r1 k1 = original_id_reorder EBLOB_ID_SIZE r2 k2 ->
  k1 = k2.
Proof.
  intros Hsz Hk1 Hr1 Hk2 Hr2 H.
  rewrite !original_id_reorder_eq in H by assumption.
  apply app_eq_by_length in H as [Hs Hf]; [ | rewrite !length_skipn; lia ].
  rewrite <- (firstn_skipn 8 k1), <- (firstn_skipn 8 k2). congruence.
Qed.

(** X3.  The range comparison is fit for a binary search over blocks in
    increasing order: when a block [r1], whose start is not above its end,
    ends before a block [r2] starts, a key at or below [r1] is below [r2],
    and a key at or above [r2] is above [r1].  The comparison of keys must
    be transitive; the answer owes nothing to the stack. *)
Theorem eblob_key_range_compare_ordered stack1 stack2 k r1 r2 :
  (forall a b c, eblob_id_cmp a b <= 0 -> eblob_id_cmp b c < 0 -> eblob_id_cmp a c < 0) ->
  (forall a b c, eblob_id_cmp a b < 0 -> eblob_id_cmp b c <= 0 -> eblob_id_cmp a c < 0) ->
  (8 <= EBLOB_ID_SIZE)%nat ->
  length k = EBLOB_ID_SIZE ->
  length stack1 = EBLOB_ID_SIZE -> length stack2 = EBLOB_ID_SIZE ->
  eblob_id_cmp (start_key r1) (end_key r1) <= 0 ->
  eblob_id_cmp (end_key r1) (start_key r2) < 0 ->
  (eblob_key_range_compare_original_id_mod EBLOB_ID_SIZE eblob_id_cmp stack1 k r1 <= 0 ->
   eblob_key_range_compare_original_id_mod EBLOB_ID_SIZE eblob_id_cmp stack2 k r2 = -1)
  /\ (0 <= eblob_key_range_compare_original_id_mod EBLOB_ID_SIZE eblob_id_cmp stack2 k r2 ->
      eblob_key_range_compare_original_id_mod EBLOB_ID_SIZE eblob_id_cmp stack1 k r1 = 1).
Proof.
  intros Htrans Htrans' Hsz Hk Hs1 Hs2 Hwf Hlt.
  unfold eblob_key_range_compare_original_id_mod.
  rewrite !original_id_reorder_eq by assumption.
  set (key := skipn 8 k ++ firstn 8 k).
  pose proof (Htrans key (end_key r1) (start_key r2)) as T.
  pose proof (Htrans' key (start_key r1) (end_key r1)) as T'.
  destruct (Z.ltb_spec (eblob_id_cmp key (start_key r1)) 0);
    destruct (Z.ltb_spec 0 (eblob_id_cmp key (end_key r1)));
    destruct (Z.ltb_spec (eblob_id_cmp key (start_key r2)) 0);
    destruct (Z.ltb_spec 0 (eblob_id_cmp key (end_key r2)));
    split; intros; try reflexivity; try lia.
Qed.

End OriginalIdFacts.

(** The byte-wise comparison is transitive. *)
Lemma bytewise_cmp_trans a : forall b c,
  (bytewise_cmp a b <= 0 -> bytewise_cmp b c < 0 -> bytewise_cmp a c < 0)
  /\ (bytewise_cmp a b < 0 -> bytewise_cmp b c <= 0 -> bytewise_cmp a c < 0).
Proof.
  induction a as [ | x a IH]; intros [ | y b] [ | z c]; simpl; try lia.
  specialize (IH b c).
  destruct (Z.ltb_spec (byte.unsigned x) (byte.unsigned y));
    destruct (Z.ltb_spec (byte.unsigned y) (byte.unsigned x));
    destruct (Z.ltb_spec (byte.unsigned y) (byte.unsigned z));
    destruct (Z.ltb_spec (byte.unsigned z) (byte.unsigned y));
    destruct (Z.ltb_spec (byte.unsigned x) (byte.unsigned z));
    destruct (Z.ltb_spec (byte.unsigned z) (byte.unsigned x));
    try lia; exact IH.
Qed.

(** ** Frames *)

Lemma untouched_refl m : untouched m m.
Proof. unfold untouched. auto. Qed.

Lemma untouched_trans m1 m2 m3 : untouched m1 m2 -> untouched m2 m3 -> untouched m1 m3.
Proof. unfold untouched. intros (? & ? & ? & ?) (? & ? & ? & ?). repeat split; congruence. Qed.

Lemma same_file_refl m : same_file m m.
Proof. reflexivity. Qed.

Lemma same_file_trans m1 m2 m3 : same_file m1 m2 -> same_file m2 m3 -> same_file m1 m3.
Proof. unfold same_file. congruence. Qed.

Lemma untouched_same_file m m' : untouched m m' -> same_file m m'.
Proof. intros (_ & H & _). exact H. Qed.

Section Preserves.
Variable R : machine -> machine -> Prop.
Hypothesis R_refl : forall m, R m m.
Hypothesis R_trans : forall m1 m2 m3, R m1 m2 -> R m2 m3 -> R m1 m3.

Lemma preserves_ret {A} (a : A) : preserves R (ret a).
Proof. intros m r m' H. apply ret_inv in H as [_ ->]. apply R_refl. Qed.

Lemma preserves_raise {A} x : preserves R (@raise machine A x).
Proof. intros m r m' H. inversion H. apply R_refl. Qed.

Lemma preserves_get_os : preserves R get_os.
Proof. intros m r m' H. inversion H. apply R_refl. Qed.

Lemma preserves_get_bcfg : preserves R get_bcfg.
Proof. intros m r m' H. inversion H. apply R_refl. Qed.

Lemma preserves_bind {A C} (c : M machine A) (k : A -> M machine C) :
  preserves R c -> (forall a, preserves R (k a)) -> preserves R (bind c k).
Proof.
  intros Hc Hk m r m' H.
  apply bind_inv in H as [(a & m1 & E & H) | [(x & E & _) | (E & _)]].
  - eapply R_trans; [eapply Hc | eapply Hk]; eassumption.
  - eapply Hc; eassumption.
  - eapply Hc; eassumption.
Qed.

End Preserves.

Lemma preserves_weaken {A} (R R' : machine -> machine -> Prop) (c : M machine A) :
  (forall m m', R m m' -> R' m m') -> preserves R c -> preserves R' c.
Proof. intros HR Hc m r m' H. apply HR. eapply Hc. exact H. Qed.

Create HintDb quiet.

Ltac preserves_tac refl trans :=
  repeat first
    [ apply (preserves_ret _ refl) | apply (preserves_raise _ refl)
    | apply (preserves_get_os _ refl) | apply (preserves_get_bcfg _ refl)
    | solve [auto with quiet]
    | apply (preserves_bind _ trans); [ | intros ? ]
    | match goal with
      | |- preserves _ (match ?x with _ => _ end) => destruct x
      | |- preserves _ (let _ := _ in _) => cbv zeta
      end ].

Ltac quiet_tac := preserves_tac untouched_refl untouched_trans.

Lemma quiet_pop_fault : preserves untouched pop_fault.
Proof.
  intros m r m' H. apply pop_fault_inv in H as (? & ? & ? & ? & _). repeat split; assumption.
Qed.

Lemma quiet_fail_with {A} e (a : A) : preserves untouched (fail_with e a).
Proof.
  intros m r m' H. unfold fail_with, get_os, put_os, bind, ret in H. inversion H; subst.
  repeat split.
Qed.
#[local] Hint Resolve quiet_pop_fault quiet_fail_with : quiet.

Lemma quiet_sys_fstat fd : preserves untouched (sys_fstat fd).
Proof. unfold sys_fstat. quiet_tac. Qed.

Lemma quiet_sys_pread fd n off : preserves untouched (sys_pread fd n off).
Proof. unfold sys_pread. quiet_tac. Qed.

Lemma quiet_sys_malloc n : preserves untouched (sys_malloc n).
Proof. unfold sys_malloc. quiet_tac. Qed.

Lemma quiet_fd_call fd : preserves untouched (fd_call fd).
Proof. unfold fd_call. quiet_tac. Qed.

Lemma quiet_binlog_datasync fd : preserves untouched (binlog_datasync fd).
Proof. apply quiet_fd_call. Qed.

Lemma quiet_binlog_sync fd : preserves untouched (binlog_sync fd).
Proof. apply quiet_fd_call. Qed.

Lemma quiet_eblob_pagecache_hint fd : preserves untouched (eblob_pagecache_hint fd).
Proof. apply quiet_fd_call. Qed.

#[local] Hint Resolve quiet_sys_fstat quiet_sys_pread quiet_sys_malloc quiet_fd_call
  quiet_binlog_datasync quiet_binlog_sync quiet_eblob_pagecache_hint : quiet.

(** ** Lists of bytes written and read *)

Lemma length_write_at old off bs :
  length (write_at old off bs) = Nat.max (length old) (off + length bs).
Proof.
  unfold write_at, zeros.
  rewrite !length_app, length_firstn, length_app, repeat_length, length_skipn. lia.
Qed.

(** A read at the place of a write returns what was written. *)
Lemma write_at_same old off bs :
  firstn (length bs) (skipn off (write_at old off bs)) = bs.
Proof.
  unfold write_at, zeros.
  set (pre := firstn off (old ++ repeat x00 (off - length old))).
  assert (Hpre : length pre = off).
  { unfold pre. rewrite length_firstn, length_app, repeat_length. lia. }
  rewrite skipn_app, Hpre, Nat.sub_diag.
  rewrite (skipn_all2 pre) by lia.
  cbn [skipn app].
  rewrite firstn_app, Nat.sub_diag, firstn_all. cbn [firstn]. apply app_nil_r.
Qed.

Lemma firstn_skipn_app_l {A} (l1 l2 : list A) a n :
  (a + n <= length l1)%nat ->
  firstn n (skipn a (l1 ++ l2)) = firstn n (skipn a l1).
Proof.
  intros H. rewrite skipn_app, firstn_app, length_skipn.
  replace (n - (length l1 - a))%nat with 0%nat by lia.
  cbn [firstn]. apply app_nil_r.
Qed.

(** A write leaves what lies before it, inside the file, as it was. *)
Lemma write_at_before old off bs a n :
  (a + n <= off)%nat -> (off <= length old)%nat ->
  firstn n (skipn a (write_at old off bs)) = firstn n (skipn a old).
Proof.
  intros Ha Hoff. unfold write_at, zeros.
  replace (off - length old)%nat with 0%nat by lia.
  cbn [repeat]. rewrite app_nil_r.
  rewrite <- (firstn_skipn off old) at 3.
  rewrite !firstn_skipn_app_l by (rewrite length_firstn; lia).
  reflexivity.
Qed.

Lemma firstn_skipn_add {A} (l : list A) a n k :
  firstn (n + k) (skipn a l) = firstn n (skipn a l) ++ firstn k (skipn (a + n) l).
Proof.
  rewrite <- (firstn_skipn n (skipn a l)) at 1.
  rewrite firstn_app, length_firstn.
  rewrite skipn_skipn.
  destruct (Nat.le_gt_cases n (length (skipn a l))) as [Hle | Hgt].
  - rewrite Nat.min_l by lia.
    rewrite firstn_firstn, Nat.min_r by lia.
    replace (n + k - n)%nat with k by lia.
    replace (n + a)%nat with (a + n)%nat by lia. reflexivity.
  - rewrite Nat.min_r by lia.
    rewrite firstn_firstn, Nat.min_r by lia.
    rewrite (skipn_all2 l (n:=n + a)) by (rewrite length_skipn in Hgt; lia).
    rewrite (skipn_all2 l (n:=a + n)) by (rewrite length_skipn in Hgt; lia).
    rewrite !firstn_nil. reflexivity.
Qed.

(** ** What the system calls do to the file, the descriptors and the lock *)

Lemma transferred_full f (bs : list byte) :
  length (transferred f bs) = length bs -> transferred f bs = bs.
Proof.
  destruct f; simpl; try reflexivity.
  intros H. rewrite length_firstn in H. apply firstn_all2. lia.
Qed.

Lemma sys_pwrite_inv fd bs off m r m' :
  sys_pwrite fd bs off m = (r, m') ->
  bcfg m' = bcfg m /\ w_fds (os m') = w_fds (os m) /\ w_lock (os m') = w_lock (os m)
  /\ exists n, r = Val n
     /\ (n = Z.of_nat (length bs) -> bs <> [] ->
         0 <= off /\ is_open fd (os m') = true
         /\ w_file (os m') = Some (write_at (file_bytes (os m)) (Z.to_nat off) bs)).
Proof.
  intros H. unfold sys_pwrite in H.
  apply bind_inv in H as [(f & m1 & P & H) | [(x & P & ->) | (P & ->)]];
    apply pop_fault_inv in P as (Pc & Pf & Pd & Pl & _ & f' & Pv); try discriminate.
  clear Pv f'.
  assert (Hbytes : file_bytes (os m1) = file_bytes (os m))
    by (unfold file_bytes; rewrite Pf; reflexivity).
  rewrite <- Pc, <- Pd, <- Pl, <- Hbytes.
  unfold fail_with, get_os, put_os, bind, ret in H.
  destruct f as [ | e | k].
  2:{ inversion H; subst; simpl. repeat split. eexists. split; [reflexivity | ]. intros; lia. }
  all: destruct (is_open fd (os m1)) eqn:Hopen;
    [ | inversion H; subst; simpl; repeat split; eexists; (split; [reflexivity | ]); intros; lia ].
  all: destruct (off <? 0) eqn:Hoff;
    [ inversion H; subst; simpl; repeat split; eexists; (split; [reflexivity | ]); intros; lia | ].
  all: apply Z.ltb_ge in Hoff.
  all: match type of H with
       | context [match ?t with _ => _ end] =>
           pose proof (transferred_full _ bs : _ -> t = bs) as Hfull;
           destruct t as [ | b bs'] eqn:Ht
       end.
  all: inversion H; subst; simpl; repeat split; eexists; (split; [reflexivity | ]).
  all: intros Hn Hne.
  1,3: exfalso; apply Hne; destruct bs; [reflexivity | simpl in Hn; lia].
  all: repeat split; try assumption.
  all: rewrite <- Hfull by (apply Nat2Z.inj; exact Hn); reflexivity.
Qed.

Lemma sys_pread_full fd n off m k bs m' :
  sys_pread fd n off m = (Val (k, bs), m') ->
  k = n -> 0 <= n ->
  bs = file_range (os m) off n /\ Z.of_nat (length bs) = n.
Proof.
  intros H Hk Hn. unfold sys_pread in H.
  apply bind_inv in H as [(f & m1 & P & H) | [(x & P & Hx) | (P & Hx)]];
    try discriminate.
  apply pop_fault_inv in P as (Pc & Pf & Pd & Pl & _ & f' & Pv).
  assert (Hbytes : file_bytes (os m1) = file_bytes (os m))
    by (unfold file_bytes; rewrite Pf; reflexivity).
  unfold file_range. rewrite <- Hbytes.
  unfold fail_with, get_os, put_os, bind, ret in H.
  assert (Hmain : forall f0,
             Z.of_nat (length (transferred f0
               (firstn (Z.to_nat n) (skipn (Z.to_nat off) (file_bytes (os m1)))))) = n ->
             transferred f0 (firstn (Z.to_nat n) (skipn (Z.to_nat off) (file_bytes (os m1))))
             = firstn (Z.to_nat n) (skipn (Z.to_nat off) (file_bytes (os m1)))).
  { intros f0 Hlen. apply transferred_full.
    pose proof (transferred_length f0
                  (firstn (Z.to_nat n) (skipn (Z.to_nat off) (file_bytes (os m1))))) as Hle.
    pose proof (firstn_le_length (Z.to_nat n) (skipn (Z.to_nat off) (file_bytes (os m1)))) as Hle2.
    lia. }
  destruct f as [ | e | j];
    try (injection H as H1 H2 H3; lia);
    (destruct (is_open fd (os m1)); [ | injection H as H1 H2 H3; lia ]);
    (destruct (off <? 0); [ injection H as H1 H2 H3; lia | ]);
    injection H as H1 H2 H3.
  - subst bs k. split; [reflexivity | exact Hk].
  - subst k. specialize (Hmain (Partial j) Hk). simpl transferred in *.
    rewrite Hmain in H2, Hk. subst bs. split; [reflexivity | exact Hk].
Qed.

Lemma fresh_fd_above l x : In x l -> x < fresh_fd l.
Proof.
  unfold fresh_fd. induction l as [ | y l IH]; simpl; intros H; [contradiction | ].
  destruct H as [-> | H]; [lia | specialize (IH H); lia].
Qed.

Lemma filter_fresh l : filter (fun x => negb (x =? fresh_fd l)) (fresh_fd l :: l) = l.
Proof.
  simpl. rewrite Z.eqb_refl. simpl.
  apply forallb_filter_id. apply forallb_forall. intros x Hx.
  apply fresh_fd_above in Hx. apply negb_true_iff. apply Z.eqb_neq. lia.
Qed.

Lemma is_open_filter fd l :
  existsb (Z.eqb fd) (filter (fun x => negb (x =? fd)) l) = false.
Proof.
  induction l as [ | y l IH]; simpl; [reflexivity | ].
  destruct (Z.eqb_spec y fd) as [-> | Hne]; simpl; [exact IH | ].
  rewrite IH. destruct (Z.eqb_spec fd y); [congruence | reflexivity].
Qed.

Lemma filter_not_open fd l :
  existsb (Z.eqb fd) l = false -> filter (fun x => negb (x =? fd)) l = l.
Proof.
  induction l as [ | y l IH]; simpl; [reflexivity | ].
  intros H. apply orb_false_iff in H as [H1 H2].
  rewrite Z.eqb_sym, H1. simpl. rewrite IH by exact H2. reflexivity.
Qed.

(** [open]: a failure changes nothing; a success hands out a descriptor
    that was not open, and [O_EXCL] succeeds only where no file was. *)
Lemma sys_open_inv creat sync m r m' :
  sys_open creat sync m = (r, m') ->
  bcfg m' = bcfg m /\ w_lock (os m') = w_lock (os m)
  /\ exists fd, r = Val fd
      /\ ((fd = -1 /\ w_file (os m') = w_file (os m) /\ w_fds (os m') = w_fds (os m))
          \/ (fd = fresh_fd (w_fds (os m)) /\ w_fds (os m') = fd :: w_fds (os m)
              /\ w_file (os m') = Some (file_bytes (os m))
              /\ (creat = true -> w_file (os m) = None)
              /\ (creat = false -> w_file (os m) <> None))).
Proof.
  intros H. unfold sys_open in H. pop_step H.
  assert (Hbytes : file_bytes (os m0) = file_bytes (os m))
    by (unfold file_bytes; rewrite Pf; reflexivity).
  rewrite <- Pc, <- Pl, <- Pf, <- Pd, <- Hbytes.
  unfold fail_with, get_os, put_os, bind, ret in H.
  split_match H; inversion H; subst; simpl; repeat split; eexists;
    (split; [reflexivity | ]);
    first [ left; repeat split; first [reflexivity | assumption]
          | right; repeat split; try reflexivity; intros; congruence ].
Qed.

(** [close]: the descriptor is released, with the lock it held. *)
Lemma sys_close_inv fd m r m' :
  sys_close fd m = (r, m') ->
  bcfg m' = bcfg m /\ w_file (os m') = w_file (os m)
  /\ w_fds (os m') = filter (fun x => negb (x =? fd)) (w_fds (os m))
  /\ is_open fd (os m') = false
  /\ (w_lock (os m') = w_lock (os m)
      \/ (w_lock (os m) = LockedBy fd /\ w_lock (os m') = Unlocked))
  /\ (is_open fd (os m) = true -> w_lock (os m') <> LockedBy fd)
  /\ exists e, r = Val e.
Proof.
  intros H. unfold sys_close in H. pop_step H.
  rewrite <- Pc, <- Pl, <- Pf, <- Pd.
  assert (Ho : is_open fd (os m0) = is_open fd (os m))
    by (unfold is_open; rewrite Pd; reflexivity).
  rewrite <- Ho.
  unfold fail_with, get_os, put_os, bind, ret in H.
  destruct (is_open fd (os m0)) eqn:Hopen.
  - destruct (w_lock (os m0)) as [ | x | ] eqn:Hlock;
      [ | destruct (Z.eqb_spec x fd) as [-> | Hne] | ];
      destruct f; inversion H; subst; simpl; unfold is_open; simpl;
      rewrite ?is_open_filter;
      repeat split; eauto; try (intros _; congruence).
  - unfold is_open in *.
    inversion H; subst; simpl; rewrite ?filter_not_open by exact Hopen;
      repeat split; eauto; try (intros; discriminate).
Qed.

Lemma sys_flock_ex_nb_inv fd m r m' :
  sys_flock_ex_nb fd m = (r, m') ->
  bcfg m' = bcfg m /\ w_file (os m') = w_file (os m) /\ w_fds (os m') = w_fds (os m)
  /\ exists e, r = Val e
      /\ ((e = -1 /\ w_lock (os m') = w_lock (os m))
          \/ (e = 0 /\ w_lock (os m') = LockedBy fd /\ is_open fd (os m') = true)).
Proof.
  intros H. unfold sys_flock_ex_nb in H. pop_step H.
  rewrite <- Pc, <- Pl, <- Pf, <- Pd.
  unfold fail_with, get_os, put_os, bind, ret in H.
  split_match H; inversion H; subst; simpl; repeat split; eexists;
    (split; [reflexivity | ]);
    repeat match goal with
           | E : (_ =? _) = true |- _ => apply Z.eqb_eq in E
           end;
    first [ left; repeat split; congruence
          | right; repeat split; first [congruence | assumption] ].
Qed.

Lemma sys_flock_un_inv fd m r m' :
  sys_flock_un fd m = (r, m') ->
  bcfg m' = bcfg m /\ w_file (os m') = w_file (os m) /\ w_fds (os m') = w_fds (os m)
  /\ (w_lock (os m') = w_lock (os m)
      \/ (w_lock (os m) = LockedBy fd /\ w_lock (os m') = Unlocked))
  /\ exists e, r = Val e.
Proof.
  intros H. unfold sys_flock_un in H. pop_step H.
  rewrite <- Pc, <- Pl, <- Pf, <- Pd.
  unfold fail_with, get_os, put_os, bind, ret in H.
  split_match H; inversion H; subst; simpl;
    repeat match goal with
           | E : (_ =? _) = true |- _ => apply Z.eqb_eq in E
           end;
    (split; [reflexivity | split; [reflexivity | split; [reflexivity | split; [ | eauto ] ] ] ]);
    first [ left; congruence | right; split; congruence ].
Qed.

Lemma sys_ftruncate_inv fd len m r m' :
  sys_ftruncate fd len m = (r, m') ->
  bcfg m' = bcfg m /\ w_fds (os m') = w_fds (os m) /\ w_lock (os m') = w_lock (os m)
  /\ exists e, r = Val e
      /\ ((e = -1 /\ w_file (os m') = w_file (os m))
          \/ (e = 0 /\ w_file (os m') = Some (resize (file_bytes (os m)) (Z.to_nat len)))).
Proof.
  intros H. unfold sys_ftruncate in H. pop_step H.
  assert (Hbytes : file_bytes (os m0) = file_bytes (os m))
    by (unfold file_bytes; rewrite Pf; reflexivity).
  rewrite <- Pc, <- Pl, <- Pf, <- Pd, <- Hbytes.
  unfold fail_with, get_os, put_os, bind, ret in H.
  split_match H; inversion H; subst; simpl; repeat split; eexists;
    (split; [reflexivity | ]);
    first [ left; repeat split; reflexivity
          | right; repeat split; reflexivity ].
Qed.

(** ** What an untouched machine keeps *)

Lemma untouched_file_range m m' off len :
  untouched m m' -> file_range (os m') off len = file_range (os m) off len.
Proof.
  intros (_ & Hf & _). unfold file_range, file_bytes. rewrite Hf. reflexivity.
Qed.

Lemma untouched_file_size m m' : untouched m m' -> file_size (os m') = file_size (os m).
Proof.
  intros (_ & Hf & _). unfold file_size, file_bytes. rewrite Hf. reflexivity.
Qed.

Lemma untouched_is_open m m' fd : untouched m m' -> is_open fd (os m') = is_open fd (os m).
Proof.
  intros (_ & _ & Hd & _). unfold is_open. rewrite Hd. reflexivity.
Qed.

(** ** Growing the file *)

Lemma resize_grow (old : list byte) n :
  (length old <= n)%nat -> resize old n = old ++ zeros (n - length old).
Proof.
  intros H. unfold resize. apply firstn_all2.
  rewrite length_app. unfold zeros. rewrite repeat_length. lia.
Qed.

Lemma skipn_write_at_0 old bs :
  skipn (length bs) (write_at old 0 bs) = skipn (length bs) old.
Proof.
  unfold write_at. cbn [firstn app Nat.add].
  rewrite skipn_app, Nat.sub_diag, skipn_all. reflexivity.
Qed.

Lemma binlog_allocate_inv fd size m r m' :
  _binlog_allocate fd size m = (r, m') ->
  bcfg m' = bcfg m /\ w_fds (os m') = w_fds (os m) /\ w_lock (os m') = w_lock (os m)
  /\ (exists k, file_bytes (os m') = file_bytes (os m) ++ zeros k)
  /\ exists e, r = Val e.
Proof.
  intros H. unfold _binlog_allocate in H. pop_step H.
  assert (Hbytes : file_bytes (os m0) = file_bytes (os m))
    by (unfold file_bytes; rewrite Pf; reflexivity).
  rewrite <- Pc, <- Pl, <- Pd, <- Hbytes.
  unfold fail_with, get_os, put_os, bind, ret in H.
  split_match H; inversion H; subst; simpl;
    (split; [reflexivity | split; [reflexivity | split; [reflexivity | split; [ | eauto ] ] ] ]).
  all: try (exists 0%nat; simpl; rewrite app_nil_r; reflexivity).
  all: match goal with
       | E : (file_size _ <? _) = true |- _ => apply Z.ltb_lt in E; unfold file_size in E
       end.
  all: eexists; unfold file_bytes at 1; simpl; apply resize_grow; lia.
Qed.

(** ** Opening a file that exists *)

Lemma fresh_fd_pos l : 2 < fresh_fd l.
Proof.
  unfold fresh_fd. assert (2 <= fold_right Z.max 2 l) by (induction l; simpl; lia). lia.
Qed.

(** [open] with [O_CREAT | O_EXCL] on a file that exists fails and changes
    nothing; the error is [EEXIST] unless the call itself was made to fail. *)
Lemma sys_open_existing bs sync m r m' :
  w_file (os m) = Some bs ->
  sys_open true sync m = (r, m') ->
  untouched m m' /\ r = Val (-1)
  /\ 0 < w_errno (os m')
  /\ ((forall e, hd Normal (w_script (os m)) <> Fails e) -> w_errno (os m') = EEXIST).
Proof.
  intros Hf H. unfold sys_open, pop_fault, fail_with, get_os, put_os, bind, ret in H.
  destruct m as [c [f d l e s]]. simpl in *. subst f.
  destruct s as [ | [ | x | k] s]; simpl in H; inversion H; subst; simpl;
    unfold untouched; simpl; repeat split; try reflexivity; try lia;
    intros Hs; try reflexivity.
  exfalso. apply (Hs x). reflexivity.
Qed.

(** ** Sizes and descriptors *)

Lemma length_resize (old : list byte) n : length (resize old n) = n.
Proof.
  unfold resize, zeros. rewrite length_firstn, length_app, repeat_length. lia.
Qed.

Lemma sys_fstat_inv fd m st m' :
  sys_fstat fd m = (Val st, m') ->
  fst st = -1 \/ (fst st = 0 /\ snd st = file_size (os m) /\ is_open fd (os m) = true).
Proof.
  intros H. unfold sys_fstat in H. pop_step H.
  assert (Hsize : file_size (os m0) = file_size (os m))
    by (unfold file_size, file_bytes; rewrite Pf; reflexivity).
  assert (Ho : is_open fd (os m0) = is_open fd (os m))
    by (unfold is_open; rewrite Pd; reflexivity).
  rewrite <- Hsize, <- Ho.
  unfold fail_with, get_os, put_os, bind, ret in H.
  split_match H; inversion H; subst; simpl; auto.
Qed.

Lemma same_file_size w w' : w_file w = w_file w' -> file_size w = file_size w'.
Proof. intros H. unfold file_size, file_bytes. rewrite H. reflexivity. Qed.

Lemma same_file_range w w' off len :
  w_file w = w_file w' -> file_range w off len = file_range w' off len.
Proof. intros H. unfold file_range, file_bytes. rewrite H. reflexivity. Qed.

Lemma close_fresh l m r m' :
  sys_close (fresh_fd l) m = (r, m') ->
  w_fds (os m) = fresh_fd l :: l -> w_fds (os m') = l.
Proof.
  intros C Hd. apply sys_close_inv in C as (_ & _ & Cd & _).
  rewrite Cd, Hd. apply filter_fresh.
Qed.

(** ** What keeps the file *)

Lemma same_file_put_bcfg c : preserves same_file (put_bcfg c).
Proof. intros m r m' H. inversion H. reflexivity. Qed.

Lemma same_file_sys_open sync : preserves same_file (sys_open false sync).
Proof.
  intros m r m' H. apply sys_open_inv in H as (_ & _ & fd & _ & [(_ & Hf & _) | (_ & _ & Hf & _ & Hn)]).
  - exact Hf.
  - specialize (Hn eq_refl). unfold same_file. rewrite Hf. unfold file_bytes.
    destruct (w_file (os m)); [reflexivity | contradiction].
Qed.

Lemma same_file_sys_close fd : preserves same_file (sys_close fd).
Proof. intros m r m' H. apply sys_close_inv in H as (_ & Hf & _). exact Hf. Qed.

Lemma same_file_sys_flock_ex_nb fd : preserves same_file (sys_flock_ex_nb fd).
Proof. intros m r m' H. apply sys_flock_ex_nb_inv in H as (_ & Hf & _). exact Hf. Qed.

Lemma same_file_sys_flock_un fd : preserves same_file (sys_flock_un fd).
Proof. intros m r m' H. apply sys_flock_un_inv in H as (_ & Hf & _). exact Hf. Qed.

#[local] Hint Resolve same_file_put_bcfg same_file_sys_open same_file_sys_close
  same_file_sys_flock_ex_nb same_file_sys_flock_un : quiet.
#[local] Hint Extern 5 (preserves same_file _) =>
  apply (preserves_weaken untouched same_file _ untouched_same_file);
  solve [auto with quiet] : quiet.

Ltac keeps_tac :=
  repeat first
    [ apply (preserves_ret _ same_file_refl) | apply (preserves_raise _ same_file_refl)
    | apply (preserves_get_os _ same_file_refl) | apply (preserves_get_bcfg _ same_file_refl)
    | solve [auto with quiet]
    | apply (preserves_bind _ same_file_trans); [ | intros ? ]
    | match goal with
      | |- preserves _ (match ?x with _ => _ end) => destruct x
      | |- preserves _ (let _ := _ in _) => cbv zeta
      end
    | solve [congruence] ].

(** ** Two more calls that set errno *)

Lemma sets_errno_sys_close fd : sets_errno (sys_close fd) (fun n => n).
Proof. intros m n m' H Hn. unfold sys_close in H. pop_step H. errno_crunch H. Qed.

Lemma sets_errno_sys_flock_un fd : sets_errno (sys_flock_un fd) (fun n => n).
Proof. intros m n m' H Hn. unfold sys_flock_un in H. pop_step H. errno_crunch H. Qed.

(** ** Writes one after the other *)

Lemma taken_nil p n : n <= 0 -> taken p n = [].
Proof.
  intros H. unfold taken. destruct p; [ | reflexivity ].
  replace (Z.to_nat n) with 0%nat by lia. reflexivity.
Qed.

(** Two writes, one after the other, are one write. *)
Lemma write_at_app old off (a b : list byte) :
  write_at (write_at old off a) (off + length a) b = write_at old off (a ++ b).
Proof.
  unfold write_at at 1.
  rewrite length_write_at.
  replace (off + length a - Nat.max (length old) (off + length a))%nat with 0%nat by lia.
  cbn [zeros repeat]. rewrite app_nil_r.
  unfold write_at.
  set (pre := firstn off (old ++ zeros (off - length old))).
  assert (Hpre : length pre = off).
  { unfold pre, zeros. rewrite length_firstn, length_app, repeat_length. lia. }
  rewrite (app_assoc pre a).
  rewrite firstn_app.
  rewrite (firstn_all2 (pre ++ a)) by (rewrite length_app; lia).
  rewrite length_app, Hpre.
  replace (off + length a - (off + length a))%nat with 0%nat by lia.
  cbn [firstn]. rewrite app_nil_r.
  rewrite skipn_app.
  rewrite (skipn_all2 (pre ++ a)) by (rewrite length_app; lia).
  rewrite length_app, Hpre. cbn [app].
  rewrite skipn_skipn.
  rewrite length_app, <- !app_assoc.
  do 3 f_equal. f_equal. lia.
Qed.

Lemma firstn_skipn_firstn {A} (l : list A) a n k :
  (a + n <= k)%nat -> firstn n (skipn a (firstn k l)) = firstn n (skipn a l).
Proof.
  intros H.
  destruct (Nat.le_gt_cases k (length l)) as [Hk | Hk].
  - rewrite <- (firstn_skipn k l) at 2.
    rewrite firstn_skipn_app_l by (rewrite length_firstn; lia). reflexivity.
  - rewrite (firstn_all2 (n:=k) l) by lia. reflexivity.
Qed.

(** A write leaves what lies before it, inside the file, as it was. *)
Lemma write_at_prefix old off bs a n :
  (a + n <= off)%nat -> (a + n <= length old)%nat ->
  firstn n (skipn a (write_at old off bs)) = firstn n (skipn a old).
Proof.
  intros Ha Hold. unfold write_at.
  rewrite firstn_skipn_app_l.
  2:{ unfold zeros. rewrite length_firstn, length_app, repeat_length. lia. }
  rewrite firstn_skipn_firstn by exact Ha.
  apply firstn_skipn_app_l. exact Hold.
Qed.

(** ** Runs without faults *)

Lemma calm_refl m : calm m m.
Proof. intros H. exact H. Qed.

Lemma calm_trans m1 m2 m3 : calm m1 m2 -> calm m2 m3 -> calm m1 m3.
Proof. unfold calm. auto. Qed.

Ltac calm_crunch :=
  let H := fresh "H" in
  let Hs := fresh "Hs" in
  intros [cx [fx dx lx ex sx]] r m' H Hs; simpl in Hs; subst sx;
  cbv [sys_pwrite sys_pread sys_malloc fd_call _binlog_allocate binlog_datasync
       pop_fault fail_with get_os put_os bind ret] in H;
  simpl in H; split_match H; inversion H; reflexivity.

Lemma calm_put_bcfg c : preserves calm (put_bcfg c).
Proof. intros m r m' H Hs. inversion H. exact Hs. Qed.

Lemma calm_pop_fault : preserves calm pop_fault.
Proof. calm_crunch. Qed.

Lemma calm_fail_with {A} e (a : A) : preserves calm (fail_with e a).
Proof. calm_crunch. Qed.

Lemma calm_sys_pwrite fd bs off : preserves calm (sys_pwrite fd bs off).
Proof. calm_crunch. Qed.

Lemma calm_binlog_allocate fd size : preserves calm (_binlog_allocate fd size).
Proof. calm_crunch. Qed.

Lemma calm_binlog_datasync fd : preserves calm (binlog_datasync fd).
Proof. calm_crunch. Qed.

#[local] Hint Resolve calm_put_bcfg calm_pop_fault calm_fail_with calm_sys_pwrite
  calm_binlog_allocate calm_binlog_datasync : quiet.

Ltac calm_tac := preserves_tac calm_refl calm_trans.

(** ** What is left of the script *)

Lemma later_refl m : later m m.
Proof. exists 0%nat. reflexivity. Qed.

Lemma later_trans m1 m2 m3 : later m1 m2 -> later m2 m3 -> later m1 m3.
Proof.
  intros [k1 H1] [k2 H2]. exists (k1 + k2)%nat.
  rewrite H2, H1, skipn_skipn. f_equal. lia.
Qed.

Lemma later_calm m m' : later m m' -> calm m m'.
Proof. intros [k H] Hs. rewrite H, Hs. apply skipn_nil. Qed.

Ltac later_crunch :=
  let H := fresh "H" in
  intros [cx [fx dx lx ex sx]] r m' H; destruct sx;
  cbv [sys_open sys_close sys_flock_ex_nb sys_flock_un sys_ftruncate sys_fstat
       sys_pwrite sys_pread sys_malloc fd_call _binlog_allocate binlog_datasync
       binlog_sync eblob_pagecache_hint
       pop_fault fail_with get_os put_os put_bcfg bind ret] in H;
  simpl in H; split_match H; inversion H; subst;
  first [ exists 0%nat; reflexivity | exists 1%nat; reflexivity ].

Lemma later_put_bcfg c : preserves later (put_bcfg c).
Proof. later_crunch. Qed.

Lemma later_pop_fault : preserves later pop_fault.
Proof. later_crunch. Qed.

Lemma later_fail_with {A} e (a : A) : preserves later (fail_with e a).
Proof. later_crunch. Qed.

Lemma later_sys_open a b : preserves later (sys_open a b).
Proof. later_crunch. Qed.

Lemma later_sys_close fd : preserves later (sys_close fd).
Proof. later_crunch. Qed.

Lemma later_sys_flock_ex_nb fd : preserves later (sys_flock_ex_nb fd).
Proof. later_crunch. Qed.

Lemma later_sys_flock_un fd : preserves later (sys_flock_un fd).
Proof. later_crunch. Qed.

Lemma later_sys_ftruncate fd len : preserves later (sys_ftruncate fd len).
Proof. later_crunch. Qed.

Lemma later_sys_fstat fd : preserves later (sys_fstat fd).
Proof. later_crunch. Qed.

Lemma later_sys_pread fd n off : preserves later (sys_pread fd n off).
Proof. later_crunch. Qed.

Lemma later_sys_pwrite fd bs off : preserves later (sys_pwrite fd bs off).
Proof. later_crunch. Qed.

Lemma later_sys_malloc n : preserves later (sys_malloc n).
Proof. later_crunch. Qed.

Lemma later_fd_call fd : preserves later (fd_call fd).
Proof. later_crunch. Qed.

Lemma later_binlog_datasync fd : preserves later (binlog_datasync fd).
Proof. apply later_fd_call. Qed.

Lemma later_eblob_pagecache_hint fd : preserves later (eblob_pagecache_hint fd).
Proof. apply later_fd_call. Qed.

Lemma later_binlog_allocate fd size : preserves later (_binlog_allocate fd size).
Proof. later_crunch. Qed.

#[local] Hint Resolve later_put_bcfg later_pop_fault later_fail_with later_sys_open
  later_sys_close later_sys_flock_ex_nb later_sys_flock_un later_sys_ftruncate
  later_sys_fstat later_sys_pread later_sys_pwrite later_sys_malloc later_fd_call
  later_binlog_datasync later_eblob_pagecache_hint later_binlog_allocate : quiet.

Ltac later_tac := preserves_tac later_refl later_trans.

Lemma length_file_range_full w off len :
  0 <= off -> 0 <= len -> off + len <= file_size w ->
  Z.of_nat (length (file_range w off len)) = len.
Proof.
  intros Hoff Hlen Hin. unfold file_range, file_size in *.
  rewrite length_firstn, length_skipn. lia.
Qed.

Lemma file_range_past w off len :
  0 <= off -> file_size w <= off -> file_range w off len = [].
Proof.
  intros Hoff Hend. unfold file_range, file_size in *.
  rewrite skipn_all2 by lia. apply firstn_nil.
Qed.

(** ** System calls without faults *)

(** Unfolds a system call on a world whose script is empty. *)
Ltac run_os Hs :=
  unfold sys_close, sys_pwrite, sys_pread, sys_fstat, sys_ftruncate, sys_flock_ex_nb,
         sys_malloc, fd_call, pop_fault, fail_with, get_os, put_os, bind, ret;
  cbn [bcfg os]; rewrite Hs; cbn [bcfg os].

(** Brings a machine built by the system calls to its fields. *)
Ltac os_norm :=
  unfold set_file, set_fds, set_lock, set_errno, set_script;
  cbn [bcfg os w_file w_fds w_lock w_errno w_script file_bytes].

Lemma is_open_head fd l w : w_fds w = fd :: l -> is_open fd w = true.
Proof. intros H. unfold is_open. rewrite H. cbn [existsb]. rewrite Z.eqb_refl. reflexivity. Qed.

Lemma sys_open_creates sync c l lk e :
  sys_open true sync (mk_machine c (mk_world None l lk e []))
  = (Val (fresh_fd l), mk_machine c (mk_world (Some []) (fresh_fd l :: l) lk e [])).
Proof. reflexivity. Qed.

Lemma sys_open_opens sync c bs l lk e :
  sys_open false sync (mk_machine c (mk_world (Some bs) l lk e []))
  = (Val (fresh_fd l), mk_machine c (mk_world (Some bs) (fresh_fd l :: l) lk e [])).
Proof. reflexivity. Qed.

Lemma sys_close_fresh c f l e :
  sys_close (fresh_fd l) (mk_machine c (mk_world f (fresh_fd l :: l) Unlocked e []))
  = (Val 0, mk_machine c (mk_world f l Unlocked e [])).
Proof.
  unfold sys_close, pop_fault, get_os, put_os, bind, ret, is_open.
  cbn [bcfg os w_fds w_script w_lock existsb]. rewrite Z.eqb_refl. cbn [orb].
  unfold set_fds. cbn [bcfg os w_fds w_script w_lock w_file w_errno].
  rewrite filter_fresh. reflexivity.
Qed.

Lemma sys_malloc_ok n m :
  w_script (os m) = [] -> 0 <= n -> sys_malloc n m = (Val true, m).
Proof.
  intros Hs Hn. run_os Hs.
  destruct (Z.ltb_spec n 0) as [? | _]; [lia | reflexivity].
Qed.

Lemma fd_call_ok fd m :
  w_script (os m) = [] -> is_open fd (os m) = true -> fd_call fd m = (Val 0, m).
Proof. intros Hs Hopen. run_os Hs. rewrite Hopen. reflexivity. Qed.

Lemma sys_pwrite_all fd b bs off m :
  w_script (os m) = [] -> is_open fd (os m) = true -> 0 <= off ->
  sys_pwrite fd (b :: bs) off m
  = (Val (Z.of_nat (length (b :: bs))),
     mk_machine (bcfg m)
       (set_file (Some (write_at (file_bytes (os m)) (Z.to_nat off) (b :: bs))) (os m))).
Proof.
  intros Hs Hopen Hoff. run_os Hs. rewrite Hopen.
  destruct (Z.ltb_spec off 0) as [? | _]; [lia | reflexivity].
Qed.


Lemma sys_flock_ex_nb_free fd m :
  w_script (os m) = [] -> is_open fd (os m) = true -> w_lock (os m) = Unlocked ->
  sys_flock_ex_nb fd m = (Val 0, mk_machine (bcfg m) (set_lock (LockedBy fd) (os m))).
Proof. intros Hs Hopen Hl. run_os Hs. rewrite Hopen, Hl. reflexivity. Qed.

Lemma sys_ftruncate_to fd len m :
  w_script (os m) = [] -> is_open fd (os m) = true -> 0 <= len ->
  sys_ftruncate fd len m
  = (Val 0, mk_machine (bcfg m)
              (set_file (Some (resize (file_bytes (os m)) (Z.to_nat len))) (os m))).
Proof.
  intros Hs Hopen Hlen. run_os Hs. rewrite Hopen.
  destruct (Z.ltb_spec len 0) as [? | _]; [lia | reflexivity].
Qed.

Lemma sys_fstat_ok fd m :
  w_script (os m) = [] -> is_open fd (os m) = true ->
  sys_fstat fd m = (Val (0, file_size (os m)), m).
Proof. intros Hs Hopen. run_os Hs. rewrite Hopen. reflexivity. Qed.

Lemma sys_pread_ok fd n off m :
  w_script (os m) = [] -> is_open fd (os m) = true -> 0 <= off ->
  sys_pread fd n off m
  = (Val (Z.of_nat (length (file_range (os m) off n)), file_range (os m) off n), m).
Proof.
  intros Hs Hopen Hoff. run_os Hs. rewrite Hopen.
  destruct (Z.ltb_spec off 0) as [? | _]; [lia | reflexivity].
Qed.

Lemma write_at_empty (bs : list byte) : write_at [] 0 bs = bs.
Proof. unfold write_at. simpl. rewrite skipn_nil, app_nil_r. reflexivity. Qed.

Lemma resize_same (f : list byte) : resize f (length f) = f.
Proof.
  unfold resize. rewrite Nat.sub_diag. simpl. rewrite app_nil_r. apply firstn_all.
Qed.

(** ** More on the functions of binlog.c *)

Section MoreFacts.
Context {B : Build}.

#[local] Hint Resolve oscall_io_error oscall_neg_errno oscall_pwrite_buffer : oscall.

(** *** The readers change nothing *)

Lemma quiet_assert e : preserves untouched (assert e).
Proof. unfold assert. quiet_tac. Qed.

Lemma quiet_io_error n : preserves untouched (io_error n).
Proof. unfold io_error. quiet_tac. Qed.

Lemma quiet_neg_errno : preserves untouched neg_errno.
Proof. unfold neg_errno. quiet_tac. Qed.

#[local] Hint Resolve quiet_assert quiet_io_error quiet_neg_errno : quiet.

Lemma quiet_binlog_read_record_hdr off : preserves untouched (binlog_read_record_hdr off).
Proof. unfold binlog_read_record_hdr. quiet_tac. Qed.

Lemma quiet_binlog_read_record_data off size :
  preserves untouched (binlog_read_record_data off size).
Proof. unfold binlog_read_record_data. quiet_tac. Qed.

Lemma quiet_binlog_hdr_read fd : preserves untouched (binlog_hdr_read fd).
Proof. unfold binlog_hdr_read. quiet_tac. Qed.

#[local] Hint Resolve quiet_binlog_read_record_hdr quiet_binlog_read_record_data
  quiet_binlog_hdr_read : quiet.

Lemma quiet_get_next_lsn_loop fuel : forall lsn, preserves untouched (get_next_lsn_loop fuel lsn).
Proof.
  induction fuel as [ | fuel IH]; intros lsn; simpl.
  - intros m r m' H. inversion H. apply untouched_refl.
  - quiet_tac.
Qed.

Lemma quiet_binlog_get_next_lsn : preserves untouched binlog_get_next_lsn.
Proof. unfold binlog_get_next_lsn. quiet_tac. apply quiet_get_next_lsn_loop. Qed.

Lemma quiet_binlog_read b off : preserves untouched (binlog_read b off).
Proof. unfold binlog_read. quiet_tac. Qed.

#[local] Hint Resolve quiet_binlog_get_next_lsn quiet_binlog_read : quiet.

Lemma binlog_verify_record_hdr_ok rhdr :
  binlog_verify_record_hdr rhdr = 0 <->
  EBLOB_BINLOG_TYPE_FIRST < rh_type rhdr < EBLOB_BINLOG_TYPE_LAST /\ rh_flags rhdr = 0.
Proof.
  unfold binlog_verify_record_hdr.
  destruct (Z.leb_spec (rh_type rhdr) EBLOB_BINLOG_TYPE_FIRST);
    destruct (Z.geb_spec (rh_type rhdr) EBLOB_BINLOG_TYPE_LAST);
    simpl; unfold EINVAL;
    try (split; [discriminate | lia]).
  destruct (nez (rh_flags rhdr)) eqn:Hf.
  - apply nez_true in Hf. split; [discriminate | tauto].
  - apply nez_false in Hf. split; [lia | reflexivity].
Qed.

(** The record header that a successful read returns. *)
Lemma binlog_read_record_hdr_ok off m rhdr m' :
  binlog_read_record_hdr off m = (Val (inr rhdr), m') ->
  rhdr = decode_record_hdr (file_range (os m) off sizeof_record_hdr)
  /\ EBLOB_BINLOG_TYPE_FIRST < rh_type rhdr < EBLOB_BINLOG_TYPE_LAST
  /\ rh_flags rhdr = 0
  /\ 0 <= off /\ off + sizeof_record_hdr <= file_size (os m)
  /\ untouched m m'.
Proof.
  intros H. pose proof (quiet_binlog_read_record_hdr _ _ _ _ H) as Hq.
  pose proof (binlog_read_record_hdr_inv _ _ _ _ H) as (_ & _ & Hin & _).
  destruct (Hin rhdr eq_refl) as (Hsz & _ & Hver).
  apply binlog_verify_record_hdr_ok in Hver as [Hty Hfl].
  unfold binlog_read_record_hdr in H.
  step H as c m1 G; by_state G.
  step H as u1 m2 A1; apply assert_inv in A1 as [-> _].
  step H as u2 m3 A2; apply assert_inv in A2 as [-> _].
  step H as p m4 R. destruct p as [k bs]. simpl in H.
  pose proof sizeof_record_hdr_pos as Hpos.
  destruct (neq k sizeof_record_hdr) eqn:Hk.
  { step H as e m5 IO. apply ret_inv in H as [H _]. discriminate. }
  apply neq_false in Hk.
  pose proof (sys_pread_inv _ _ _ _ _ _ R) as (_ & _ & _ & k' & bs' & Rv & Rk).
  injection Rv as <- <-.
  apply sys_pread_full in R as [Rb _]; [ | exact Hk | lia ].
  destruct (nez (binlog_verify_record_hdr (decode_record_hdr bs)));
    apply ret_inv in H as [H _]; [discriminate | ].
  injection H as Hh. subst bs.
  split; [first [exact Hh | symmetry; exact Hh] | ].
  split; [exact Hty | ]. split; [exact Hfl | ].
  split; [lia | ]. split; [lia | exact Hq].
Qed.

(** X4.  A record header is returned only if it is the one stored at the
    offset, lies inside the file and passes the check; reading changes
    nothing but [errno]. *)
Theorem binlog_read_record_hdr_success off m rhdr m' :
  binlog_read_record_hdr off m = (Val (inr rhdr), m') ->
  rhdr = decode_record_hdr (file_range (os m) off sizeof_record_hdr)
  /\ EBLOB_BINLOG_TYPE_FIRST < rh_type rhdr < EBLOB_BINLOG_TYPE_LAST
  /\ rh_flags rhdr = 0
  /\ 0 <= off /\ off + sizeof_record_hdr <= file_size (os m)
  /\ untouched m m'.
Proof. exact (binlog_read_record_hdr_ok off m rhdr m'). Qed.

(** The payload buffer that a successful read returns. *)
Lemma binlog_read_record_data_ok off size m bs m' :
  binlog_read_record_data off size m = (Val (Some bs), m') ->
  0 <= size
  /\ (NDEBUG = false -> 0 < size)
  /\ bs = file_range (os m) off size /\ Z.of_nat (length bs) = size /\ untouched m m'.
Proof.
  intros H. pose proof (quiet_binlog_read_record_data _ _ _ _ _ H) as Hq.
  unfold binlog_read_record_data in H.
  step H as c m1 G; by_state G.
  step H as u1 m2 A1; apply assert_inv in A1 as [-> _].
  step H as u2 m3 A2; apply assert_inv in A2 as [-> _].
  step H as u3 m4 A3; apply assert_inv in A3 as [-> A3].
  assert (Hpos : NDEBUG = false -> 0 < size).
  { intros Hnd. destruct A3 as [[A3 _] | (_ & _ & A3)]; [ | discriminate ].
    rewrite Hnd in A3. simpl in A3. apply Z.ltb_lt. exact A3. }
  clear A3.
  step H as ok m5 Ma. pose proof (quiet_sys_malloc _ _ _ _ Ma) as Hm.
  assert (Hsize : ok = true -> 0 <= size).
  { intros ->. unfold sys_malloc, pop_fault, fail_with, get_os, put_os, bind, ret in Ma.
    destruct (Z.ltb_spec size 0) as [Hneg | Hok]; [ | exact Hok ].
    split_match Ma; inversion Ma. }
  destruct ok; simpl in H; [ | apply ret_inv in H as [H _]; discriminate ].
  specialize (Hsize eq_refl).
  step H as p m6 R. destruct p as [k bs']. simpl in H.
  destruct (neq k size) eqn:Hk; apply ret_inv in H as [H _]; [discriminate | ].
  injection H as <-. apply neq_false in Hk.
  apply sys_pread_full in R as [Rb Rl]; [ | exact Hk | exact Hsize ].
  rewrite (untouched_file_range _ _ _ _ Hm) in Rb.
  split; [exact Hsize | ]. split; [exact Hpos | ].
  split; [exact Rb | split; [exact Rl | exact Hq] ].
Qed.

(** X5.  The payload buffer, when one is returned, holds exactly the [size]
    bytes stored at the offset; reading changes nothing but [errno]. *)
Theorem binlog_read_record_data_success off size m bs m' :
  0 < size ->
  binlog_read_record_data off size m = (Val (Some bs), m') ->
  bs = file_range (os m) off size /\ Z.of_nat (length bs) = size /\ untouched m m'.
Proof.
  intros _ H. apply binlog_read_record_data_ok in H as (_ & _ & H). exact H.
Qed.

(** The descriptor that a successful [binlog_read] fills. *)
Lemma binlog_read_ok b off m d m' :
  binlog_read (Some b) off m = (Val (0, Some d), m') ->
  let rhdr := decode_record_hdr (file_range (os m) off sizeof_record_hdr) in
  let size := to_ssize_t (rh_size rhdr) in
  let payload := file_range (os m) (to_off_t (off + sizeof_record_hdr)) size in
  EBLOB_BINLOG_TYPE_FIRST < rh_type rhdr < EBLOB_BINLOG_TYPE_LAST
  /\ rh_flags rhdr = 0
  /\ ctl_type d = rh_type rhdr
  /\ ctl_flags d = rh_flags rhdr
  /\ ctl_key d = Some (rh_key rhdr)
  /\ ctl_meta_size d = to_ssize_t (rh_meta_size rhdr)
  /\ ctl_size d = to_ssize_t (rh_size rhdr - rh_meta_size rhdr)
  /\ (rh_size rhdr <> 0 ->
      0 <= size /\ (NDEBUG = false -> 0 < size) /\ Z.of_nat (length payload) = size)
  /\ (rh_size rhdr <> 0 -> 0 < ctl_meta_size d -> ctl_meta d = Some payload)
  /\ (rh_size rhdr <> 0 -> 0 < ctl_size d -> 0 <= ctl_meta_size d <= size ->
      ctl_data d = Some (skipn (Z.to_nat (ctl_meta_size d)) payload))
  /\ untouched m m'.
Proof.
  intros H. pose proof (quiet_binlog_read _ _ _ _ _ H) as Hq.
  cbv zeta. unfold binlog_read in H.
  destruct (ctl_cfg b).
  { apply ret_inv in H as [H _]. discriminate. }
  step H as u m1 A; apply assert_inv in A as [-> _].
  step H as hr m2 R.
  destruct hr as [err | rhdr].
  { apply binlog_read_record_hdr_error in R.
    apply ret_inv in H as [H _]. injection H as H _. congruence. }
  apply binlog_read_record_hdr_ok in R as (Hh & Hty & Hfl & Hoff & Hin & Hu).
  rewrite <- Hh.
  unfold nez in H.
  destruct (Z.eqb_spec (rh_size rhdr) 0) as [Hz | Hnz]; simpl in H.
  - step H as data m3 D. apply ret_inv in D as [D _]. injection D as D. subst data.
    destruct (ctl_key b); [ | discriminate ].
    apply ret_inv in H as [H _]. injection H as H. subst d.
    unfold fill_ctl. simpl.
    split; [exact Hty | ]. split; [exact Hfl | ].
    repeat split; try assumption; try apply Hq; intros; contradiction.
  - step H as data m3 D.
    destruct data as [bs | ]; [ | apply ret_inv in H as [H _]; discriminate ].
    apply binlog_read_record_data_ok in D as (Dsize & Dpos & Db & Dl & _).
    rewrite (untouched_file_range _ _ _ _ Hu) in Db. subst bs.
    destruct (ctl_key b); [ | discriminate ].
    apply ret_inv in H as [H _]. injection H as H. subst d.
    unfold fill_ctl. simpl.
    split; [exact Hty | ]. split; [exact Hfl | ].
    repeat split; try assumption; try apply Hq.
    + intros _ Hm. destruct (Z.ltb_spec 0 (to_ssize_t (rh_meta_size rhdr))); [reflexivity | lia].
    + intros _ Hs _.
      destruct (Z.ltb_spec 0 (to_ssize_t (rh_size rhdr - rh_meta_size rhdr)));
        [reflexivity | lia].
Qed.

(** X6.  What a successful [binlog_read] hands back: type, flags and key of the
    header stored at the offset, which passed the check; the header's
    sizes brought to [ssize_t]: [meta_size], and [size - meta_size]
    computed in 64 bits; as metadata the payload buffer, which holds the
    [size] bytes stored after the header; as data that buffer from
    [meta_size] bytes on, where that lies inside the buffer.  Nothing but
    [errno] is changed. *)
Theorem binlog_read_success b off m d m' :
  binlog_read (Some b) off m = (Val (0, Some d), m') ->
  let rhdr := decode_record_hdr (file_range (os m) off sizeof_record_hdr) in
  let size := to_ssize_t (rh_size rhdr) in
  let payload := file_range (os m) (to_off_t (off + sizeof_record_hdr)) size in
  EBLOB_BINLOG_TYPE_FIRST < rh_type rhdr < EBLOB_BINLOG_TYPE_LAST
  /\ rh_flags rhdr = 0
  /\ ctl_type d = rh_type rhdr
  /\ ctl_flags d = rh_flags rhdr
  /\ ctl_key d = Some (rh_key rhdr)
  /\ ctl_meta_size d = to_ssize_t (rh_meta_size rhdr)
  /\ ctl_size d = to_ssize_t (rh_size rhdr - rh_meta_size rhdr)
  /\ (rh_size rhdr <> 0 ->
      0 <= size /\ (NDEBUG = false -> 0 < size) /\ Z.of_nat (length payload) = size)
  /\ (rh_size rhdr <> 0 -> 0 < ctl_meta_size d -> ctl_meta d = Some payload)
  /\ (rh_size rhdr <> 0 -> 0 < ctl_size d -> 0 <= ctl_meta_size d <= size ->
      ctl_data d = Some (skipn (Z.to_nat (ctl_meta_size d)) payload))
  /\ untouched m m'.
Proof. exact (binlog_read_ok b off m d m'). Qed.

(** *** The extension and the disk header *)

(** [binlog_extend] leaves the descriptors and the lock alone; the file
    keeps its bytes and may get zeros after them. *)
Lemma binlog_extend_frame fd m r m' :
  binlog_extend fd m = (r, m') ->
  w_fds (os m') = w_fds (os m) /\ w_lock (os m') = w_lock (os m)
  /\ exists k, file_bytes (os m') = file_bytes (os m) ++ zeros k
       /\ (nez (Z.land (cfg_flags (bcfg m)) EBLOB_BINLOG_FLAGS_CFG_PREALLOC) = false ->
           k = 0%nat).
Proof.
  unfold binlog_extend. intros H.
  step H as c m1 E; by_state E.
  destruct (nez (Z.land (cfg_flags (bcfg m1)) EBLOB_BINLOG_FLAGS_CFG_PREALLOC)).
  - step H as u m2 E; by_state E.
    step H as c m3 E; by_state E.
    simpl in H.
    step H as err m4 E;
      apply binlog_allocate_inv in E as (_ & Ed & El & (k & Ek) & e & Ev); try discriminate.
    simpl in Ed, El, Ek.
    destruct (nez err); apply ret_inv in H as [_ ->];
      (split; [exact Ed | split; [exact El | ] ]);
      exists k; (split; [exact Ek | discriminate]).
  - apply ret_inv in H as [_ ->]. repeat split. exists 0%nat.
    split; [simpl; rewrite app_nil_r; reflexivity | reflexivity].
Qed.

(** What a call of [binlog_hdr_write] leaves, and what its success means. *)
Lemma binlog_hdr_write_inv fd d m r m' :
  binlog_hdr_write fd d m = (r, m') ->
  bcfg m' = bcfg m /\ w_fds (os m') = w_fds (os m) /\ w_lock (os m') = w_lock (os m)
  /\ (r = Val 0 ->
      exists h, d = Some h /\ 0 <= fd /\ is_open fd (os m') = true
        /\ (NDEBUG = false -> binlog_verify_hdr h = 0)
        /\ w_file (os m') = Some (write_at (file_bytes (os m)) 0 (encode_disk_hdr h))).
Proof.
  unfold binlog_hdr_write. intros H.
  destruct d as [h | ].
  2:{ apply ret_inv in H as [-> ->]. repeat split. intros Hr. discriminate. }
  destruct (Z.ltb_spec fd 0) as [Hfd | Hfd].
  { apply ret_inv in H as [-> ->]. repeat split. intros Hr. discriminate. }
  step H as u m1 A; apply assert_inv in A as [-> A].
  2,3: repeat split; intros; discriminate.
  assert (Hver : NDEBUG = false -> binlog_verify_hdr h = 0).
  { intros Hn. destruct A as [[A _] | (_ & _ & A)]; [ | discriminate ].
    rewrite Hn in A. simpl in A. apply Z.eqb_eq. exact A. }
  clear A.
  step H as n m2 W.
  2,3: apply sys_pwrite_inv in W as (? & ? & ? & ? & ? & _); discriminate.
  pose proof (sets_errno_sys_pwrite _ _ _ _ _ _ W) as Herrno.
  apply sys_pwrite_inv in W as (Wc & Wd & Wl & n' & Wv & Wok).
  injection Wv as <-.
  pose proof (encode_disk_hdr_length h) as Hlen.
  pose proof sizeof_disk_hdr_pos as Hpos.
  destruct (neq n sizeof_disk_hdr) eqn:Hn.
  { pose proof (io_error_inv _ _ _ _ H) as [-> [e He]]. subst r.
    apply io_error_nonzero in H as [Hnz _]; [ | exact Herrno ].
    repeat split; try assumption. intros Hr. injection Hr as Hr. contradiction. }
  apply neq_false in Hn.
  destruct Wok as (_ & Wopen & Wfile).
  { lia. }
  { intros Hnil. rewrite Hnil in Hlen. simpl in Hlen. lia. }
  step H as err m3 D.
  2,3: by_oscall D.
  pose proof (quiet_binlog_datasync _ _ _ _ D) as (Dc & Df & Dd & Dl).
  assert (Hopen : is_open fd (os m3) = true).
  { unfold is_open in *. rewrite Dd. exact Wopen. }
  destruct (nez err) eqn:Herr; apply ret_inv in H as [-> ->].
  - apply nez_true in Herr.
    split; [congruence | split; [congruence | split; [congruence | ] ] ].
    intros Hr. injection Hr as Hr. contradiction.
  - split; [congruence | split; [congruence | split; [congruence | ] ] ].
    intros _. exists h. repeat split; try assumption. rewrite Df. exact Wfile.
Qed.

(** A disk header is returned only if it is the one stored at the start of
    the file and passes the check; reading changes nothing but [errno]. *)
Lemma binlog_hdr_read_ok fd m d m' :
  binlog_hdr_read fd m = (Val (inr d), m') ->
  d = decode_disk_hdr (file_range (os m) 0 sizeof_disk_hdr)
  /\ binlog_verify_hdr d = 0
  /\ sizeof_disk_hdr <= file_size (os m)
  /\ untouched m m'.
Proof.
  intros H. pose proof (quiet_binlog_hdr_read _ _ _ _ H) as Hq.
  unfold binlog_hdr_read in H.
  step H as u m1 A; apply assert_inv in A as [-> _].
  step H as ok m2 Ma. pose proof (quiet_sys_malloc _ _ _ _ Ma) as Hm.
  destruct ok; simpl in H; [ | apply ret_inv in H as [H _]; discriminate ].
  step H as p m3 R. destruct p as [k bs]. simpl in H.
  pose proof sizeof_disk_hdr_pos as Hpos.
  destruct (neq k sizeof_disk_hdr) eqn:Hk.
  { step H as e m4 IO. apply ret_inv in H as [H _]. discriminate. }
  apply neq_false in Hk.
  pose proof (sys_pread_inv _ _ _ _ _ _ R) as (_ & _ & _ & k' & bs' & Rv & Rk).
  injection Rv as <- <-.
  apply sys_pread_full in R as [Rb _]; [ | exact Hk | lia ].
  rewrite (untouched_file_range _ _ _ _ Hm) in Rb.
  rewrite (untouched_file_size _ _ Hm) in Rk.
  destruct (nez (binlog_verify_hdr (decode_disk_hdr bs))) eqn:Hv;
    apply ret_inv in H as [H _]; [discriminate | ].
  injection H as Hh. apply nez_false in Hv. subst bs.
  split; [first [exact Hh | symmetry; exact Hh] | ].
  split; [first [rewrite <- Hh | rewrite Hh]; exact Hv | ].
  split; [lia | exact Hq].
Qed.

(** X7.  The disk header read back after a successful [binlog_hdr_write] is the
    decoding of the header written, which is at the start of the file; what
    the file held past the header is as before, and so is the handle. *)
Theorem binlog_hdr_write_read fd d m m1 d' m2 :
  binlog_hdr_write fd (Some d) m = (Val 0, m1) ->
  binlog_hdr_read fd m1 = (Val (inr d'), m2) ->
  d' = decode_disk_hdr (encode_disk_hdr d)
  /\ file_range (os m2) 0 sizeof_disk_hdr = encode_disk_hdr d
  /\ skipn (Z.to_nat sizeof_disk_hdr) (file_bytes (os m2))
     = skipn (Z.to_nat sizeof_disk_hdr) (file_bytes (os m))
  /\ bcfg m2 = bcfg m.
Proof.
  intros W R.
  apply binlog_hdr_write_inv in W as (Wc & _ & _ & W).
  destruct (W eq_refl) as (h & Hh & _ & _ & _ & Wf). injection Hh as <-.
  apply binlog_hdr_read_ok in R as (Rd & _ & _ & Ru).
  pose proof (encode_disk_hdr_length d) as Hlen.
  assert (Hn : Z.to_nat sizeof_disk_hdr = length (encode_disk_hdr d)) by lia.
  assert (Hb : file_bytes (os m1) = write_at (file_bytes (os m)) 0 (encode_disk_hdr d))
    by (unfold file_bytes at 1; rewrite Wf; reflexivity).
  assert (Hr : file_range (os m1) 0 sizeof_disk_hdr = encode_disk_hdr d).
  { unfold file_range. rewrite Hb, Hn. apply (write_at_same _ 0%nat). }
  split; [rewrite Rd, Hr; reflexivity | ].
  split; [rewrite (untouched_file_range _ _ _ _ Ru); exact Hr | ].
  split.
  - destruct Ru as (_ & Rf & _). unfold file_bytes at 1. rewrite Rf.
    fold (file_bytes (os m1)). rewrite Hb, Hn. apply skipn_write_at_0.
  - destruct Ru as (Rc & _). congruence.
Qed.

(** *** Creation *)

Lemma binlog_create_existing bs m r m' :
  w_file (os m) = Some bs ->
  binlog_create m = (r, m') ->
  untouched m m'
  /\ exists err, r = Val err /\ err <> 0
     /\ ((forall e, hd Normal (w_script (os m)) <> Fails e) -> err = - EEXIST).
Proof.
  intros Hf H. unfold binlog_create in H.
  step H as fd m1 O;
    apply (sys_open_existing _ _ _ _ _ Hf) in O as (Ou & Ov & Oe & Ox); try discriminate.
  injection Ov as ->. simpl in H.
  apply neg_errno_inv in H as [-> ->].
  split; [exact Ou | ].
  eexists. split; [reflexivity | ]. split; [lia | ].
  intros Hs. rewrite (Ox Hs). reflexivity.
Qed.

(** What [binlog_create] leaves behind when it creates the file. *)
Lemma binlog_create_inv m r m' :
  binlog_create m = (r, m') ->
  (bcfg m' = bcfg m \/ bcfg m' = extended (bcfg m))
  /\ (forall err, r = Val err -> w_fds (os m') = w_fds (os m))
  /\ (r = Val 0 ->
      w_file (os m) = None /\ bcfg m' = extended (bcfg m)
      /\ file_range (os m') 0 sizeof_disk_hdr
         = encode_disk_hdr (mk_dhdr fresh_magic EBLOB_BINLOG_VERSION (cfg_flags (bcfg m)))).
Proof.
  intros H. unfold binlog_create in H.
  step H as fd m1 O.
  2,3: apply sys_open_inv in O as (_ & _ & ? & ? & _); discriminate.
  pose proof (sets_errno_sys_open _ _ _ _ _ O) as Herrno. simpl in Herrno.
  apply sys_open_inv in O as (Oc & Ol & fd' & Ov & O). injection Ov as <-.
  destruct (Z.eqb_spec fd (-1)) as [Hfd | Hfd].
  { apply neg_errno_inv in H as [-> ->]. specialize (Herrno Hfd).
    destruct O as [(_ & Of & Od) | (Ofd & _)]; [ | pose proof (fresh_fd_pos (w_fds (os m))); lia ].
    split; [left; exact Oc | ]. split; [intros; exact Od | ].
    intros Hr. injection Hr as Hr. lia. }
  destruct O as [(? & _) | (Ofd & Od & Of & Onone & _)]; [contradiction | ].
  specialize (Onone eq_refl).
  assert (Hclose : forall mm r1 m2,
             w_fds (os mm) = w_fds (os m1) ->
             sys_close fd mm = (r1, m2) ->
             bcfg m2 = bcfg mm /\ w_file (os m2) = w_file (os mm)
             /\ w_fds (os m2) = w_fds (os m) /\ exists e, r1 = Val e).
  { intros mm r1 m2 Hd C.
    apply sys_close_inv in C as (Cc & Cf & Cd & _ & _ & _ & Cv).
    repeat split; try assumption.
    rewrite Cd, Hd, Od, Ofd. apply filter_fresh. }
  step H as err m2 X.
  2,3: apply binlog_extend_inv in X as [_ [? ?]]; discriminate.
  pose proof (binlog_extend_frame _ _ _ _ X) as (Xd & _ & k & Xk & _).
  apply binlog_extend_inv in X as [Xc _]. rewrite Oc in Xc.
  destruct (nez err) eqn:Herr.
  { apply nez_true in Herr.
    step H as e m3 C; apply (Hclose _ _ _ Xd) in C as (Cc & _ & Cd & e' & Cv); try discriminate.
    apply ret_inv in H as [-> ->].
    split; [right; congruence | ]. split; [intros; exact Cd | ].
    intros Hr. injection Hr as Hr. contradiction. }
  step H as c m3 G; by_state G.
  step H as e1 m4 W.
  2,3: apply binlog_hdr_write_inv in W as (Wc & _);
       (split; [right; congruence | split; intros; discriminate ]).
  apply binlog_hdr_write_inv in W as (Wc & Wd & _ & W).
  assert (Wd' : w_fds (os m4) = w_fds (os m1)) by congruence.
  step H as e m5 C; apply (Hclose _ _ _ Wd') in C as (Cc & Cf & Cd & e' & Cv); try discriminate.
  apply ret_inv in H as [-> ->].
  split; [right; congruence | ]. split; [intros; exact Cd | ].
  intros Hr. injection Hr as ->.
  destruct (W eq_refl) as (h & Hh & _ & _ & _ & Wf). injection Hh as <-.
  split; [exact Onone | ]. split; [congruence | ].
  rewrite Xc, extended_flags in Wf.
  unfold file_range, file_bytes at 1. rewrite Cf, Wf.
  pose proof (encode_disk_hdr_length
                (mk_dhdr fresh_magic EBLOB_BINLOG_VERSION (cfg_flags (bcfg m)))) as Hlen.
  replace (Z.to_nat sizeof_disk_hdr)
    with (length (encode_disk_hdr
                    (mk_dhdr fresh_magic EBLOB_BINLOG_VERSION (cfg_flags (bcfg m))))) by lia.
  apply (write_at_same _ 0%nat).
Qed.

(** X8.  [binlog_create] on a file that exists returns an error, [-EEXIST]
    unless [open] itself was made to fail, and changes nothing: not the
    file, not the descriptors, not the handle. *)
Theorem binlog_create_existing_file bs m r m' :
  w_file (os m) = Some bs ->
  binlog_create m = (r, m') ->
  w_file (os m') = Some bs /\ w_fds (os m') = w_fds (os m) /\ bcfg m' = bcfg m
  /\ exists err, r = Val err /\ err <> 0
     /\ ((forall e, hd Normal (w_script (os m)) <> Fails e) -> err = - EEXIST).
Proof.
  intros Hf H. apply (binlog_create_existing _ _ _ _ Hf) in H as ((Uc & Uf & Ud & _) & Hr).
  split; [congruence | ]. split; [exact Ud | ]. split; [exact Uc | exact Hr].
Qed.

(** X9.  [binlog_create] returns 0 only where there was no file; the file then
    starts with the encoding of a fresh header: the magic, the current
    version, the flags of the handle.  The handle is changed by the
    extension step only. *)
Theorem binlog_create_success m m' :
  binlog_create m = (Val 0, m') ->
  w_file (os m) = None
  /\ file_range (os m') 0 sizeof_disk_hdr
     = encode_disk_hdr (mk_dhdr fresh_magic EBLOB_BINLOG_VERSION (cfg_flags (bcfg m)))
  /\ bcfg m' = extended (bcfg m).
Proof.
  intros H. apply binlog_create_inv in H as (_ & _ & H).
  destruct (H eq_refl) as (Hn & Hc & Hr). auto.
Qed.

(** X10.  Whatever [binlog_create] returns, the descriptor it opened is closed
    again: the set of open descriptors is as before. *)
Theorem binlog_create_no_leak m err m' :
  binlog_create m = (Val err, m') -> w_fds (os m') = w_fds (os m).
Proof.
  intros H. apply binlog_create_inv in H as (_ & H & _). apply (H err eq_refl).
Qed.

Lemma extended_step c : cfg_prealloc_step (extended c) = cfg_prealloc_step c.
Proof. unfold extended. destruct (nez _); reflexivity. Qed.

(** *** The scan *)

(** *** Opening *)

(** What a successful [binlog_open] leaves. *)
Lemma binlog_open_ok m m' :
  binlog_open HANDLE m = (Val 0, m') ->
  let fd := fresh_fd (w_fds (os m)) in
  let dhdr := decode_disk_hdr (file_range (os m') 0 sizeof_disk_hdr) in
  cfg_fd (bcfg m') = fd
  /\ w_fds (os m') = fd :: w_fds (os m)
  /\ w_lock (os m') = LockedBy fd
  /\ cfg_disk_hdr (bcfg m') = Some dhdr
  /\ binlog_verify_hdr dhdr = 0
  /\ sizeof_disk_hdr <= file_size (os m')
  /\ cfg_prealloc_size (bcfg m') = file_size (os m')
  /\ (NDEBUG = false -> 0 < cfg_binlog_position (bcfg m'))
  /\ cfg_flags (bcfg m') = cfg_flags (bcfg m)
  /\ cfg_prealloc_step (bcfg m') = cfg_prealloc_step (bcfg m)
  /\ (file_size (os m') < sizeof_disk_hdr + sizeof_record_hdr ->
      cfg_binlog_position (bcfg m') = sizeof_disk_hdr)
  /\ (nez (Z.land (cfg_flags (bcfg m)) EBLOB_BINLOG_FLAGS_CFG_TRUNCATE) = true ->
      file_size (os m') = sizeof_disk_hdr).
Proof.
  unfold binlog_open. intros H.
  step H as c m1 G; by_state G.
  step H as u1 m2 A; apply assert_inv in A as [-> A]. clear A.
  step H as err m2 Cr.
  apply binlog_create_inv in Cr as (Cc & Cd & _). specialize (Cd err eq_refl).
  assert (Cflags : cfg_flags (bcfg m2) = cfg_flags (bcfg m1))
    by (destruct Cc as [-> | ->]; [reflexivity | apply extended_flags]).
  assert (Cstep : cfg_prealloc_step (bcfg m2) = cfg_prealloc_step (bcfg m1))
    by (destruct Cc as [-> | ->]; [reflexivity | apply extended_step]).
  clear Cc.
  destruct (nez err && neq err (- EEXIST)) eqn:Hc.
  { apply ret_inv in H as [Hv ->]. apply andb_true_iff in Hc as [Hc _].
    apply nez_true in Hc. congruence. }
  clear Hc.
  step H as c1 m3 G; by_state G.
  step H as fd m4 O.
  pose proof (sets_errno_sys_open _ _ _ _ _ O) as Ho. simpl in Ho.
  apply sys_open_inv in O as (Oc & Ol & fd' & Ov & O). injection Ov as <-.
  destruct (Z.eqb_spec fd (-1)) as [Hfd | Hfd].
  { apply neg_errno_inv in H as [-> Hv]. specialize (Ho Hfd).
    assert (- w_errno (os m4) <> 0) by lia. congruence. }
  clear Ho.
  destruct O as [(? & _) | (Ofd & Od & _)]; [contradiction | ].
  rewrite Cd in Ofd, Od.
  step H as e1 m5 L.
  pose proof (sets_errno_sys_flock_ex_nb _ _ _ _ L) as Hl. simpl in Hl.
  apply sys_flock_ex_nb_inv in L as (Lc & Lf & Ld & e1' & Lv & L). injection Lv as <-.
  destruct (Z.eqb_spec e1 (-1)) as [He1 | He1].
  { step H as e2 m6 N; apply neg_errno_inv in N as [-> N].
    injection N as ->.
    step H as e3 m7 C.
    apply ret_inv in H as [Hv ->]. specialize (Hl He1).
    assert (- w_errno (os m5) <> 0) by lia. congruence. }
  clear Hl.
  destruct L as [(? & _) | (_ & Ll & _)]; [contradiction | ].
  step H as e2 m6 T.
  assert (Ht : (e2 = -1 -> 0 < w_errno (os m6))
               /\ bcfg m6 = bcfg m5 /\ w_fds (os m6) = w_fds (os m5)
               /\ w_lock (os m6) = w_lock (os m5)
               /\ (e2 <> -1 ->
                   nez (Z.land (cfg_flags (bcfg m3)) EBLOB_BINLOG_FLAGS_CFG_TRUNCATE) = true ->
                   file_size (os m6) = sizeof_disk_hdr)).
  { destruct (nez _).
    - pose proof (sets_errno_sys_ftruncate _ _ _ _ _ T) as Hx.
      apply sys_ftruncate_inv in T as (Tc & Td & Tl & e & Tv & T). injection Tv as <-.
      repeat split; try assumption.
      intros Hne _. destruct T as [(? & _) | (_ & Tf)]; [contradiction | ].
      unfold file_size, file_bytes. rewrite Tf, length_resize.
      pose proof sizeof_disk_hdr_pos. lia.
    - apply ret_inv in T as [T ->]. injection T as <-.
      repeat split; intros; try contradiction; discriminate. }
  clear T. destruct Ht as (Ht & Tc & Td & Tl & Tsize).
  destruct (Z.eqb_spec e2 (-1)) as [He2 | He2].
  { step H as e3 m7 N; apply neg_errno_inv in N as [-> N].
    injection N as ->.
    apply err_unlock_inv in H as [Hv _]. specialize (Ht He2).
    assert (- w_errno (os m6) <> 0) by lia. congruence. }
  clear Ht. specialize (Tsize He2).
  step H as u2 m7 G; by_state G.
  step H as e3 m8 Hint.
  apply quiet_eblob_pagecache_hint in Hint as (Hic & Hif & Hid & Hil). simpl in Hic.
  step H as st m9 St.
  pose proof (sets_errno_sys_fstat _ _ _ _ St) as Hs.
  pose proof (quiet_sys_fstat _ _ _ _ St) as (Sc & Sf & Sd & Sl).
  apply sys_fstat_inv in St.
  destruct (Z.eqb_spec (fst st) (-1)) as [Hst | Hst].
  { step H as e4 m10 N; apply neg_errno_inv in N as [-> N].
    injection N as ->.
    apply err_unlock_inv in H as [Hv _]. specialize (Hs Hst).
    assert (- w_errno (os m9) <> 0) by lia. congruence. }
  clear Hs. destruct St as [? | (_ & Ssize & _)]; [contradiction | ].
  step H as c2 m10 G; by_state G.
  step H as u3 m11 G; by_state G.
  step H as hr m12 Hd.
  pose proof (binlog_hdr_read_inv _ _ _ _ Hd) as [_ Hderr].
  destruct hr as [e5 | dhdr].
  { apply err_unlock_inv in H as [Hv _]. specialize (Hderr e5 eq_refl). congruence. }
  clear Hderr.
  apply binlog_hdr_read_ok in Hd as (Hdd & Hdv & Hdsize & (Hdc & Hdf & Hdfd & Hdl)).
  simpl in Hdc, Hdf, Hdfd, Hdl, Hdd, Hdsize.
  step H as c3 m13 G; by_state G.
  step H as u4 m14 G; by_state G.
  step H as lsn m15 S.
  pose proof (quiet_binlog_get_next_lsn _ _ _ S) as (Qc & Qf & Qd & Ql).
  simpl in Qc, Qf, Qd, Ql.
  apply binlog_get_next_lsn_sound in S.
  pose proof (wrapped_scan_asserted _ _ _ _ S) as Slow.
  pose proof (wrapped_scan_short _ _ _ _ S) as Sshort. simpl in Sshort.
  step H as c4 m16 G; by_state G.
  step H as u5 m17 G; by_state G.
  apply ret_inv in H as [_ ->]. cbv zeta. simpl.
  simpl in Hif, Hid, Hil.
  assert (F10 : w_file (os m16) = w_file (os m10)) by congruence.
  assert (F8 : w_file (os m16) = w_file (os m8)) by congruence.
  assert (F6 : w_file (os m16) = w_file (os m6)) by congruence.
  assert (F13 : w_file (os m13) = w_file (os m16)) by congruence.
  rewrite <- (same_file_size _ _ F10) in Hdsize.
  rewrite <- (same_file_range _ _ 0 sizeof_disk_hdr F10) in Hdv.
  rewrite <- (same_file_range _ _ 0 sizeof_disk_hdr F10) in Qc.
  rewrite <- (same_file_size _ _ F8) in Ssize.
  rewrite <- (same_file_size _ _ F6) in Tsize.
  rewrite (same_file_size _ _ F13) in Sshort.
  rewrite Qc. simpl. rewrite Hdc. simpl. rewrite Sc, Hic. simpl.
  split; [reflexivity | ].
  split; [congruence | ].
  split; [congruence | ].
  split; [reflexivity | ].
  split; [exact Hdv | ].
  split; [exact Hdsize | ].
  split; [exact Ssize | ].
  split; [exact Slow | ].
  split; [exact Cflags | ].
  split; [exact Cstep | ].
  split; [exact Sshort | ].
  intros Htr. apply Tsize. rewrite Cflags. exact Htr.
Qed.

Lemma same_file_err_unlock fd err : preserves same_file (err_unlock fd err).
Proof. unfold err_unlock. keeps_tac. Qed.

#[local] Hint Resolve same_file_err_unlock : quiet.

Lemma err_unlock_fresh l err m r m' :
  err_unlock (fresh_fd l) err m = (r, m') ->
  w_fds (os m) = fresh_fd l :: l -> w_fds (os m') = l.
Proof.
  unfold err_unlock. intros H Hd.
  step H as a m1 U.
  2,3: apply sys_flock_un_inv in U as (_ & _ & _ & _ & ? & ?); discriminate.
  apply sys_flock_un_inv in U as (_ & _ & Ud & _).
  step H as c m2 C.
  2,3: apply sys_close_inv in C as (_ & _ & _ & _ & _ & _ & ? & ?); discriminate.
  apply ret_inv in H as [_ ->].
  eapply close_fresh; [exact C | congruence].
Qed.

(** A failed [binlog_open] closes what it opened. *)
Lemma binlog_open_failed m err m' :
  binlog_open HANDLE m = (Val err, m') -> err <> 0 -> w_fds (os m') = w_fds (os m).
Proof.
  unfold binlog_open. intros H Herr.
  step H as c m1 G; by_state G.
  step H as u1 m2 A; apply assert_inv in A as [-> A]. clear A.
  step H as e0 m2 Cr.
  apply binlog_create_inv in Cr as (_ & Cd & _). specialize (Cd e0 eq_refl).
  destruct (nez e0 && neq e0 (- EEXIST)).
  { apply ret_inv in H as [_ ->]. exact Cd. }
  step H as c1 m3 G; by_state G.
  step H as fd m4 O.
  apply sys_open_inv in O as (_ & _ & fd' & Ov & O). injection Ov as <-.
  destruct (Z.eqb_spec fd (-1)) as [Hfd | Hfd].
  { apply neg_errno_inv in H as [-> _].
    destruct O as [(_ & _ & Od) | (Ofd & _)]; [congruence | ].
    pose proof (fresh_fd_pos (w_fds (os m3))). lia. }
  destruct O as [(? & _) | (Ofd & Od & _)]; [contradiction | ].
  rewrite Cd in Ofd, Od. subst fd.
  step H as e1 m5 L.
  apply sys_flock_ex_nb_inv in L as (_ & _ & Ld & _).
  destruct (e1 =? -1).
  { step H as e2 m6 N; apply neg_errno_inv in N as [-> _].
    step H as e3 m7 C.
    apply ret_inv in H as [_ ->].
    eapply close_fresh; [exact C | congruence]. }
  step H as e2 m6 T.
  assert (Td : w_fds (os m6) = w_fds (os m5)).
  { destruct (nez _).
    - apply sys_ftruncate_inv in T as (_ & Td & _). exact Td.
    - apply ret_inv in T as [_ ->]. reflexivity. }
  clear T.
  destruct (e2 =? -1).
  { step H as e3 m7 N; apply neg_errno_inv in N as [-> _].
    eapply err_unlock_fresh; [exact H | congruence]. }
  step H as u2 m7 G; by_state G.
  step H as e3 m8 Hint.
  apply quiet_eblob_pagecache_hint in Hint as (_ & _ & Hid & _). simpl in Hid.
  step H as st m9 St.
  apply quiet_sys_fstat in St as (_ & _ & Sd & _).
  destruct (fst st =? -1).
  { step H as e4 m10 N; apply neg_errno_inv in N as [-> _].
    eapply err_unlock_fresh; [exact H | congruence]. }
  step H as c2 m10 G; by_state G.
  step H as u3 m11 G; by_state G.
  step H as hr m12 Hd.
  apply quiet_binlog_hdr_read in Hd as (_ & _ & Hdd & _). simpl in Hdd.
  destruct hr as [e5 | dhdr].
  { eapply err_unlock_fresh; [exact H | congruence]. }
  step H as c3 m13 G; by_state G.
  step H as u4 m14 G; by_state G.
  step H as lsn m15 S.
  step H as c4 m16 G; by_state G.
  step H as u5 m17 G; by_state G.
  apply ret_inv in H as [H _]. congruence.
Qed.

(** Without TRUNCATE, [binlog_open] on a file that exists leaves its
    bytes as they are, whatever the outcome. *)
Lemma binlog_open_same_file bs m r m' :
  w_file (os m) = Some bs ->
  nez (Z.land (cfg_flags (bcfg m)) EBLOB_BINLOG_FLAGS_CFG_TRUNCATE) = false ->
  binlog_open HANDLE m = (r, m') ->
  w_file (os m') = Some bs.
Proof.
  unfold binlog_open. intros Hf Htr H.
  step H as c m1 G; by_state G.
  step H as u1 m2 A; apply assert_inv in A as [-> A].
  2,3: exact Hf.
  clear A.
  step H as e0 m2 Cr;
    apply (binlog_create_existing _ _ _ _ Hf) in Cr as ((Cc & Cf & _) & e & Cv & _);
    try discriminate.
  clear Cv e.
  rewrite <- Hf, <- Cf. rewrite <- Cc in Htr.
  destruct (nez e0 && neq e0 (- EEXIST)).
  { apply ret_inv in H as [_ ->]. reflexivity. }
  step H as c1 m3 G.
  2,3: inversion G.
  by_state G.
  revert H.
  match goal with
  | |- ?k ?mm = _ -> _ => enough (K : preserves same_file k) by (intros H; exact (K _ _ _ H))
  end.
  keeps_tac.
Qed.

(** *** The scan and the write cursor *)

Lemma later_assert e : preserves later (assert e).
Proof. unfold assert. later_tac. Qed.

Lemma later_io_error n : preserves later (io_error n).
Proof. unfold io_error. later_tac. Qed.

Lemma later_neg_errno : preserves later neg_errno.
Proof. unfold neg_errno. later_tac. Qed.

#[local] Hint Resolve later_assert later_io_error later_neg_errno : quiet.

Lemma later_binlog_extend fd : preserves later (binlog_extend fd).
Proof. unfold binlog_extend. later_tac. Qed.

Lemma later_binlog_hdr_write fd d : preserves later (binlog_hdr_write fd d).
Proof. unfold binlog_hdr_write. later_tac. Qed.

Lemma later_binlog_hdr_read fd : preserves later (binlog_hdr_read fd).
Proof. unfold binlog_hdr_read. later_tac. Qed.

#[local] Hint Resolve later_binlog_extend later_binlog_hdr_write later_binlog_hdr_read : quiet.

Lemma later_binlog_create : preserves later binlog_create.
Proof. unfold binlog_create. later_tac. Qed.

(** A successful [binlog_open] ends with the scan and stores its value:
    [m1] is the machine on which the scan is run. *)
Lemma binlog_open_scan m m' :
  binlog_open HANDLE m = (Val 0, m') ->
  exists m1,
    binlog_get_next_lsn m1
    = (Val (cfg_binlog_position (bcfg m')), mk_machine (bcfg m1) (os m'))
    /\ bcfg m' = set_binlog_position (cfg_binlog_position (bcfg m')) (bcfg m1)
    /\ w_file (os m1) = w_file (os m')
    /\ w_fds (os m1) = w_fds (os m')
    /\ w_lock (os m1) = w_lock (os m')
    /\ later m m1.
Proof.
  unfold binlog_open. intros H.
  step H as c m1 G; by_state G.
  step H as u1 m2 A; apply assert_inv in A as [-> A]. clear A.
  step H as err m2 Cr.
  pose proof (later_binlog_create _ _ _ Cr) as K1. clear Cr.
  destruct (nez err && neq err (- EEXIST)) eqn:Hc.
  { apply ret_inv in H as [Hv ->]. apply andb_true_iff in Hc as [Hc _].
    apply nez_true in Hc. congruence. }
  clear Hc.
  step H as c1 m3 G; by_state G.
  step H as fd m4 O.
  pose proof (sets_errno_sys_open _ _ _ _ _ O) as Ho.
  pose proof (later_sys_open _ _ _ _ _ O) as K2. clear O.
  destruct (Z.eqb_spec fd (-1)) as [Hfd | Hfd].
  { apply neg_errno_inv in H as [-> Hv]. specialize (Ho Hfd).
    assert (- w_errno (os m4) <> 0) by lia. congruence. }
  clear Ho.
  step H as e1 m5 L.
  pose proof (sets_errno_sys_flock_ex_nb _ _ _ _ L) as Hl.
  pose proof (later_sys_flock_ex_nb _ _ _ _ L) as K3. clear L.
  destruct (Z.eqb_spec e1 (-1)) as [He1 | He1].
  { step H as e2 m6 N; apply neg_errno_inv in N as [-> N].
    injection N as ->.
    step H as e3 m7 C.
    apply ret_inv in H as [Hv ->]. specialize (Hl He1).
    assert (- w_errno (os m5) <> 0) by lia. congruence. }
  clear Hl.
  step H as e2 m6 T.
  assert (Ht : (e2 = -1 -> 0 < w_errno (os m6)) /\ later m5 m6).
  { destruct (nez _).
    - split; [apply (sets_errno_sys_ftruncate _ _ _ _ _ T) | ].
      apply (later_sys_ftruncate _ _ _ _ _ T).
    - apply ret_inv in T as [T ->]. injection T as <-.
      split; [contradiction | apply later_refl]. }
  clear T. destruct Ht as [Ht K4].
  destruct (Z.eqb_spec e2 (-1)) as [He2 | He2].
  { step H as e3 m7 N; apply neg_errno_inv in N as [-> N].
    injection N as ->.
    apply err_unlock_inv in H as [Hv _]. specialize (Ht He2).
    assert (- w_errno (os m6) <> 0) by lia. congruence. }
  clear Ht.
  step H as u2 m7 G; by_state G.
  step H as e3 m8 Hint.
  pose proof (later_eblob_pagecache_hint _ _ _ _ Hint) as K5. clear Hint.
  step H as st m9 St.
  pose proof (sets_errno_sys_fstat _ _ _ _ St) as Hs.
  pose proof (later_sys_fstat _ _ _ _ St) as K6. clear St.
  destruct (Z.eqb_spec (fst st) (-1)) as [Hst | Hst].
  { step H as e4 m10 N; apply neg_errno_inv in N as [-> N].
    injection N as ->.
    apply err_unlock_inv in H as [Hv _]. specialize (Hs Hst).
    assert (- w_errno (os m9) <> 0) by lia. congruence. }
  clear Hs.
  step H as c2 m10 G; by_state G.
  step H as u3 m11 G; by_state G.
  step H as hr m12 Hd.
  pose proof (later_binlog_hdr_read _ _ _ _ Hd) as K7.
  apply binlog_hdr_read_inv in Hd as [_ Hd].
  destruct hr as [e5 | dhdr].
  { apply err_unlock_inv in H as [Hv _]. specialize (Hd e5 eq_refl). congruence. }
  clear Hd.
  step H as c3 m13 G; by_state G.
  step H as u4 m14 G; by_state G.
  step H as lsn m15 S.
  pose proof (quiet_binlog_get_next_lsn _ _ _ S) as (Qc & Qf & Qd & Ql).
  step H as c4 m16 G; by_state G.
  step H as u5 m17 G; by_state G.
  apply ret_inv in H as [_ ->].
  eexists. split; [ | split; [ | split; [ | split; [ | split ] ] ] ].
  - cbn [bcfg os cfg_binlog_position set_binlog_position]. rewrite S.
    destruct m16 as [c16 w16]. simpl in Qc. cbn [bcfg os]. rewrite Qc. reflexivity.
  - cbn [bcfg os]. rewrite Qc. cbn [bcfg]. reflexivity.
  - cbn [os]. symmetry. exact Qf.
  - cbn [os]. symmetry. exact Qd.
  - cbn [os]. symmetry. exact Ql.
  - destruct K1 as [k1 K1], K2 as [k2 K2], K3 as [k3 K3], K4 as [k4 K4], K5 as [k5 K5],
      K6 as [k6 K6], K7 as [k7 K7].
    cbn [os bcfg] in *.
    exists (k1 + (k2 + (k3 + (k4 + (k5 + (k6 + k7))))))%nat. cbn [os bcfg].
    rewrite K7, K6, K5, K4, K3, K2, K1, !skipn_skipn. f_equal. lia.
Qed.

(** C4, amended.  The recovery scan starts at the size of the disk header;
    while reading and checking a record header at the current offset
    succeeds, it moves on by record-header size plus that header's size
    field, the new offset being reduced to the 64-bit [off_t]; a value it
    returns is the first offset of that chain where the read or the check
    fails, returned without error.  On every log the chain of the exact
    sums exists, and where it ends at an offset that fits [off_t] the scan
    does return, at its end.  A successful [binlog_open] stores the value
    of the scan, run on the file, the descriptors and the lock it leaves
    and on what is left of the script, as the write cursor. *)
Theorem binlog_get_next_lsn_scan :
  (forall m lsn m',
      binlog_get_next_lsn m = (Val lsn, m') -> wrapped_scan m sizeof_disk_hdr m' lsn)
  /\ (forall m, 0 <= cfg_fd (bcfg m) -> exists lsn m', scan m sizeof_disk_hdr m' lsn)
  /\ (forall m lsn m',
         scan m sizeof_disk_hdr m' lsn -> lsn <= OFF_MAX ->
         binlog_get_next_lsn m = (Val lsn, m'))
  /\ (forall m m',
         binlog_open HANDLE m = (Val 0, m') ->
         exists m1,
           binlog_get_next_lsn m1
           = (Val (cfg_binlog_position (bcfg m')), mk_machine (bcfg m1) (os m'))
           /\ bcfg m' = set_binlog_position (cfg_binlog_position (bcfg m')) (bcfg m1)
           /\ w_file (os m1) = w_file (os m')
           /\ w_fds (os m1) = w_fds (os m')
           /\ w_lock (os m1) = w_lock (os m')
           /\ later m m1).
Proof.
  split; [ | split; [ | split ] ].
  - intros m lsn m' H. apply binlog_get_next_lsn_sound. exact H.
  - intros m Hfd. pose proof sizeof_disk_hdr_pos as Hpos.
    apply (scan_total (S (length (file_bytes (os m))))); [exact Hfd | exact Hpos | ].
    unfold file_size. lia.
  - intros m lsn m' S Hmax. apply binlog_get_next_lsn_follows; assumption.
  - intros m m' H. apply binlog_open_scan. exact H.
Qed.

(** X11.  A successful [binlog_open] leaves the handle with a new descriptor,
    open and holding the lock; with the disk header found at the start of
    the file, which passed the check; and with the size of the file as the
    preallocated size.  In a build with assertions the write cursor is
    above 0, as [binlog_append] asserts.  The flags and the preallocation
    step are the caller's. *)
Theorem binlog_open_success m m' :
  binlog_open HANDLE m = (Val 0, m') ->
  let fd := cfg_fd (bcfg m') in
  let dhdr := decode_disk_hdr (file_range (os m') 0 sizeof_disk_hdr) in
  0 <= fd
  /\ is_open fd (os m) = false
  /\ w_fds (os m') = fd :: w_fds (os m)
  /\ w_lock (os m') = LockedBy fd
  /\ cfg_disk_hdr (bcfg m') = Some dhdr
  /\ binlog_verify_hdr dhdr = 0
  /\ sizeof_disk_hdr <= file_size (os m')
  /\ cfg_prealloc_size (bcfg m') = file_size (os m')
  /\ (NDEBUG = false -> 0 < cfg_binlog_position (bcfg m'))
  /\ cfg_flags (bcfg m') = cfg_flags (bcfg m)
  /\ cfg_prealloc_step (bcfg m') = cfg_prealloc_step (bcfg m).
Proof.
  intros H. apply binlog_open_ok in H. cbv zeta in *.
  destruct H as (Hfd & Hd & Hl & Hh & Hv & Hs & Hp & Hpos & Hfl & Hst & _).
  rewrite Hfd.
  split; [pose proof (fresh_fd_pos (w_fds (os m))); lia | ].
  split.
  { unfold is_open. apply not_true_is_false. intros Hin.
    apply existsb_exists in Hin as (x & Hx & Heq). apply Z.eqb_eq in Heq. subst x.
    apply fresh_fd_above in Hx. lia. }
  repeat split; assumption.
Qed.

(** X12.  A successful [binlog_open] with TRUNCATE leaves an empty log: the file
    is the disk header and nothing else, and the write cursor is at its
    end.  So does any successful open of a file too short to hold a record
    header after the disk header. *)
Theorem binlog_open_truncate m m' :
  binlog_open HANDLE m = (Val 0, m') ->
  (nez (Z.land (cfg_flags (bcfg m)) EBLOB_BINLOG_FLAGS_CFG_TRUNCATE) = true ->
   file_size (os m') = sizeof_disk_hdr)
  /\ (file_size (os m') < sizeof_disk_hdr + sizeof_record_hdr ->
      cfg_binlog_position (bcfg m') = sizeof_disk_hdr).
Proof.
  intros H. apply binlog_open_ok in H. cbv zeta in *.
  destruct H as (_ & _ & _ & _ & _ & _ & _ & _ & _ & _ & Hshort & Htr).
  split; assumption.
Qed.

(** X13.  When [binlog_open] returns an error, the descriptors it opened are
    closed again: the set of open descriptors is as before. *)
Theorem binlog_open_failure_no_leak m err m' :
  binlog_open HANDLE m = (Val err, m') -> err <> 0 -> w_fds (os m') = w_fds (os m).
Proof. apply binlog_open_failed. Qed.

(** X14.  Without TRUNCATE, [binlog_open] never modifies a log that exists:
    whatever the outcome, the file holds the bytes it held. *)
Theorem binlog_open_keeps_file bs m r m' :
  w_file (os m) = Some bs ->
  nez (Z.land (cfg_flags (bcfg m)) EBLOB_BINLOG_FLAGS_CFG_TRUNCATE) = false ->
  binlog_open HANDLE m = (r, m') ->
  w_file (os m') = Some bs /\ file_size (os m') = file_size (os m).
Proof.
  intros Hf Htr H. pose proof (binlog_open_same_file _ _ _ _ Hf Htr H) as Hf'.
  split; [exact Hf' | ]. apply same_file_size. congruence.
Qed.

(** *** Closing *)

(** X15.  A successful [binlog_close] has written the handle's disk header at the
    start of the file, leaving the rest of the file as it was; the
    descriptor, which was open, is closed and no longer holds the lock.
    The handle itself is as before, [fd] included: opening it again aborts
    in a build with assertions. *)
Theorem binlog_close_success m m' :
  binlog_close HANDLE m = (Val 0, m') ->
  let fd := cfg_fd (bcfg m) in
  bcfg m' = bcfg m
  /\ 0 <= fd
  /\ is_open fd (os m) = true
  /\ is_open fd (os m') = false
  /\ w_fds (os m') = filter (fun x => negb (x =? fd)) (w_fds (os m))
  /\ w_lock (os m') <> LockedBy fd
  /\ (exists h, cfg_disk_hdr (bcfg m) = Some h
        /\ file_range (os m') 0 sizeof_disk_hdr = encode_disk_hdr h
        /\ skipn (Z.to_nat sizeof_disk_hdr) (file_bytes (os m'))
           = skipn (Z.to_nat sizeof_disk_hdr) (file_bytes (os m)))
  /\ (NDEBUG = false -> binlog_open HANDLE m' = (Crash AssertFailed, m')).
Proof.
  unfold binlog_close. intros H. cbv zeta.
  step H as c m1 G; by_state G.
  destruct (Z.ltb_spec (cfg_fd (bcfg m1)) 0) as [Hneg | Hfd].
  { apply ret_inv in H as [H _]. discriminate. }
  step H as e1 m2 W.
  apply binlog_hdr_write_inv in W as (Wc & Wd & Wl & W).
  destruct (nez e1) eqn:He1.
  { apply ret_inv in H as [H _]. apply nez_true in He1. congruence. }
  apply nez_false in He1. subst e1.
  destruct (W eq_refl) as (h & Hh & _ & Wopen & _ & Wf). clear W.
  step H as e2 m3 Sy.
  apply quiet_binlog_sync in Sy as (Sc & Sf & Sd & Sl).
  destruct (nez e2) eqn:He2.
  { apply ret_inv in H as [H _]. apply nez_true in He2. congruence. }
  step H as e3 m4 U.
  pose proof (sets_errno_sys_flock_un _ _ _ _ U) as Hu. simpl in Hu.
  apply sys_flock_un_inv in U as (Uc & Uf & Ud & _ & _).
  destruct (Z.eqb_spec e3 (-1)) as [He3 | He3].
  { apply neg_errno_inv in H as [-> Hv]. specialize (Hu He3).
    assert (- w_errno (os m4) <> 0) by lia. congruence. }
  step H as e4 m5 Hint.
  apply quiet_eblob_pagecache_hint in Hint as (Hic & Hif & Hid & Hil).
  step H as e5 m6 C.
  pose proof (sets_errno_sys_close _ _ _ _ C) as Hcl. simpl in Hcl.
  apply sys_close_inv in C as (Cc & Cf & Cd & Cclosed & _ & Clock & _).
  assert (Hm' : m' = m6).
  { destruct (Z.eqb_spec e5 (-1)) as [He5 | He5].
    - apply neg_errno_inv in H as [-> Hv]. reflexivity.
    - apply ret_inv in H as [_ ->]. reflexivity. }
  assert (Hdone : e5 <> -1).
  { intros He5. rewrite He5 in H. simpl in H.
    apply neg_errno_inv in H as [_ Hv]. specialize (Hcl He5).
    assert (- w_errno (os m6) <> 0) by lia. congruence. }
  clear H Hcl. subst m'.
  assert (Hfds5 : w_fds (os m5) = w_fds (os m1)) by congruence.
  assert (Hopen1 : is_open (cfg_fd (bcfg m1)) (os m1) = true).
  { unfold is_open in *. rewrite <- Wd. exact Wopen. }
  assert (Hopen5 : is_open (cfg_fd (bcfg m1)) (os m5) = true).
  { unfold is_open in *. rewrite Hfds5. exact Hopen1. }
  assert (Hc : bcfg m6 = bcfg m1) by congruence.
  assert (Hf : w_file (os m6)
               = Some (write_at (file_bytes (os m1)) 0 (encode_disk_hdr h))) by congruence.
  pose proof (encode_disk_hdr_length h) as Hlen.
  assert (Hn : Z.to_nat sizeof_disk_hdr = length (encode_disk_hdr h)) by lia.
  split; [exact Hc | ].
  split; [exact Hfd | ].
  split; [exact Hopen1 | ].
  split; [exact Cclosed | ].
  split; [rewrite Cd, Hfds5; reflexivity | ].
  split; [exact (Clock Hopen5) | ].
  split.
  - exists h. split; [exact Hh | ].
    assert (Hb : file_bytes (os m6) = write_at (file_bytes (os m1)) 0 (encode_disk_hdr h))
      by (unfold file_bytes at 1; rewrite Hf; reflexivity).
    unfold file_range. rewrite Hb, Hn.
    split; [apply (write_at_same _ 0%nat) | apply skipn_write_at_0].
  - intros Hnd. unfold binlog_open, bind, get_bcfg, assert. simpl.
    rewrite Hnd, Hc.
    destruct (Z.eqb_spec (cfg_fd (bcfg m1)) (-1)) as [Heq | _]; [lia | reflexivity].
Qed.

(** *** Reading into a descriptor *)

(** X16.  [binlog_read] fills the descriptor on success only: whenever it
    returns an error, the descriptor is the one passed in.  It never
    changes the log or the handle. *)
Theorem binlog_read_failure_keeps_ctl bctl off m err d m' :
  binlog_read bctl off m = (Val (err, d), m') ->
  (err <> 0 -> d = bctl) /\ (err = 0 -> d <> None /\ bctl <> None) /\ untouched m m'.
Proof.
  intros H. pose proof (quiet_binlog_read _ _ _ _ _ H) as Hq.
  split; [ | split; [ | exact Hq ] ]; clear Hq.
  all: unfold binlog_read in H.
  all: destruct bctl as [b | ]; [ | apply ret_inv in H as [H _]; injection H as -> -> ].
  all: try (intros; first [reflexivity | discriminate]).
  all: destruct (ctl_cfg b); [apply ret_inv in H as [H _]; injection H as -> -> | ].
  all: try (intros; first [reflexivity | discriminate]).
  all: step H as u m1 A; apply assert_inv in A as [-> _].
  all: step H as hr m2 R.
  all: destruct hr as [e | rhdr];
    [ apply binlog_read_record_hdr_error in R; apply ret_inv in H as [H _];
      injection H as -> ->; intros; first [reflexivity | contradiction] | ].
  all: step H as data m3 D.
  all: destruct (nez (rh_size rhdr)); destruct data; destruct (ctl_key b);
    try discriminate; apply ret_inv in H as [H _]; injection H as -> ->.
  all: intros He; first [reflexivity | contradiction | discriminate | split; discriminate].
Qed.

(** *** Applying a log that holds records *)

(** X17.  On a log whose write cursor is past the disk header, [binlog_apply]
    delivers nothing: it never returns 0 and never runs the handler,
    whatever the fuel.  In a build with assertions it aborts on the
    assertion [binlog_position <= offset] before it reads anything. *)
Theorem binlog_apply_never_delivers {U} (fuel : nat) (func : handler U) (u : U) m r u' m' :
  sizeof_disk_hdr < cfg_binlog_position (bcfg m) ->
  binlog_apply fuel HANDLE (Some func) (u, m) = (r, (u', m')) ->
  r <> Val 0 /\ u' = u /\ (NDEBUG = false -> r = Crash AssertFailed /\ m' = m).
Proof.
  intros Hpos H.
  destruct (binlog_apply_nonempty _ _ _ _ _ _ _ Hpos H) as [Hr Hu].
  split; [exact Hr | split; [exact Hu | ] ].
  intros Hnd. unfold binlog_apply, bind, lift, get_bcfg, assert in H. simpl in H.
  rewrite Hnd in H.
  destruct (Z.leb_spec (cfg_binlog_position (bcfg m)) sizeof_disk_hdr) as [? | _]; [lia | ].
  simpl in H. injection H as <- _ <-. split; reflexivity.
Qed.

(** *** The bytes of an appended record *)

(** A write from a caller's buffer that reports all [n] bytes written has
    put the first [n] bytes of the buffer at the offset. *)
Lemma pwrite_buffer_ok fd p n off m m' :
  0 < n ->
  pwrite_buffer fd p n off m = (Val n, m') ->
  bcfg m' = bcfg m /\ w_fds (os m') = w_fds (os m) /\ w_lock (os m') = w_lock (os m)
  /\ 0 <= off
  /\ Z.of_nat (length (taken p n)) = n
  /\ w_file (os m') = Some (write_at (file_bytes (os m)) (Z.to_nat off) (taken p n)).
Proof.
  intros Hn H. unfold pwrite_buffer, buffer in H. unfold taken.
  destruct p as [bs | ].
  2:{ unfold pop_fault, fail_with, get_os, put_os, bind, ret in H.
      split_match H; inversion H; lia. }
  destruct (Z.ltb_spec (Z.of_nat (length bs)) n) as [Hshort | Hlong].
  { unfold pop_fault, fail_with, get_os, put_os, bind, ret in H.
    split_match H; inversion H; lia. }
  assert (Hlen : Z.of_nat (length (firstn (Z.to_nat n) bs)) = n)
    by (rewrite length_firstn; lia).
  apply sys_pwrite_inv in H as (Wc & Wd & Wl & n' & Wv & Wok).
  injection Wv as <-.
  destruct Wok as (Hoff & _ & Wf).
  { lia. }
  { intros Hnil. rewrite Hnil in Hlen. simpl in Hlen. lia. }
  repeat split; assumption.
Qed.

(** One of the two payload writes of [binlog_append], after the bytes
    [pre] written at [pos]. *)
Lemma payload_write_ok fd p n off pos F pre m m' :
  0 <= n -> 0 <= pos ->
  (0 < n -> off = pos + Z.of_nat (length pre)) ->
  w_file (os m) = Some (write_at F (Z.to_nat pos) pre) ->
  (if 0 <? n then pwrite_buffer fd p n off else ret n) m = (Val n, m') ->
  bcfg m' = bcfg m /\ w_fds (os m') = w_fds (os m) /\ w_lock (os m') = w_lock (os m)
  /\ Z.of_nat (length (taken p n)) = n
  /\ w_file (os m') = Some (write_at F (Z.to_nat pos) (pre ++ taken p n)).
Proof.
  intros Hn Hpos Hoff Hf H.
  destruct (Z.ltb_spec 0 n) as [Hlt | Hle].
  - apply (pwrite_buffer_ok _ _ _ _ _ _ Hlt) in H as (Wc & Wd & Wl & _ & Wlen & Wf).
    repeat split; try assumption.
    rewrite Wf. unfold file_bytes. rewrite Hf.
    rewrite (Hoff Hlt).
    replace (Z.to_nat (pos + Z.of_nat (length pre)))
      with (Z.to_nat pos + length pre)%nat by lia.
    rewrite write_at_app. reflexivity.
  - apply ret_inv in H as [_ ->].
    rewrite taken_nil by lia. rewrite app_nil_r.
    repeat split; try assumption. simpl. lia.
Qed.

(** What a successful [binlog_append] of a record with metadata (or with
    no payload at all) has written. *)
Lemma binlog_append_ok rhdr0 b m m' :
  binlog_append rhdr0 (Some b) m = (Val 0, m') ->
  0 <= ctl_size b -> 0 <= ctl_meta_size b ->
  (0 < ctl_size b -> 0 < ctl_meta_size b) ->
  let pos := cfg_binlog_position (bcfg m) in
  exists key,
    ctl_key b = Some key
    /\ 0 <= pos
    /\ w_fds (os m') = w_fds (os m) /\ w_lock (os m') = w_lock (os m)
    /\ Z.of_nat (length (taken (ctl_meta b) (ctl_meta_size b))) = ctl_meta_size b
    /\ Z.of_nat (length (taken (ctl_data b) (ctl_size b))) = ctl_size b
    /\ is_open (cfg_fd (bcfg m)) (os m') = true
    /\ exists k,
         (nez (Z.land (cfg_flags (bcfg m)) EBLOB_BINLOG_FLAGS_CFG_PREALLOC) = false ->
          k = 0%nat)
         /\ w_file (os m')
         = Some (write_at (file_bytes (os m) ++ zeros k) (Z.to_nat pos)
                   (encode_record_hdr
                      (mk_rhdr (ctl_type b) (ctl_meta_size b + ctl_size b)
                               (rh_meta_size rhdr0) (ctl_flags b) key)
                    ++ taken (ctl_meta b) (ctl_meta_size b)
                    ++ taken (ctl_data b) (ctl_size b))).
Proof.
  unfold binlog_append. intros H Hsize Hmeta Hboth. cbv zeta.
  destruct (ctl_cfg b) eqn:Hptr.
  { apply ret_inv in H as [H _]. discriminate. }
  step H as c m1 E; by_state E.
  step H as u1 m2 A1; apply assert_inv in A1 as [-> _].
  step H as u2 m3 A2; apply assert_inv in A2 as [-> _].
  step H as err m4 X.
  assert (Hext : bcfg m4 = after_extension b (bcfg m1)
                 /\ w_fds (os m4) = w_fds (os m1) /\ w_lock (os m4) = w_lock (os m1)
                 /\ exists k, file_bytes (os m4) = file_bytes (os m1) ++ zeros k
                      /\ (nez (Z.land (cfg_flags (bcfg m1)) EBLOB_BINLOG_FLAGS_CFG_PREALLOC)
                          = false -> k = 0%nat)).
  { unfold after_extension, record_len. destruct (_ >=? _).
    - pose proof (binlog_extend_frame _ _ _ _ X) as (Xd & Xl & Xk).
      apply binlog_extend_inv in X as [Xc _]. auto.
    - apply ret_inv in X as [_ ->]. repeat split.
      exists 0%nat. split; [simpl; rewrite app_nil_r; reflexivity | reflexivity]. }
  clear X. destruct Hext as (Xc & Xd & Xl & k & Xk & Xk0).
  destruct (nez err) eqn:Herr.
  { apply ret_inv in H as [H _]. apply nez_true in Herr. congruence. }
  destruct (ctl_key b) as [key | ]; [ | discriminate ].
  exists key. split; [reflexivity | ].
  step H as u3 m5 A3; apply assert_inv in A3 as [-> _].
  step H as c1 m6 G; by_state G.
  assert (Hpos : cfg_binlog_position (bcfg m6) = cfg_binlog_position (bcfg m1))
    by (rewrite Xc; apply after_extension_position).
  rewrite Hpos in H.
  remember (cfg_binlog_position (bcfg m1)) as pos eqn:Epos.
  generalize dependent (mk_rhdr (ctl_type b) (ctl_meta_size b + ctl_size b)
                                 (rh_meta_size rhdr0) (ctl_flags b) key).
  intros rhdr H.
  step H as n1 m7 W1.
  pose proof (sets_errno_sys_pwrite _ _ _ _ _ _ W1) as Herrno1.
  apply sys_pwrite_inv in W1 as (W1c & W1d & W1l & n1' & W1v & W1ok).
  injection W1v as <-.
  pose proof (encode_record_hdr_length rhdr) as Hlen.
  pose proof sizeof_record_hdr_pos as Hhpos.
  destruct (neq n1 sizeof_record_hdr) eqn:Hn1.
  { apply io_error_nonzero in H as [Hnz _]; [ | exact Herrno1 ]. contradiction. }
  apply neq_false in Hn1.
  destruct W1ok as (Hpos0 & W1open & W1f).
  { lia. }
  { intros Hnil. rewrite Hnil in Hlen. simpl in Hlen. lia. }
  rewrite Xk in W1f.
  step H as n2 m8 W2.
  destruct (neq n2 (ctl_meta_size b)) eqn:Hn2.
  { assert (Hx : n2 = -1 -> 0 < w_errno (os m8)).
    { intros Hm1. destruct (0 <? ctl_meta_size b).
      - apply (sets_errno_pwrite_buffer _ _ _ _ _ _ _ W2). exact Hm1.
      - apply ret_inv in W2 as [W2 _]. injection W2 as W2. lia. }
    apply io_error_nonzero in H as [Hnz _]; [ | exact Hx ]. contradiction. }
  apply neq_false in Hn2. subst n2.
  assert (Hoff2 : 0 < ctl_meta_size b ->
                  (if 0 <? ctl_meta_size b then pos + sizeof_record_hdr else pos)
                  = pos + Z.of_nat (length (encode_record_hdr rhdr))).
  { intros Hlt. apply Z.ltb_lt in Hlt. rewrite Hlt. lia. }
  pose proof (payload_write_ok _ _ _ _ pos _ _ _ _ Hmeta Hpos0 Hoff2 W1f W2)
    as (W2c & W2d & W2l & W2len & W2f).
  clear W2.
  step H as n3 m9 W3.
  destruct (neq n3 (ctl_size b)) eqn:Hn3.
  { assert (Hx : n3 = -1 -> 0 < w_errno (os m9)).
    { intros Hm1. destruct (0 <? ctl_size b).
      - apply (sets_errno_pwrite_buffer _ _ _ _ _ _ _ W3). exact Hm1.
      - apply ret_inv in W3 as [W3 _]. injection W3 as W3. lia. }
    apply io_error_nonzero in H as [Hnz _]; [ | exact Hx ]. contradiction. }
  apply neq_false in Hn3. subst n3.
  assert (Hoff3 : 0 < ctl_size b ->
                  (if 0 <? ctl_size b
                   then (if 0 <? ctl_meta_size b then pos + sizeof_record_hdr else pos)
                        + ctl_meta_size b
                   else if 0 <? ctl_meta_size b then pos + sizeof_record_hdr else pos)
                  = pos + Z.of_nat (length (encode_record_hdr rhdr
                                            ++ taken (ctl_meta b) (ctl_meta_size b)))).
  { intros Hlt. specialize (Hboth Hlt).
    apply Z.ltb_lt in Hlt, Hboth. rewrite Hlt, Hboth.
    rewrite length_app. lia. }
  pose proof (payload_write_ok _ _ _ _ pos _ _ _ _ Hsize Hpos0 Hoff3 W2f W3)
    as (W3c & W3d & W3l & W3len & W3f).
  clear W3.
  step H as err2 m10 D.
  assert (Hd : bcfg m10 = bcfg m9 /\ w_file (os m10) = w_file (os m9)
               /\ w_fds (os m10) = w_fds (os m9) /\ w_lock (os m10) = w_lock (os m9)).
  { destruct (nez (Z.land _ EBLOB_BINLOG_FLAGS_CFG_SYNC)).
    - apply ret_inv in D as [_ ->]. auto.
    - apply quiet_binlog_datasync in D. exact D. }
  clear D. destruct Hd as (Dc & Df & Dd & Dl).
  destruct (nez err2) eqn:Herr2.
  { apply ret_inv in H as [H _]. apply nez_true in Herr2. congruence. }
  step H as c2 m11 G; by_state G.
  step H as u4 m12 G; by_state G.
  apply ret_inv in H as [_ ->]. simpl.
  split; [exact Hpos0 | ].
  split; [congruence | ]. split; [congruence | ].
  split; [exact W2len | ]. split; [exact W3len | ].
  split.
  { assert (Hfd : cfg_fd (bcfg m6) = cfg_fd (bcfg m1)).
    { rewrite Xc. unfold after_extension. destruct (_ >=? _); [apply extended_fd | reflexivity]. }
    rewrite <- Hfd. unfold is_open in *. rewrite Dd, W3d, W2d. exact W1open. }
  exists k. split; [exact Xk0 | ]. rewrite Df, W3f, <- app_assoc. reflexivity.
Qed.

Lemma length_file_range w off len :
  (length (file_range w off len) <= Z.to_nat len)%nat.
Proof. unfold file_range. rewrite length_firstn. lia. Qed.

(** A range of the file is its first part followed by the rest. *)
Lemma file_range_split w off a b :
  0 <= off -> 0 <= a -> 0 <= b ->
  file_range w off (a + b) = file_range w off a ++ file_range w (off + a) b.
Proof.
  intros Hoff Ha Hb. unfold file_range.
  replace (Z.to_nat (a + b)) with (Z.to_nat a + Z.to_nat b)%nat by lia.
  replace (Z.to_nat (off + a)) with (Z.to_nat off + Z.to_nat a)%nat by lia.
  apply firstn_skipn_add.
Qed.

Lemma file_range_app w off (xs ys : list byte) :
  0 <= off ->
  file_range w off (Z.of_nat (length xs) + Z.of_nat (length ys)) = xs ++ ys ->
  file_range w off (Z.of_nat (length xs)) = xs
  /\ file_range w (off + Z.of_nat (length xs)) (Z.of_nat (length ys)) = ys.
Proof.
  intros Hoff H. rewrite file_range_split in H by lia.
  pose proof (length_file_range w off (Z.of_nat (length xs))) as H1.
  pose proof (length_file_range w (off + Z.of_nat (length xs)) (Z.of_nat (length ys))) as H2.
  pose proof (f_equal (@length byte) H) as Hl. rewrite !length_app in Hl.
  apply app_eq_by_length in H; [exact H | lia].
Qed.

(** The bytes of the file after a successful [binlog_append]. *)
Lemma binlog_append_written rhdr0 b m m' :
  binlog_append rhdr0 (Some b) m = (Val 0, m') ->
  0 <= ctl_size b -> 0 <= ctl_meta_size b ->
  (0 < ctl_size b -> 0 < ctl_meta_size b) ->
  let pos := cfg_binlog_position (bcfg m) in
  exists key,
    ctl_key b = Some key
    /\ file_range (os m') pos (record_len b)
       = encode_record_hdr (mk_rhdr (ctl_type b) (ctl_meta_size b + ctl_size b)
                                    (rh_meta_size rhdr0) (ctl_flags b) key)
         ++ taken (ctl_meta b) (ctl_meta_size b)
         ++ taken (ctl_data b) (ctl_size b)
    /\ (forall off len,
          0 <= off -> 0 <= len -> off + len <= pos -> off + len <= file_size (os m) ->
          file_range (os m') off len = file_range (os m) off len)
    /\ w_fds (os m') = w_fds (os m) /\ w_lock (os m') = w_lock (os m).
Proof.
  intros H Hsize Hmeta Hboth. cbv zeta.
  destruct (binlog_append_ok _ _ _ _ H Hsize Hmeta Hboth)
    as (key & Hkey & Hpos & Hd & Hl & Mlen & Dlen & _ & k & _ & Hf).
  exists key. split; [exact Hkey | ].
  pose proof (encode_record_hdr_length
                (mk_rhdr (ctl_type b) (ctl_meta_size b + ctl_size b)
                         (rh_meta_size rhdr0) (ctl_flags b) key)) as Hlen.
  assert (Hb : file_bytes (os m')
               = write_at (file_bytes (os m) ++ zeros k)
                   (Z.to_nat (cfg_binlog_position (bcfg m)))
                   (encode_record_hdr
                      (mk_rhdr (ctl_type b) (ctl_meta_size b + ctl_size b)
                               (rh_meta_size rhdr0) (ctl_flags b) key)
                    ++ taken (ctl_meta b) (ctl_meta_size b)
                    ++ taken (ctl_data b) (ctl_size b)))
    by (unfold file_bytes at 1; rewrite Hf; reflexivity).
  split; [ | split; [ | split; assumption ] ].
  - unfold file_range. rewrite Hb.
    replace (Z.to_nat (record_len b))
      with (length (encode_record_hdr
                      (mk_rhdr (ctl_type b) (ctl_meta_size b + ctl_size b)
                               (rh_meta_size rhdr0) (ctl_flags b) key)
                    ++ taken (ctl_meta b) (ctl_meta_size b)
                    ++ taken (ctl_data b) (ctl_size b))).
    + apply write_at_same.
    + unfold record_len. rewrite !length_app. lia.
  - intros off len Hoff Hlen0 Hbefore Hin. unfold file_range. rewrite Hb.
    unfold file_size in Hin.
    rewrite write_at_prefix by (rewrite ?length_app; lia).
    apply firstn_skipn_app_l. lia.
Qed.

(** X18.  A successful [binlog_append] of a record with metadata, or with no
    payload at all, leaves at the write cursor the record header, then the
    metadata, then the data: [record_len] bytes in all.  The header's
    [meta_size] is the one the stack held.  What the file held before the
    cursor is as it was, and so are the descriptors and the lock. *)
Theorem binlog_append_layout rhdr0 b m m' :
  binlog_append rhdr0 (Some b) m = (Val 0, m') ->
  0 <= ctl_size b -> 0 <= ctl_meta_size b ->
  (0 < ctl_size b -> 0 < ctl_meta_size b) ->
  let pos := cfg_binlog_position (bcfg m) in
  exists key,
    ctl_key b = Some key
    /\ file_range (os m') pos (record_len b)
       = encode_record_hdr (mk_rhdr (ctl_type b) (ctl_meta_size b + ctl_size b)
                                    (rh_meta_size rhdr0) (ctl_flags b) key)
         ++ taken (ctl_meta b) (ctl_meta_size b)
         ++ taken (ctl_data b) (ctl_size b)
    /\ (forall off len,
          0 <= off -> 0 <= len -> off + len <= pos -> off + len <= file_size (os m) ->
          file_range (os m') off len = file_range (os m) off len)
    /\ w_fds (os m') = w_fds (os m) /\ w_lock (os m') = w_lock (os m).
Proof. exact (binlog_append_written rhdr0 b m m'). Qed.

(** X19.  In a build with assertions, a record is appended only if its type lies
    strictly between the sentinels and its flags are zero, on a handle
    with a descriptor and a write cursor past the start of the file. *)
Theorem binlog_append_verified rhdr0 b m m' :
  NDEBUG = false ->
  binlog_append rhdr0 (Some b) m = (Val 0, m') ->
  EBLOB_BINLOG_TYPE_FIRST < ctl_type b < EBLOB_BINLOG_TYPE_LAST
  /\ ctl_flags b = 0
  /\ ctl_key b <> None
  /\ 0 <= cfg_fd (bcfg m)
  /\ 0 < cfg_binlog_position (bcfg m).
Proof.
  unfold binlog_append. intros Hnd H.
  destruct (ctl_cfg b) eqn:Hptr.
  { apply ret_inv in H as [H _]. discriminate. }
  step H as c m1 E; by_state E.
  step H as u1 m2 A1; apply assert_inv in A1 as [-> [[A1 _] | (_ & _ & A1)]];
    [ | discriminate ].
  step H as u2 m3 A2; apply assert_inv in A2 as [-> [[A2 _] | (_ & _ & A2)]];
    [ | discriminate ].
  rewrite Hnd in A1, A2. simpl in A1, A2.
  apply Z.leb_le in A1. apply Z.ltb_lt in A2.
  step H as err m4 X. clear X.
  destruct (nez err) eqn:Herr.
  { apply ret_inv in H as [H _]. apply nez_true in Herr. congruence. }
  destruct (ctl_key b) as [key | ]; [ | discriminate ].
  step H as u3 m5 A3; apply assert_inv in A3 as [-> [[A3 _] | (_ & _ & A3)]];
    [ | discriminate ].
  rewrite Hnd in A3. simpl in A3. apply Z.eqb_eq in A3.
  apply binlog_verify_record_hdr_ok in A3 as [Hty Hfl]. simpl in Hty, Hfl.
  clear H. repeat split; try assumption; try lia. discriminate.
Qed.

(** X20.  A record appended and then read at the offset it was appended at,
    the record ending below 2^63: type, flags and key come back, and the
    payload buffer is the metadata followed by the data; but the metadata
    size that comes back is the one the stack of [binlog_append] held,
    brought to [ssize_t], the size is the payload's size minus the stack's
    value in 64 bits, and the data starts that many bytes into the
    payload.  When the stack held the record's own metadata size, sizes,
    metadata and data come back as appended. *)
Theorem binlog_append_read_back rhdr0 b key m m1 c d m2 :
  binlog_append rhdr0 (Some b) m = (Val 0, m1) ->
  0 <= ctl_size b -> 0 <= ctl_meta_size b ->
  (0 < ctl_size b -> 0 < ctl_meta_size b) ->
  cfg_binlog_position (bcfg m) + record_len b <= OFF_MAX ->
  ctl_key b = Some key ->
  (let rhdr := mk_rhdr (ctl_type b) (ctl_meta_size b + ctl_size b)
                       (rh_meta_size rhdr0) (ctl_flags b) key in
   decode_record_hdr (encode_record_hdr rhdr) = rhdr) ->
  binlog_read (Some c) (cfg_binlog_position (bcfg m)) m1 = (Val (0, Some d), m2) ->
  let payload := taken (ctl_meta b) (ctl_meta_size b) ++ taken (ctl_data b) (ctl_size b) in
  ctl_type d = ctl_type b
  /\ ctl_flags d = ctl_flags b
  /\ ctl_key d = Some key
  /\ ctl_meta_size d = to_ssize_t (rh_meta_size rhdr0)
  /\ ctl_size d = to_ssize_t (ctl_meta_size b + ctl_size b - rh_meta_size rhdr0)
  /\ (0 < ctl_meta_size b -> 0 < ctl_meta_size d -> ctl_meta d = Some payload)
  /\ (0 < ctl_meta_size b -> 0 < ctl_size d ->
      0 <= ctl_meta_size d <= ctl_meta_size b + ctl_size b ->
      ctl_data d = Some (skipn (Z.to_nat (ctl_meta_size d)) payload))
  /\ (rh_meta_size rhdr0 = ctl_meta_size b -> 0 < ctl_size b ->
      ctl_meta_size d = ctl_meta_size b
      /\ ctl_size d = ctl_size b
      /\ ctl_meta d = Some payload
      /\ ctl_data d = Some (taken (ctl_data b) (ctl_size b))).
Proof.
  intros H Hsize Hmeta Hboth Hmax Hkey Hcodec R. cbv zeta in *.
  destruct (binlog_append_written _ _ _ _ H Hsize Hmeta Hboth)
    as (key' & Hkey' & Hrange & _).
  rewrite Hkey in Hkey'. injection Hkey' as <-.
  destruct (binlog_append_ok _ _ _ _ H Hsize Hmeta Hboth)
    as (_ & _ & Hpos & _ & _ & Mlen & Dlen & _ & _).
  pose proof sizeof_record_hdr_pos as Hrpos.
  set (rhdr := mk_rhdr (ctl_type b) (ctl_meta_size b + ctl_size b)
                       (rh_meta_size rhdr0) (ctl_flags b) key) in *.
  set (pos := cfg_binlog_position (bcfg m)) in *.
  set (M := taken (ctl_meta b) (ctl_meta_size b)) in *.
  set (D := taken (ctl_data b) (ctl_size b)) in *.
  pose proof (encode_record_hdr_length rhdr) as Hlen.
  assert (HMD : Z.of_nat (length (M ++ D)) = ctl_meta_size b + ctl_size b)
    by (rewrite length_app; lia).
  unfold record_len in Hrange, Hmax.
  replace (sizeof_record_hdr + ctl_meta_size b + ctl_size b)
    with (Z.of_nat (length (encode_record_hdr rhdr)) + Z.of_nat (length (M ++ D)))
    in Hrange by lia.
  apply file_range_app in Hrange as [Hhdr Hpay]; [ | exact Hpos ].
  rewrite Hlen in Hhdr, Hpay. rewrite HMD in Hpay.
  assert (Hs1 : to_ssize_t (ctl_meta_size b + ctl_size b) = ctl_meta_size b + ctl_size b)
    by (apply to_ssize_t_small; unfold OFF_MAX in *; lia).
  assert (Ho1 : to_off_t (pos + sizeof_record_hdr) = pos + sizeof_record_hdr)
    by (apply to_off_t_small; unfold OFF_MAX in *; lia).
  apply binlog_read_ok in R. cbv zeta in R.
  rewrite Hhdr, Hcodec in R. unfold rhdr in R.
  cbn [rh_type rh_size rh_meta_size rh_flags rh_key] in R.
  rewrite Hs1, Ho1, Hpay in R.
  destruct R as (_ & _ & Rty & Rfl & Rkey & Rms & Rsz & _ & Rmeta & Rdata & _).
  split; [exact Rty | ]. split; [exact Rfl | ]. split; [exact Rkey | ].
  split; [exact Rms | ]. split; [exact Rsz | ].
  split; [intros Hb Hd; apply Rmeta; [lia | exact Hd] | ].
  split; [intros Hb Hd Hin; apply Rdata; [lia | exact Hd | exact Hin] | ].
  intros Hstack Hpos_size. specialize (Hboth Hpos_size).
  assert (Hm : ctl_meta_size d = ctl_meta_size b).
  { rewrite Rms, Hstack. apply to_ssize_t_small. unfold OFF_MAX in *. lia. }
  assert (Hd : ctl_size d = ctl_size b).
  { rewrite Rsz, Hstack.
    replace (ctl_meta_size b + ctl_size b - ctl_meta_size b) with (ctl_size b) by lia.
    apply to_ssize_t_small. unfold OFF_MAX in *. lia. }
  split; [exact Hm | ]. split; [exact Hd | ].
  split; [apply Rmeta; lia | ].
  rewrite Rdata by lia. rewrite Hm.
  replace (Z.to_nat (ctl_meta_size b)) with (length M) by lia.
  rewrite skipn_app, Nat.sub_diag, skipn_all. reflexivity.
Qed.

(** *** Recovery after an append *)

Lemma calm_assert e : preserves calm (assert e).
Proof. unfold assert. calm_tac. Qed.

Lemma calm_io_error n : preserves calm (io_error n).
Proof. unfold io_error. calm_tac. Qed.

#[local] Hint Resolve calm_assert calm_io_error : quiet.

Lemma calm_binlog_extend fd : preserves calm (binlog_extend fd).
Proof. unfold binlog_extend. calm_tac. Qed.

Lemma calm_pwrite_buffer fd p n off : preserves calm (pwrite_buffer fd p n off).
Proof. unfold pwrite_buffer. calm_tac. Qed.

#[local] Hint Resolve calm_binlog_extend calm_pwrite_buffer : quiet.

Lemma calm_binlog_append rhdr0 b : preserves calm (binlog_append rhdr0 b).
Proof. unfold binlog_append. calm_tac. Qed.

(** With no fault to inject, on an open descriptor, a header read changes
    nothing and is decided by the bytes at the offset. *)
Lemma binlog_read_record_hdr_run off m :
  w_script (os m) = [] ->
  0 <= cfg_fd (bcfg m) -> 0 < off ->
  is_open (cfg_fd (bcfg m)) (os m) = true ->
  binlog_read_record_hdr off m
  = (Val (let bs := file_range (os m) off sizeof_record_hdr in
          if neq (Z.of_nat (length bs)) sizeof_record_hdr then inl (- EINTR)
          else if nez (binlog_verify_record_hdr (decode_record_hdr bs))
               then inl (binlog_verify_record_hdr (decode_record_hdr bs))
               else inr (decode_record_hdr bs)), m).
Proof.
  intros Hs Hfd Hoff Hopen.
  destruct m as [c [f d l e s]]. simpl in *. subst s.
  unfold binlog_read_record_hdr, bind, get_bcfg, assert. simpl.
  apply Z.leb_le in Hfd. rewrite Hfd, orb_true_r.
  pose proof Hoff as Hoff'. apply Z.ltb_lt in Hoff'. rewrite Hoff', orb_true_r.
  unfold sys_pread, pop_fault, get_os, bind, ret. simpl.
  rewrite Hopen.
  destruct (Z.ltb_spec off 0) as [? | _]; [lia | ].
  simpl. unfold file_range, file_bytes. simpl.
  destruct (neq _ _) eqn:Hlen.
  - unfold io_error, get_os, bind, ret. simpl.
    destruct (Z.eqb_spec (Z.of_nat (length (firstn (Z.to_nat sizeof_record_hdr)
                                              (skipn (Z.to_nat off)
                                                 match f with Some bs => bs | None => [] end))))
                         (-1)) as [? | _]; [lia | reflexivity].
  - destruct (nez _); reflexivity.
Qed.

(** A scan that reaches [pos] is repeated, as far as [pos], on any machine
    without faults that holds the same bytes before [pos]. *)
Lemma scan_transfer m lsn m1 pos :
  scan m lsn m1 pos ->
  forall m' m2 lsn',
    agree pos m m' ->
    w_script (os m') = [] ->
    0 <= cfg_fd (bcfg m') -> is_open (cfg_fd (bcfg m')) (os m') = true ->
    0 < lsn ->
    scan m' pos m2 lsn' -> scan m' lsn m2 lsn'.
Proof.
  induction 1 as [m lsn err m1 R | m lsn rhdr m1 m2 pos R S IH];
    intros m' m3 lsn' Hag Hs Hfd Hopen Hlsn Hrest; [exact Hrest | ].
  pose proof (scan_lower _ _ _ _ S) as Hlow.
  apply binlog_read_record_hdr_ok in R as (Rh & Rty & Rfl & _ & Rin & Ru).
  pose proof sizeof_record_hdr_pos as Hpos.
  pose proof (decode_record_hdr_size (file_range (os m) lsn sizeof_record_hdr)) as Hsz.
  rewrite <- Rh in Hsz.
  assert (Hrange : file_range (os m') lsn sizeof_record_hdr
                   = file_range (os m) lsn sizeof_record_hdr)
    by (apply Hag; lia).
  eapply scan_next.
  - rewrite binlog_read_record_hdr_run by assumption. cbv zeta.
    rewrite Hrange, length_file_range_full by lia.
    assert (Hn : neq sizeof_record_hdr sizeof_record_hdr = false)
      by (apply neq_false; reflexivity).
    rewrite Hn, <- Rh.
    assert (Hv : binlog_verify_record_hdr rhdr = 0)
      by (apply binlog_verify_record_hdr_ok; auto).
    rewrite Hv. reflexivity.
  - apply (IH m' m3 lsn'); try assumption; try lia.
    intros off len H1 H2 H3 H4. rewrite (untouched_file_size _ _ Ru) in H4.
    rewrite (untouched_file_range _ _ _ _ Ru). apply Hag; assumption.
Qed.

(** X21.  Recovery finds the record appended.  On a log without faults whose
    write cursor is where the scan of its record headers stops, and whose
    file does not reach past the record to come, a successful
    [binlog_append] (of a record with metadata, or with no payload: the
    other records overwrite their header) leaves a log on which
    [binlog_get_next_lsn] returns the new write cursor.  The check of the
    header must pass, the header must be read as it was written; PREALLOC
    is off; the new cursor fits [off_t]. *)
Theorem binlog_append_recovered rhdr0 b key m m0 m' :
  w_script (os m) = [] ->
  0 <= cfg_fd (bcfg m) ->
  scan m sizeof_disk_hdr m0 (cfg_binlog_position (bcfg m)) ->
  file_size (os m) <= cfg_binlog_position (bcfg m) + record_len b ->
  cfg_binlog_position (bcfg m) + record_len b <= OFF_MAX ->
  nez (Z.land (cfg_flags (bcfg m)) EBLOB_BINLOG_FLAGS_CFG_PREALLOC) = false ->
  0 <= ctl_size b -> 0 <= ctl_meta_size b ->
  (0 < ctl_size b -> 0 < ctl_meta_size b) ->
  ctl_key b = Some key ->
  EBLOB_BINLOG_TYPE_FIRST < ctl_type b < EBLOB_BINLOG_TYPE_LAST ->
  ctl_flags b = 0 ->
  (let rhdr := mk_rhdr (ctl_type b) (ctl_meta_size b + ctl_size b)
                       (rh_meta_size rhdr0) (ctl_flags b) key in
   decode_record_hdr (encode_record_hdr rhdr) = rhdr) ->
  binlog_append rhdr0 (Some b) m = (Val 0, m') ->
  binlog_get_next_lsn m' = (Val (cfg_binlog_position (bcfg m')), m')
  /\ cfg_binlog_position (bcfg m') = cfg_binlog_position (bcfg m) + record_len b.
Proof.
  intros Hs Hfd Hscan Hend Hmax Hpre Hsize Hmeta Hboth Hkey Hty Hfl Hcodec H. cbv zeta in *.
  pose proof (calm_binlog_append _ _ _ _ _ H Hs) as Hs'.
  pose proof (binlog_append_success _ _ _ _ H) as Hcur.
  pose proof (scan_lower _ _ _ _ Hscan) as Hlow.
  pose proof sizeof_disk_hdr_pos as Hdpos.
  pose proof sizeof_record_hdr_pos as Hrpos.
  destruct (binlog_append_written _ _ _ _ H Hsize Hmeta Hboth)
    as (key' & Hkey' & Hrange & Hprefix & _).
  rewrite Hkey in Hkey'. injection Hkey' as <-.
  destruct (binlog_append_ok _ _ _ _ H Hsize Hmeta Hboth)
    as (key' & Hkey' & _ & _ & _ & Mlen & Dlen & Hopen & k & Hk & Hf).
  rewrite Hkey in Hkey'. injection Hkey' as <-.
  rewrite (Hk Hpre) in Hf. cbn [zeros repeat] in Hf. rewrite app_nil_r in Hf.
  assert (Hfd' : cfg_fd (bcfg m') = cfg_fd (bcfg m)).
  { apply binlog_append_inv in H as [(_ & _ & E) | [(N & _) | (N & _)]];
      [ | congruence .. ].
    rewrite E. simpl. unfold after_extension.
    destruct (_ >=? _); [apply extended_fd | reflexivity]. }
  set (rhdr := mk_rhdr (ctl_type b) (ctl_meta_size b + ctl_size b)
                       (rh_meta_size rhdr0) (ctl_flags b) key) in *.
  set (pos := cfg_binlog_position (bcfg m)) in *.
  set (M := taken (ctl_meta b) (ctl_meta_size b)) in *.
  set (D := taken (ctl_data b) (ctl_size b)) in *.
  pose proof (encode_record_hdr_length rhdr) as Hlen.
  assert (HMD : Z.of_nat (length (M ++ D)) = ctl_meta_size b + ctl_size b)
    by (rewrite length_app; lia).
  (* the file ends with the record *)
  assert (Hsize' : file_size (os m') = pos + record_len b).
  { unfold file_size, file_bytes at 1. rewrite Hf, length_write_at.
    unfold file_size in Hend. unfold record_len in *. rewrite !length_app. lia. }
  (* the header of the record is at the old cursor *)
  unfold record_len in Hrange.
  replace (sizeof_record_hdr + ctl_meta_size b + ctl_size b)
    with (Z.of_nat (length (encode_record_hdr rhdr)) + Z.of_nat (length (M ++ D)))
    in Hrange by lia.
  apply file_range_app in Hrange as [Hhdr _]; [ | lia ].
  rewrite Hlen in Hhdr.
  assert (Hv : binlog_verify_record_hdr rhdr = 0)
    by (apply binlog_verify_record_hdr_ok; auto).
  rewrite <- Hfd' in Hfd, Hopen.
  (* the scan from the old cursor *)
  assert (Snew : scan m' pos m' (pos + record_len b)).
  { eapply scan_next.
    - rewrite binlog_read_record_hdr_run by (try assumption; lia). cbv zeta.
      rewrite Hhdr, Hlen, Hcodec, Hv.
      assert (Hn : neq sizeof_record_hdr sizeof_record_hdr = false)
        by (apply neq_false; reflexivity).
      rewrite Hn. reflexivity.
    - replace (pos + (sizeof_record_hdr + rh_size rhdr)) with (pos + record_len b)
        by (unfold record_len; simpl; lia).
      eapply scan_stop.
      rewrite binlog_read_record_hdr_run by (try assumption; unfold record_len; lia).
      cbv zeta.
      rewrite file_range_past by (unfold record_len in *; lia).
      simpl length.
      assert (Hn : neq (Z.of_nat 0) sizeof_record_hdr = true)
        by (apply neq_true; simpl; lia).
      rewrite Hn. reflexivity. }
  (* and from the start of the log *)
  assert (Sall : scan m' sizeof_disk_hdr m' (pos + record_len b)).
  { apply (scan_transfer _ _ _ _ Hscan); first [assumption | lia]. }
  rewrite Hcur. split; [ | reflexivity ].
  apply binlog_get_next_lsn_follows; [exact Sall | exact Hmax].
Qed.

(** *** Runs without faults *)

Lemma encode_disk_hdr_cons d : exists b bs, encode_disk_hdr d = b :: bs.
Proof.
  pose proof (encode_disk_hdr_length d) as H. pose proof sizeof_disk_hdr_pos.
  destruct (encode_disk_hdr d) as [ | b bs]; [simpl in H; lia | eauto].
Qed.


Lemma assert_true e m : e = true -> assert e m = (Val tt, m).
Proof. intros ->. unfold assert. rewrite orb_true_r. reflexivity. Qed.

Lemma neq_refl z : neq z z = false.
Proof. apply neq_false. reflexivity. Qed.

(** Writing a header that passes the check, on an open descriptor. *)
Lemma binlog_hdr_write_run fd d m :
  w_script (os m) = [] -> is_open fd (os m) = true ->
  0 <= fd -> binlog_verify_hdr d = 0 ->
  binlog_hdr_write fd (Some d) m
  = (Val 0, mk_machine (bcfg m)
              (set_file (Some (write_at (file_bytes (os m)) 0 (encode_disk_hdr d))) (os m))).
Proof.
  intros Hs Hopen Hfd Hver. unfold binlog_hdr_write.
  destruct (Z.ltb_spec fd 0) as [? | _]; [lia | ].
  rewrite (bind_val _ _ _ _ _ (assert_true _ _ (proj2 (Z.eqb_eq _ _) Hver))).
  destruct (encode_disk_hdr_cons d) as (b & bs & Henc).
  pose proof (encode_disk_hdr_length d) as Hlen.
  rewrite Henc in *.
  rewrite (bind_val _ _ _ _ _ (sys_pwrite_all fd b bs 0 m Hs Hopen (Z.le_refl 0))).
  rewrite Hlen, neq_refl.
  unfold binlog_datasync.
  erewrite bind_val; [ | apply fd_call_ok; [exact Hs | exact Hopen] ].
  reflexivity.
Qed.

(** Reading the header of a file that starts with one that passes the
    check. *)
Lemma binlog_hdr_read_run fd m :
  w_script (os m) = [] -> is_open fd (os m) = true -> 0 <= fd ->
  sizeof_disk_hdr <= file_size (os m) ->
  binlog_verify_hdr (decode_disk_hdr (file_range (os m) 0 sizeof_disk_hdr)) = 0 ->
  binlog_hdr_read fd m
  = (Val (inr (decode_disk_hdr (file_range (os m) 0 sizeof_disk_hdr))), m).
Proof.
  intros Hs Hopen Hfd Hsize Hver. unfold binlog_hdr_read.
  rewrite (bind_val _ _ _ _ _ (assert_true _ _ (proj2 (Z.leb_le _ _) Hfd))).
  pose proof sizeof_disk_hdr_pos as Hdpos.
  rewrite (bind_val _ _ _ _ _ (sys_malloc_ok _ _ Hs (Z.lt_le_incl _ _ Hdpos))). cbn [negb].
  rewrite (bind_val _ _ _ _ _ (sys_pread_ok fd _ 0 _ Hs Hopen (Z.le_refl 0))).
  cbn [fst snd].
  pose proof sizeof_disk_hdr_pos.
  rewrite length_file_range_full by lia.
  rewrite neq_refl. cbv zeta. rewrite Hver. reflexivity.
Qed.

(** On a log that holds nothing after the disk header, the scan stops at
    once. *)
Lemma binlog_get_next_lsn_empty m :
  w_script (os m) = [] -> is_open (cfg_fd (bcfg m)) (os m) = true ->
  0 <= cfg_fd (bcfg m) ->
  file_size (os m) <= sizeof_disk_hdr ->
  binlog_get_next_lsn m = (Val sizeof_disk_hdr, m).
Proof.
  intros Hs Hopen Hfd Hsize.
  pose proof sizeof_disk_hdr_pos as Hd. pose proof sizeof_record_hdr_pos as Hr.
  unfold binlog_get_next_lsn, bind at 1, get_os at 1.
  cbn [get_next_lsn_loop].
  rewrite (bind_val _ _ _ _ _ (binlog_read_record_hdr_run _ _ Hs Hfd Hd Hopen)).
  cbv zeta. rewrite file_range_past by lia. cbn [length].
  assert (Hn : neq (Z.of_nat 0) sizeof_record_hdr = true) by (apply neq_true; simpl; lia).
  rewrite Hn. reflexivity.
Qed.

(** Creating the log on a disk without it. *)
Lemma binlog_create_run c l e :
  nez (Z.land (cfg_flags c) EBLOB_BINLOG_FLAGS_CFG_PREALLOC) = false ->
  binlog_verify_hdr (mk_dhdr fresh_magic EBLOB_BINLOG_VERSION (cfg_flags c)) = 0 ->
  binlog_create (mk_machine c (mk_world None l Unlocked e []))
  = (Val 0, mk_machine c
              (mk_world (Some (encode_disk_hdr
                                 (mk_dhdr fresh_magic EBLOB_BINLOG_VERSION (cfg_flags c))))
                        l Unlocked e [])).
Proof.
  intros Hpre Hver.
  unfold binlog_create.
  rewrite (bind_val _ _ _ _ _ (sys_open_creates false c l Unlocked e)).
  pose proof (fresh_fd_pos l) as Hfd.
  destruct (Z.eqb_spec (fresh_fd l) (-1)) as [? | _]; [lia | ].
  unfold binlog_extend at 1.
  unfold bind at 1. unfold get_bcfg at 1. cbn [bcfg].
  unfold bind at 1. cbn [bcfg]. rewrite Hpre. cbn [ret nez Z.eqb negb].
  unfold bind at 1. unfold get_bcfg at 1. cbn [bcfg].
  assert (Hfd0 : 0 <= fresh_fd l) by lia.
  erewrite bind_val;
    [ | apply binlog_hdr_write_run;
        [reflexivity | apply (is_open_head _ l); reflexivity | exact Hfd0 | exact Hver] ].
  os_norm. rewrite write_at_empty.
  rewrite (bind_val _ _ _ _ _ (sys_close_fresh c _ l e)).
  reflexivity.
Qed.

Lemma binlog_open_run c l e :
  cfg_fd c = -1 ->
  nez (Z.land (cfg_flags c) EBLOB_BINLOG_FLAGS_CFG_PREALLOC) = false ->
  binlog_verify_hdr (mk_dhdr fresh_magic EBLOB_BINLOG_VERSION (cfg_flags c)) = 0 ->
  decode_disk_hdr (encode_disk_hdr (mk_dhdr fresh_magic EBLOB_BINLOG_VERSION (cfg_flags c)))
  = mk_dhdr fresh_magic EBLOB_BINLOG_VERSION (cfg_flags c) ->
  binlog_open HANDLE (mk_machine c (mk_world None l Unlocked e []))
  = (Val 0,
     mk_machine
       (mk_cfg (fresh_fd l) (cfg_flags c) sizeof_disk_hdr sizeof_disk_hdr
               (cfg_prealloc_step c)
               (Some (mk_dhdr fresh_magic EBLOB_BINLOG_VERSION (cfg_flags c))))
       (mk_world (Some (encode_disk_hdr
                          (mk_dhdr fresh_magic EBLOB_BINLOG_VERSION (cfg_flags c))))
                 (fresh_fd l :: l) (LockedBy (fresh_fd l)) e [])).
Proof.
  intros Hfd Hpre Hver Hcodec.
  set (dhdr := mk_dhdr fresh_magic EBLOB_BINLOG_VERSION (cfg_flags c)) in *.
  pose proof (fresh_fd_pos l) as Hfresh.
  pose proof sizeof_disk_hdr_pos as Hdpos.
  pose proof (encode_disk_hdr_length dhdr) as Hlen.
  assert (Hfd0 : 0 <= fresh_fd l) by lia.
  unfold binlog_open.
  unfold bind at 1, get_bcfg at 1. cbn [bcfg].
  rewrite (bind_val _ _ _ _ _ (assert_true _ _ (proj2 (Z.eqb_eq _ _) Hfd))).
  rewrite (bind_val _ _ _ _ _ (binlog_create_run c l e Hpre Hver)).
  fold dhdr.
  cbn [nez Z.eqb negb andb].
  unfold bind at 1, get_bcfg at 1. cbn [bcfg].
  rewrite (bind_val _ _ _ _ _ (sys_open_opens _ c _ l Unlocked e)).
  destruct (Z.eqb_spec (fresh_fd l) (-1)) as [? | _]; [lia | ].
  erewrite bind_val;
    [ | apply sys_flock_ex_nb_free;
        [reflexivity | apply (is_open_head _ l); reflexivity | reflexivity] ].
  os_norm. cbn [Z.eqb].
  (* the truncation, if asked for, leaves the header as it is *)
  assert (Htr : (if nez (Z.land (cfg_flags c) EBLOB_BINLOG_FLAGS_CFG_TRUNCATE)
                 then sys_ftruncate (fresh_fd l) sizeof_disk_hdr else ret 0)
                  (mk_machine c (mk_world (Some (encode_disk_hdr dhdr)) (fresh_fd l :: l)
                                          (LockedBy (fresh_fd l)) e []))
                = (Val 0,
                   mk_machine c (mk_world (Some (encode_disk_hdr dhdr)) (fresh_fd l :: l)
                                          (LockedBy (fresh_fd l)) e []))).
  { destruct (nez (Z.land (cfg_flags c) EBLOB_BINLOG_FLAGS_CFG_TRUNCATE)); [ | reflexivity ].
    rewrite sys_ftruncate_to;
      [ | reflexivity | apply (is_open_head _ l); reflexivity | lia ].
    os_norm.
    replace (Z.to_nat sizeof_disk_hdr) with (length (encode_disk_hdr dhdr)) by lia.
    rewrite resize_same. reflexivity. }
  rewrite (bind_val _ _ _ _ _ Htr). clear Htr.
  cbn [Z.eqb].
  unfold bind at 1, put_bcfg at 1. cbn [bcfg os].
  unfold eblob_pagecache_hint.
  erewrite bind_val;
    [ | apply fd_call_ok; [reflexivity | apply (is_open_head _ l); reflexivity] ].
  erewrite bind_val;
    [ | apply sys_fstat_ok; [reflexivity | apply (is_open_head _ l); reflexivity] ].
  cbn [fst snd Z.eqb].
  unfold bind at 1, get_bcfg at 1. cbn [bcfg].
  unfold bind at 1, put_bcfg at 1. cbn [bcfg os].
  assert (Hsize : file_size (mk_world (Some (encode_disk_hdr dhdr)) (fresh_fd l :: l)
                                       (LockedBy (fresh_fd l)) e []) = sizeof_disk_hdr).
  { unfold file_size. os_norm. exact Hlen. }
  assert (Hrange : file_range (mk_world (Some (encode_disk_hdr dhdr)) (fresh_fd l :: l)
                                        (LockedBy (fresh_fd l)) e []) 0 sizeof_disk_hdr
                   = encode_disk_hdr dhdr).
  { unfold file_range. os_norm.
    replace (Z.to_nat sizeof_disk_hdr) with (length (encode_disk_hdr dhdr)) by lia.
    cbn [Z.to_nat skipn]. apply firstn_all. }
  rewrite Hsize.
  erewrite bind_val;
    [ | apply binlog_hdr_read_run;
        [ reflexivity | apply (is_open_head _ l); reflexivity | exact Hfd0
        | cbn [os]; rewrite Hsize; lia | cbn [os]; rewrite Hrange, Hcodec; exact Hver ] ].
  cbn [os]. rewrite Hrange, Hcodec.
  unfold bind at 1, get_bcfg at 1. cbn [bcfg].
  unfold bind at 1, put_bcfg at 1. cbn [bcfg os].
  erewrite bind_val;
    [ | apply binlog_get_next_lsn_empty;
        [ reflexivity | apply (is_open_head _ l); reflexivity | exact Hfd0
        | cbn [os]; rewrite Hsize; lia ] ].
  unfold bind at 1, get_bcfg at 1. cbn [bcfg].
  unfold bind at 1, put_bcfg at 1. cbn [bcfg os].
  reflexivity.
Qed.

(** X22.  A first open.  On a disk without the binlog file, with no fault and
    the lock free, [binlog_open] on an unopened handle returns 0.  It
    leaves the file made of the disk header alone: the magic, the current
    version, the flags of the handle; the handle has the new descriptor,
    which holds the lock, that header, and the write cursor and the
    preallocated size at the end of the header.  (PREALLOC is off; the
    header must pass the check and be read as it was written.) *)
Theorem binlog_open_blank m :
  w_file (os m) = None -> w_lock (os m) = Unlocked -> w_script (os m) = [] ->
  cfg_fd (bcfg m) = -1 ->
  nez (Z.land (cfg_flags (bcfg m)) EBLOB_BINLOG_FLAGS_CFG_PREALLOC) = false ->
  let dhdr := mk_dhdr fresh_magic EBLOB_BINLOG_VERSION (cfg_flags (bcfg m)) in
  let fd := fresh_fd (w_fds (os m)) in
  binlog_verify_hdr dhdr = 0 ->
  decode_disk_hdr (encode_disk_hdr dhdr) = dhdr ->
  binlog_open HANDLE m
  = (Val 0,
     mk_machine
       (mk_cfg fd (cfg_flags (bcfg m)) sizeof_disk_hdr sizeof_disk_hdr
               (cfg_prealloc_step (bcfg m)) (Some dhdr))
       (mk_world (Some (encode_disk_hdr dhdr)) (fd :: w_fds (os m)) (LockedBy fd)
                 (w_errno (os m)) [])).
Proof.
  destruct m as [c [f l lk e s]]. cbn [bcfg os w_file w_fds w_lock w_errno w_script].
  intros -> -> -> Hfd Hpre. cbv zeta. intros Hver Hcodec.
  apply binlog_open_run; assumption.
Qed.



End MoreFacts.


(** ** The code on concrete inputs *)

#[local] Existing Instance Run.asserting.

(** C1 (the code departs from the claim).  A record is appended to a fresh
    log and read back at the offset it was appended at.  With data and no
    metadata, [binlog_append] writes the data at the record's own offset,
    over the header it has just written, and the read fails the header
    check.  With metadata, [binlog_append] never assigns the header's
    [meta_size]: with zeros on the stack, the read returns no metadata, and
    the metadata byte comes back at the head of the data. *)
Theorem binlog_append_read_mismatch :
  let offset := cfg_binlog_position (bcfg Run.opened) in
  fst (binlog_append Run.stack_zero (Some Run.rec_data) Run.opened) = Val 0
  /\ fst (binlog_read (Some Run.blank) offset (Run.after Run.stack_zero Run.rec_data))
     = Val (- EINVAL, Some Run.blank)
  /\ fst (binlog_append Run.stack_zero (Some Run.rec_meta) Run.opened) = Val 0
  /\ fst (binlog_read (Some Run.blank) offset (Run.after Run.stack_zero Run.rec_meta))
     = Val (0, Some (Run.read_back Run.stack_zero Run.rec_meta))
  /\ ctl_meta_size (Run.read_back Run.stack_zero Run.rec_meta) = 0
  /\ ctl_meta (Run.read_back Run.stack_zero Run.rec_meta) = None
  /\ ctl_size (Run.read_back Run.stack_zero Run.rec_meta) = 2
  /\ ctl_data (Run.read_back Run.stack_zero Run.rec_meta) = Some [x6d; x64].
Proof. cbv zeta. repeat split; vm_compute; reflexivity. Qed.

(** C2 (the code departs from the claim).  On a log holding one committed
    record, [binlog_apply] delivers nothing: with assertions on, the
    assertion [binlog_position <= offset] fails; without them,
    [binlog_read] copies the key through the NULL key pointer of the
    zeroed descriptor.  And for a record with one byte of metadata and one
    of data, the step of the loop, [bctl.size + sizeof(rhdr)], is one byte
    short of the record. *)
Theorem binlog_apply_one_record :
  let log := Run.after Run.stack_zero Run.rec_empty in
  fst (binlog_append Run.stack_zero (Some Run.rec_empty) Run.opened) = Val 0
  /\ binlog_apply 1 HANDLE (Some Run.collect) ([], log) = (Crash AssertFailed, ([], log))
  /\ fst (binlog_apply (B := Run.release) 1 HANDLE (Some Run.collect) ([], log))
     = Crash NullDeref
  /\ fst (snd (binlog_apply (B := Run.release) 1 HANDLE (Some Run.collect) ([], log))) = []
  /\ ctl_size (Run.read_back Run.stack_one Run.rec_meta) + sizeof_record_hdr = 97
  /\ record_len Run.rec_meta = 98.
Proof. cbv zeta. repeat split; vm_compute; reflexivity. Qed.

(** C5 (the code departs from the claim).  [binlog_open] on an existing,
    empty file fails at the header read, and on a file with a foreign
    magic at the header check: the descriptor is unlocked and closed, the
    error is returned, and the handle's [fd] is the closed descriptor 3,
    not -1. *)
Theorem binlog_open_failure_keeps_fd :
  let short := binlog_open HANDLE Run.m_empty_file in
  let foreign := binlog_open HANDLE Run.m_foreign_file in
  cfg_fd (bcfg Run.m_empty_file) = -1
  /\ fst short = Val (- EINTR)
  /\ w_fds (os (snd short)) = [] /\ w_lock (os (snd short)) = Unlocked
  /\ cfg_fd (bcfg (snd short)) = 3
  /\ fst foreign = Val (- EINVAL)
  /\ w_fds (os (snd foreign)) = [] /\ w_lock (os (snd foreign)) = Unlocked
  /\ cfg_fd (bcfg (snd foreign)) = 3.
Proof. cbv zeta. repeat split; vm_compute; reflexivity. Qed.

(** C8 (the code departs from the claim).  A successful append of a record
    without payload, with 7 in the stack bytes of [meta_size], leaves a
    header whose size, 0, is below its meta_size, 7; and a successful
    append of a record with one data byte [0xff] and no metadata leaves
    that byte over the header's type, which reads 255. *)
Theorem binlog_append_header_invariant_broken :
  let offset := cfg_binlog_position (bcfg Run.opened) in
  fst (binlog_append Run.stack_seven (Some Run.rec_empty) Run.opened) = Val 0
  /\ fst (binlog_read_record_hdr offset (Run.after Run.stack_seven Run.rec_empty))
     = Val (inr (mk_rhdr 2 0 7 0 Run.key2))
  /\ fst (binlog_append Run.stack_zero (Some Run.rec_data) Run.opened) = Val 0
  /\ rh_type (decode_record_hdr
                (firstn 96 (skipn 20 (file_bytes (os (Run.after Run.stack_zero Run.rec_data))))))
     = 255.
Proof. cbv zeta. repeat split; vm_compute; reflexivity. Qed.

(** C6, as stated, fails: [binlog_open] on the handle of an open log does
    not return [-EINVAL].  With assertions on it aborts; without them it
    goes through the system calls and returns the error of the lock. *)
Lemma binlog_open_twice_no_einval :
  cfg_fd (bcfg Run.opened) <> -1
  /\ fst (binlog_open HANDLE Run.opened) = Crash AssertFailed
  /\ fst (binlog_open (B := Run.release) HANDLE Run.opened) = Val (- EWOULDBLOCK)
  /\ os (snd (binlog_open (B := Run.release) HANDLE Run.opened)) <> os Run.opened.
Proof. repeat split; vm_compute; congruence. Qed.

(** C4, as stated, fails.  On a log whose first record header holds the
    size 2^64 - 106, the chain of the exact sums goes from 20 to 2^64 + 10,
    where no header can be read; the scan of the code, whose offset is an
    [off_t], goes to 10 and stops there, inside the disk header, and
    [binlog_open] succeeds with that write cursor.  With the size
    2^64 - 96 the scan comes back to offset 20 for ever. *)
Lemma binlog_get_next_lsn_wraps :
  0 <= cfg_fd (bcfg Cases.m_back)
  /\ binlog_get_next_lsn Cases.m_back = (Val 10, Cases.m_back)
  /\ scan Cases.m_back sizeof_disk_hdr Cases.m_back (18446744073709551616 + 10)
  /\ ~ (exists lsn m', binlog_get_next_lsn Cases.m_back = (Val lsn, m')
                       /\ scan Cases.m_back sizeof_disk_hdr m' lsn)
  /\ fst (binlog_open HANDLE Cases.m_back_closed) = Val 0
  /\ cfg_binlog_position (bcfg (snd (binlog_open HANDLE Cases.m_back_closed))) = 10
  /\ (forall fuel, fst (get_next_lsn_loop fuel sizeof_disk_hdr Cases.m_again) = OutOfFuel).
Proof.
  assert (G : binlog_get_next_lsn Cases.m_back = (Val 10, Cases.m_back))
    by (vm_compute; reflexivity).
  assert (S : scan Cases.m_back sizeof_disk_hdr Cases.m_back (18446744073709551616 + 10)).
  { apply (scan_next _ _ Cases.hdr_back Cases.m_back); [vm_compute; reflexivity | ].
    apply (scan_stop _ _ (- EINTR)).
    rewrite binlog_read_record_hdr_run;
      [ | reflexivity | vm_compute; discriminate | reflexivity | reflexivity ].
    cbv zeta. rewrite file_range_past; [reflexivity | | ]; vm_compute; discriminate. }
  split; [vm_compute; discriminate | ].
  split; [exact G | ]. split; [exact S | ].
  split.
  { intros (lsn & m' & G' & S').
    destruct (scan_functional _ _ _ _ S _ _ S') as [_ E].
    rewrite G in G'. injection G' as E' _. rewrite <- E' in E. discriminate E. }
  split; [vm_compute; reflexivity | ].
  split; [vm_compute; reflexivity | ].
  assert (R : binlog_read_record_hdr sizeof_disk_hdr Cases.m_again
              = (Val (inr Cases.hdr_again), Cases.m_again)) by (vm_compute; reflexivity).
  assert (E : to_off_t (sizeof_disk_hdr + (rh_size Cases.hdr_again + sizeof_record_hdr))
              = sizeof_disk_hdr) by (vm_compute; reflexivity).
  induction fuel as [ | fuel IH]; [reflexivity | ].
  cbn [get_next_lsn_loop]. rewrite (bind_val _ _ _ _ _ R), E. exact IH.
Qed.


(** A header with a wrong magic and another version gets the code of the
    magic, not the one of the version. *)
Example binlog_verify_hdr_first_failure :
  ~ version_current Run.hdr_bad_magic_version
  /\ binlog_verify_hdr Run.hdr_bad_magic_version = - EINVAL.
Proof. split; vm_compute; congruence. Qed.

(** ** Witnesses *)

Lemma binlog_append_cursor_witness :
  (cfg_binlog_position (bcfg Run.opened) = sizeof_disk_hdr
   /\ appended Run.opened [Run.rec_data; Run.rec_meta] Run.two
   /\ cfg_binlog_position (bcfg Run.two)
      = sizeof_disk_hdr + total_len [Run.rec_data; Run.rec_meta])
  /\ (binlog_append Run.stack_zero (Some Run.rec_data) Run.m_prealloc
      = (Val (- EIO), snd (binlog_append Run.stack_zero (Some Run.rec_data) Run.m_prealloc))
      /\ - EIO <> 0
      /\ cfg_binlog_position
           (bcfg (snd (binlog_append Run.stack_zero (Some Run.rec_data) Run.m_prealloc)))
         = cfg_binlog_position (bcfg Run.m_prealloc))
  /\ (binlog_append Run.stack_zero (Some Run.rec_data) Run.opened = (Val 0, Run.one)
      /\ exists m1 m2,
           append_writes Run.stack_zero Run.rec_data Run.opened = (Val (inr tt), m1)
           /\ append_sync m1 = (Val 0, m2)
           /\ cfg_binlog_position (bcfg m1) = 20
           /\ cfg_binlog_position (bcfg m2) = 20
           /\ cfg_binlog_position (bcfg Run.one) = 117)
  /\ (append_writes Run.stack_zero Run.rec_meta Run.m_sync_fails
      = (Val (inr tt), fst Run.sync_failed)
      /\ append_sync (fst Run.sync_failed) = (Val (- EIO), snd Run.sync_failed)
      /\ binlog_append Run.stack_zero (Some Run.rec_meta) Run.m_sync_fails
         = (Val (- EIO), snd Run.sync_failed)
      /\ cfg_binlog_position (bcfg (snd Run.sync_failed)) = 20).
Proof.
  assert (H0 : cfg_binlog_position (bcfg Run.opened) = sizeof_disk_hdr)
    by (vm_compute; reflexivity).
  assert (H1 : appended Run.opened [Run.rec_data; Run.rec_meta] Run.two).
  { apply (appended_cons _ Run.stack_zero _ Run.one); [vm_compute; reflexivity | ].
    apply (appended_cons _ Run.stack_zero _ Run.two); [vm_compute; reflexivity | ].
    apply appended_nil. }
  assert (H2 : binlog_append Run.stack_zero (Some Run.rec_data) Run.m_prealloc
               = (Val (- EIO),
                  snd (binlog_append Run.stack_zero (Some Run.rec_data) Run.m_prealloc)))
    by (vm_compute; reflexivity).
  assert (H3 : - EIO <> 0) by (vm_compute; discriminate).
  assert (H4 : binlog_append Run.stack_zero (Some Run.rec_data) Run.opened
               = (Val 0, Run.one)) by (vm_compute; reflexivity).
  assert (H5 : append_writes Run.stack_zero Run.rec_meta Run.m_sync_fails
               = (Val (inr tt), fst Run.sync_failed)) by (vm_compute; reflexivity).
  assert (H6 : append_sync (fst Run.sync_failed) = (Val (- EIO), snd Run.sync_failed))
    by (vm_compute; reflexivity).
  destruct binlog_append_cursor as (C1 & C2 & C3 & C4).
  split; [split; [exact H0 | split; [exact H1 | ] ] | ].
  { exact (C1 Run.opened _ Run.two H0 H1). }
  split; [split; [exact H2 | split; [exact H3 | ] ] | ].
  { exact (C2 _ _ _ _ _ H2 H3). }
  split; [split; [exact H4 | ] | ].
  { destruct (C3 _ _ _ _ H4) as (m1 & m2 & W & S & P1 & P2 & E).
    exists m1, m2. split; [exact W | ]. split; [exact S | ].
    split; [rewrite P1; vm_compute; reflexivity | ].
    split; [rewrite P2; vm_compute; reflexivity | ].
    vm_compute. reflexivity. }
  destruct (C4 _ _ _ _ _ _ H5 H6 H3) as [R P].
  split; [exact H5 | ]. split; [exact H6 | ]. split; [exact R | ].
  rewrite P. vm_compute. reflexivity.
Defined.

Lemma binlog_get_next_lsn_scan_witness :
  (binlog_get_next_lsn Cases.m_back = (Val 10, Cases.m_back)
   /\ wrapped_scan Cases.m_back sizeof_disk_hdr Cases.m_back 10)
  /\ (0 <= cfg_fd (bcfg Cases.logged)
      /\ exists lsn m', scan Cases.logged sizeof_disk_hdr m' lsn)
  /\ (scan Cases.logged sizeof_disk_hdr Cases.logged 118
      /\ 118 <= OFF_MAX
      /\ binlog_get_next_lsn Cases.logged = (Val 118, Cases.logged))
  /\ (binlog_open HANDLE Cases.m_logged_closed = (Val 0, Cases.reopened)
      /\ cfg_binlog_position (bcfg Cases.reopened) = 118
      /\ exists m1,
           binlog_get_next_lsn m1
           = (Val (cfg_binlog_position (bcfg Cases.reopened)),
              mk_machine (bcfg m1) (os Cases.reopened))
           /\ bcfg Cases.reopened
              = set_binlog_position (cfg_binlog_position (bcfg Cases.reopened)) (bcfg m1)
           /\ w_file (os m1) = w_file (os Cases.reopened)
           /\ w_fds (os m1) = w_fds (os Cases.reopened)
           /\ w_lock (os m1) = w_lock (os Cases.reopened)
           /\ later Cases.m_logged_closed m1).
Proof.
  assert (H0 : binlog_get_next_lsn Cases.m_back = (Val 10, Cases.m_back))
    by (vm_compute; reflexivity).
  assert (H1 : 0 <= cfg_fd (bcfg Cases.logged)) by (vm_compute; discriminate).
  assert (H2 : scan Cases.logged sizeof_disk_hdr Cases.logged 118).
  { apply (scan_next _ _ Cases.hdr_logged Cases.logged); [vm_compute; reflexivity | ].
    apply (scan_stop _ _ (- EINTR)). vm_compute. reflexivity. }
  assert (H3 : 118 <= OFF_MAX) by (vm_compute; discriminate).
  assert (H4 : binlog_open HANDLE Cases.m_logged_closed = (Val 0, Cases.reopened))
    by (vm_compute; reflexivity).
  assert (H5 : cfg_binlog_position (bcfg Cases.reopened) = 118) by (vm_compute; reflexivity).
  split; [split; [exact H0 | ] | split; [split; [exact H1 | ] | split;
    [split; [exact H2 | split; [exact H3 | ] ] | split; [exact H4 | split; [exact H5 | ] ] ] ] ].
  - exact (proj1 binlog_get_next_lsn_scan _ _ _ H0).
  - exact (proj1 (proj2 binlog_get_next_lsn_scan) _ H1).
  - exact (proj1 (proj2 (proj2 binlog_get_next_lsn_scan)) _ _ _ H2 H3).
  - exact (proj2 (proj2 (proj2 binlog_get_next_lsn_scan)) _ _ H4).
Defined.

Lemma binlog_open_twice_aborts_witness :
  NDEBUG = false /\ cfg_fd (bcfg Run.opened) <> -1
  /\ binlog_open HANDLE Run.opened = (Crash AssertFailed, Run.opened).
Proof.
  assert (H0 : NDEBUG = false) by reflexivity.
  assert (H1 : cfg_fd (bcfg Run.opened) <> -1) by (vm_compute; discriminate).
  split; [exact H0 | split; [exact H1 | ] ].
  exact (binlog_open_twice_aborts Run.opened H0 H1).
Defined.

Lemma binlog_apply_empty_log_witness :
  cfg_binlog_position (bcfg Run.opened) = sizeof_disk_hdr
  /\ binlog_apply 5 HANDLE (Some Run.collect) ([], Run.opened) = (Val 0, ([], Run.opened)).
Proof.
  assert (H0 : cfg_binlog_position (bcfg Run.opened) = sizeof_disk_hdr)
    by (vm_compute; reflexivity).
  split; [exact H0 | ].
  exact (binlog_apply_empty_log 5 Run.collect [] Run.opened H0).
Defined.

Lemma binlog_append_failure_keeps_extension_witness :
  let m := Run.m_prealloc in
  let m1 := snd (binlog_extend (cfg_fd (bcfg m)) m) in
  let m' := snd (binlog_append Run.stack_zero (Some Run.rec_data) m) in
  binlog_extend (cfg_fd (bcfg m)) m = (Val 0, m1)
  /\ binlog_append Run.stack_zero (Some Run.rec_data) m = (Val (- EIO), m')
  /\ cfg_prealloc_size (bcfg m') = cfg_prealloc_size (bcfg m) + cfg_prealloc_step (bcfg m)
  /\ cfg_binlog_position (bcfg m') = cfg_binlog_position (bcfg m)
  /\ bcfg m' = bcfg m1.
Proof.
  cbv zeta.
  assert (H0 : ctl_cfg Run.rec_data = HANDLE) by reflexivity.
  assert (H1 : nez (Z.land (cfg_flags (bcfg Run.m_prealloc)) EBLOB_BINLOG_FLAGS_CFG_PREALLOC)
               = true) by reflexivity.
  assert (H2 : cfg_binlog_position (bcfg Run.m_prealloc) + record_len Run.rec_data
               >= cfg_prealloc_size (bcfg Run.m_prealloc)) by (vm_compute; discriminate).
  assert (H3 : binlog_extend (cfg_fd (bcfg Run.m_prealloc)) Run.m_prealloc
               = (Val 0, snd (binlog_extend (cfg_fd (bcfg Run.m_prealloc)) Run.m_prealloc)))
    by (vm_compute; reflexivity).
  assert (H4 : binlog_append Run.stack_zero (Some Run.rec_data) Run.m_prealloc
               = (Val (- EIO),
                  snd (binlog_append Run.stack_zero (Some Run.rec_data) Run.m_prealloc)))
    by (vm_compute; reflexivity).
  assert (H5 : - EIO <> 0) by (vm_compute; discriminate).
  split; [exact H3 | split; [exact H4 | ] ].
  exact (binlog_append_failure_keeps_extension Run.stack_zero Run.rec_data Run.m_prealloc
           _ _ _ H0 H1 H2 H3 H4 H5).
Defined.

(** ** Witnesses of the further properties *)


Lemma original_id_reorder_rotates_witness :
  original_id_reorder 64 Cases.stack_ff Cases.key_a = repeat x00 56 ++ repeat x01 8
  /\ length (original_id_reorder 64 Cases.stack_ff Cases.key_a) = 64%nat.
Proof.
  assert (H0 : (8 <= 64)%nat) by lia.
  assert (H1 : length Cases.key_a = 64%nat) by reflexivity.
  assert (H2 : length Cases.stack_ff = 64%nat) by reflexivity.
  exact (original_id_reorder_rotates 64 Cases.stack_ff Cases.key_a H0 H1 H2).
Defined.

Lemma original_id_reorder_injective_witness :
  original_id_reorder 64 Cases.stack_ff Cases.key_a
  = original_id_reorder 64 Cases.stack_00 (repeat x01 8 ++ repeat x00 56)
  /\ Cases.key_a = repeat x01 8 ++ repeat x00 56.
Proof.
  assert (H0 : (8 <= 64)%nat) by lia.
  assert (H1 : length Cases.key_a = 64%nat) by reflexivity.
  assert (H2 : length Cases.stack_ff = 64%nat) by reflexivity.
  assert (H3 : length (repeat x01 8 ++ repeat x00 56) = 64%nat) by reflexivity.
  assert (H4 : length Cases.stack_00 = 64%nat) by reflexivity.
  assert (H5 : original_id_reorder 64 Cases.stack_ff Cases.key_a
               = original_id_reorder 64 Cases.stack_00 (repeat x01 8 ++ repeat x00 56))
    by reflexivity.
  split; [exact H5 | ].
  exact (original_id_reorder_injective 64 _ _ _ _ H0 H1 H2 H3 H4 H5).
Defined.

Lemma eblob_key_range_compare_ordered_witness :
  eblob_key_range_compare_original_id_mod 64 bytewise_cmp Cases.stack_ff Cases.key_a
    Cases.block1 = 0
  /\ eblob_key_range_compare_original_id_mod 64 bytewise_cmp Cases.stack_00 Cases.key_a
       Cases.block2 = -1.
Proof.
  assert (T1 : forall a b c, bytewise_cmp a b <= 0 -> bytewise_cmp b c < 0 ->
                             bytewise_cmp a c < 0)
    by (intros a b c; apply (proj1 (bytewise_cmp_trans a b c))).
  assert (T2 : forall a b c, bytewise_cmp a b < 0 -> bytewise_cmp b c <= 0 ->
                             bytewise_cmp a c < 0)
    by (intros a b c; apply (proj2 (bytewise_cmp_trans a b c))).
  assert (H0 : (8 <= 64)%nat) by lia.
  assert (H1 : length Cases.key_a = 64%nat) by reflexivity.
  assert (H2 : length Cases.stack_ff = 64%nat) by reflexivity.
  assert (H3 : length Cases.stack_00 = 64%nat) by reflexivity.
  assert (H4 : bytewise_cmp (start_key Cases.block1) (end_key Cases.block1) <= 0)
    by (vm_compute; discriminate).
  assert (H5 : bytewise_cmp (end_key Cases.block1) (start_key Cases.block2) < 0)
    by (vm_compute; reflexivity).
  assert (H6 : eblob_key_range_compare_original_id_mod 64 bytewise_cmp Cases.stack_ff
                 Cases.key_a Cases.block1 = 0) by (vm_compute; reflexivity).
  split; [exact H6 | ].
  apply (proj1 (eblob_key_range_compare_ordered 64 bytewise_cmp Cases.stack_ff Cases.stack_00
                  Cases.key_a Cases.block1 Cases.block2 T1 T2 H0 H1 H2 H3 H4 H5)).
  rewrite H6. lia.
Defined.

Lemma binlog_read_record_hdr_success_witness :
  binlog_read_record_hdr 20 Cases.logged = (Val (inr Cases.hdr_logged), Cases.logged)
  /\ Cases.hdr_logged
     = decode_record_hdr (file_range (os Cases.logged) 20 sizeof_record_hdr)
  /\ 20 + sizeof_record_hdr <= file_size (os Cases.logged).
Proof.
  assert (H : binlog_read_record_hdr 20 Cases.logged
              = (Val (inr Cases.hdr_logged), Cases.logged)) by (vm_compute; reflexivity).
  split; [exact H | ].
  pose proof (binlog_read_record_hdr_success 20 Cases.logged _ _ H)
    as (H1 & _ & _ & _ & H2 & _).
  split; [exact H1 | exact H2].
Defined.

Lemma binlog_read_record_data_success_witness :
  binlog_read_record_data 116 2 Cases.logged = (Val (Some [x6d; x64]), Cases.logged)
  /\ [x6d; x64] = file_range (os Cases.logged) 116 2.
Proof.
  assert (H0 : 0 < 2) by lia.
  assert (H : binlog_read_record_data 116 2 Cases.logged
              = (Val (Some [x6d; x64]), Cases.logged)) by (vm_compute; reflexivity).
  split; [exact H | ].
  exact (proj1 (binlog_read_record_data_success 116 2 Cases.logged _ _ H0 H)).
Defined.

Lemma binlog_read_success_witness :
  let d := Run.read_back Run.stack_one Run.rec_meta in
  let m' := Run.after Cases.stack_max Run.rec_meta in
  let d' := Run.read_back Cases.stack_max Run.rec_meta in
  (binlog_read (Some Run.blank) 20 Cases.logged = (Val (0, Some d), Cases.logged)
   /\ ctl_meta_size d = 1 /\ ctl_size d = 1
   /\ ctl_data d = Some (skipn 1 (file_range (os Cases.logged) 116 2)))
  /\ (binlog_read (Some Run.blank) 20 m' = (Val (0, Some d'), m')
      /\ ctl_meta_size d' = -1 /\ ctl_size d' = 3).
Proof.
  cbv zeta.
  assert (H : binlog_read (Some Run.blank) 20 Cases.logged
              = (Val (0, Some (Run.read_back Run.stack_one Run.rec_meta)), Cases.logged))
    by (vm_compute; reflexivity).
  assert (H' : binlog_read (Some Run.blank) 20 (Run.after Cases.stack_max Run.rec_meta)
               = (Val (0, Some (Run.read_back Cases.stack_max Run.rec_meta)),
                  Run.after Cases.stack_max Run.rec_meta))
    by (vm_compute; reflexivity).
  pose proof (binlog_read_success Run.blank 20 Cases.logged _ _ H) as R. cbv zeta in R.
  destruct R as (_ & _ & _ & _ & _ & Rm & Rs & _ & _ & Rdata & _).
  pose proof (binlog_read_success Run.blank 20 _ _ _ H') as R'. cbv zeta in R'.
  destruct R' as (_ & _ & _ & _ & _ & Rm' & Rs' & _).
  split; [split; [exact H | split; [ | split ] ] | split; [exact H' | split ] ].
  - rewrite Rm. vm_compute. reflexivity.
  - rewrite Rs. vm_compute. reflexivity.
  - assert (A1 : rh_size (decode_record_hdr (file_range (os Cases.logged) 20 sizeof_record_hdr)) <> 0)
      by (vm_compute; discriminate).
    assert (A2 : 0 < ctl_size (Run.read_back Run.stack_one Run.rec_meta))
      by (vm_compute; reflexivity).
    assert (A3 : 0 <= ctl_meta_size (Run.read_back Run.stack_one Run.rec_meta)
                 <= to_ssize_t (rh_size (decode_record_hdr (file_range (os Cases.logged) 20 sizeof_record_hdr))))
      by (vm_compute; split; discriminate).
    specialize (Rdata A1 A2 A3).
    rewrite Rdata; vm_compute; reflexivity.
  - rewrite Rm'. vm_compute. reflexivity.
  - rewrite Rs'. vm_compute. reflexivity.
Defined.

Lemma binlog_read_failure_keeps_ctl_witness :
  let m := Run.after Run.stack_zero Run.rec_data in
  binlog_read (Some Run.blank) 20 m = (Val (- EINVAL, Some Run.blank), m)
  /\ untouched m m.
Proof.
  cbv zeta.
  assert (H : binlog_read (Some Run.blank) 20 (Run.after Run.stack_zero Run.rec_data)
              = (Val (- EINVAL, Some Run.blank), Run.after Run.stack_zero Run.rec_data))
    by (vm_compute; reflexivity).
  split; [exact H | ].
  exact (proj2 (proj2 (binlog_read_failure_keeps_ctl _ _ _ _ _ _ H))).
Defined.

Lemma binlog_apply_never_delivers_witness :
  sizeof_disk_hdr < cfg_binlog_position (bcfg Cases.logged)
  /\ binlog_apply 3 HANDLE (Some Run.collect) ([], Cases.logged)
     = (Crash AssertFailed, ([], Cases.logged))
  /\ Crash AssertFailed <> @Val Z 0.
Proof.
  assert (H0 : sizeof_disk_hdr < cfg_binlog_position (bcfg Cases.logged))
    by (vm_compute; reflexivity).
  assert (H : binlog_apply 3 HANDLE (Some Run.collect) ([], Cases.logged)
              = (Crash AssertFailed, ([], Cases.logged))) by (vm_compute; reflexivity).
  split; [exact H0 | split; [exact H | ] ].
  exact (proj1 (binlog_apply_never_delivers 3 Run.collect [] Cases.logged _ _ _ H0 H)).
Defined.

Lemma binlog_hdr_write_read_witness :
  let m1 := snd (binlog_hdr_write 3 (Some Cases.hdr_fresh) Run.opened) in
  binlog_hdr_write 3 (Some Cases.hdr_fresh) Run.opened = (Val 0, m1)
  /\ binlog_hdr_read 3 m1 = (Val (inr Cases.hdr_fresh), m1)
  /\ Cases.hdr_fresh = decode_disk_hdr (encode_disk_hdr Cases.hdr_fresh).
Proof.
  cbv zeta.
  assert (H1 : binlog_hdr_write 3 (Some Cases.hdr_fresh) Run.opened
               = (Val 0, snd (binlog_hdr_write 3 (Some Cases.hdr_fresh) Run.opened)))
    by (vm_compute; reflexivity).
  assert (H2 : binlog_hdr_read 3 (snd (binlog_hdr_write 3 (Some Cases.hdr_fresh) Run.opened))
               = (Val (inr Cases.hdr_fresh),
                  snd (binlog_hdr_write 3 (Some Cases.hdr_fresh) Run.opened)))
    by (vm_compute; reflexivity).
  split; [exact H1 | split; [exact H2 | ] ].
  exact (proj1 (binlog_hdr_write_read 3 Cases.hdr_fresh Run.opened _ _ _ H1 H2)).
Defined.

Lemma binlog_create_existing_file_witness :
  let m' := snd (binlog_create Run.m_empty_file) in
  binlog_create Run.m_empty_file = (Val (- EEXIST), m')
  /\ w_file (os m') = Some [] /\ w_fds (os m') = [] /\ bcfg m' = Run.cfg0.
Proof.
  cbv zeta.
  assert (H0 : w_file (os Run.m_empty_file) = Some []) by reflexivity.
  assert (H : binlog_create Run.m_empty_file
              = (Val (- EEXIST), snd (binlog_create Run.m_empty_file)))
    by (vm_compute; reflexivity).
  split; [exact H | ].
  pose proof (binlog_create_existing_file [] Run.m_empty_file _ _ H0 H) as (H1 & H2 & H3 & _).
  split; [exact H1 | split; [exact H2 | exact H3] ].
Defined.

Lemma binlog_create_success_witness :
  let m' := snd (binlog_create Run.m0) in
  binlog_create Run.m0 = (Val 0, m')
  /\ file_range (os m') 0 sizeof_disk_hdr = encode_disk_hdr Cases.hdr_fresh.
Proof.
  cbv zeta.
  assert (H : binlog_create Run.m0 = (Val 0, snd (binlog_create Run.m0)))
    by (vm_compute; reflexivity).
  split; [exact H | ].
  exact (proj1 (proj2 (binlog_create_success Run.m0 _ H))).
Defined.

Lemma binlog_create_no_leak_witness :
  let m := Run.m_prealloc in
  binlog_create m = (Val (- EEXIST), snd (binlog_create m))
  /\ w_fds (os (snd (binlog_create m))) = [3].
Proof.
  cbv zeta.
  assert (H : binlog_create Run.m_prealloc
              = (Val (- EEXIST), snd (binlog_create Run.m_prealloc)))
    by (vm_compute; reflexivity).
  split; [exact H | ].
  exact (binlog_create_no_leak Run.m_prealloc _ _ H).
Defined.

Lemma binlog_open_success_witness :
  binlog_open HANDLE Run.m0 = (Val 0, Run.opened)
  /\ cfg_fd (bcfg Run.opened) = 3
  /\ w_fds (os Run.opened) = [3]
  /\ w_lock (os Run.opened) = LockedBy 3
  /\ cfg_disk_hdr (bcfg Run.opened) = Some Cases.hdr_fresh
  /\ 0 < cfg_binlog_position (bcfg Run.opened).
Proof.
  assert (H : binlog_open HANDLE Run.m0 = (Val 0, Run.opened)) by (vm_compute; reflexivity).
  split; [exact H | ].
  pose proof (binlog_open_success Run.m0 Run.opened H) as R. cbv zeta in R.
  destruct R as (_ & _ & Hd & Hl & Hh & _ & _ & _ & Hpos & _).
  split; [reflexivity | ].
  split; [exact Hd | ]. split; [exact Hl | ].
  split; [rewrite Hh; vm_compute; reflexivity | ].
  apply Hpos. reflexivity.
Defined.

Lemma binlog_open_truncate_witness :
  let m' := snd (binlog_open HANDLE Cases.m_truncate) in
  file_size (os Cases.m_truncate) = 118
  /\ binlog_open HANDLE Cases.m_truncate = (Val 0, m')
  /\ file_size (os m') = sizeof_disk_hdr
  /\ cfg_binlog_position (bcfg m') = sizeof_disk_hdr.
Proof.
  cbv zeta.
  assert (H0 : file_size (os Cases.m_truncate) = 118) by (vm_compute; reflexivity).
  assert (H : binlog_open HANDLE Cases.m_truncate
              = (Val 0, snd (binlog_open HANDLE Cases.m_truncate)))
    by (vm_compute; reflexivity).
  split; [exact H0 | split; [exact H | ] ].
  pose proof (binlog_open_truncate Cases.m_truncate _ H) as [R1 R2].
  assert (Hsize : file_size (os (snd (binlog_open HANDLE Cases.m_truncate))) = sizeof_disk_hdr)
    by (apply R1; vm_compute; reflexivity).
  split; [exact Hsize | ].
  apply R2. rewrite Hsize. vm_compute. reflexivity.
Defined.

Lemma binlog_open_failure_no_leak_witness :
  let m' := snd (binlog_open HANDLE Run.m_empty_file) in
  binlog_open HANDLE Run.m_empty_file = (Val (- EINTR), m')
  /\ w_fds (os m') = w_fds (os Run.m_empty_file).
Proof.
  cbv zeta.
  assert (H : binlog_open HANDLE Run.m_empty_file
              = (Val (- EINTR), snd (binlog_open HANDLE Run.m_empty_file)))
    by (vm_compute; reflexivity).
  assert (H0 : - EINTR <> 0) by (vm_compute; discriminate).
  split; [exact H | ].
  exact (binlog_open_failure_no_leak Run.m_empty_file _ _ H H0).
Defined.

Lemma binlog_open_keeps_file_witness :
  let m' := snd (binlog_open HANDLE Run.m_foreign_file) in
  binlog_open HANDLE Run.m_foreign_file = (Val (- EINVAL), m')
  /\ w_file (os m') = Some (repeat x2a 20).
Proof.
  cbv zeta.
  assert (H0 : w_file (os Run.m_foreign_file) = Some (repeat x2a 20)) by reflexivity.
  assert (H1 : nez (Z.land (cfg_flags (bcfg Run.m_foreign_file))
                      EBLOB_BINLOG_FLAGS_CFG_TRUNCATE) = false) by reflexivity.
  assert (H : binlog_open HANDLE Run.m_foreign_file
              = (Val (- EINVAL), snd (binlog_open HANDLE Run.m_foreign_file)))
    by (vm_compute; reflexivity).
  split; [exact H | ].
  exact (proj1 (binlog_open_keeps_file _ Run.m_foreign_file _ _ H0 H1 H)).
Defined.

Lemma binlog_close_success_witness :
  let m' := snd (binlog_close HANDLE Cases.logged) in
  binlog_close HANDLE Cases.logged = (Val 0, m')
  /\ bcfg m' = bcfg Cases.logged
  /\ is_open 3 (os m') = false
  /\ binlog_open HANDLE m' = (Crash AssertFailed, m').
Proof.
  cbv zeta.
  assert (H : binlog_close HANDLE Cases.logged
              = (Val 0, snd (binlog_close HANDLE Cases.logged)))
    by (vm_compute; reflexivity).
  split; [exact H | ].
  pose proof (binlog_close_success Cases.logged _ H) as R. cbv zeta in R.
  destruct R as (Hc & _ & _ & Hclosed & _ & _ & _ & Hopen).
  split; [exact Hc | ]. split; [exact Hclosed | ].
  apply Hopen. reflexivity.
Defined.

Lemma binlog_append_layout_witness :
  binlog_append Run.stack_one (Some Run.rec_meta) Run.opened = (Val 0, Cases.logged)
  /\ exists key,
       ctl_key Run.rec_meta = Some key
       /\ file_range (os Cases.logged) 20 (record_len Run.rec_meta)
          = encode_record_hdr (mk_rhdr 1 2 1 0 key) ++ [x6d] ++ [x64].
Proof.
  assert (H : binlog_append Run.stack_one (Some Run.rec_meta) Run.opened
              = (Val 0, Cases.logged)) by (vm_compute; reflexivity).
  assert (H1 : 0 <= ctl_size Run.rec_meta) by (vm_compute; discriminate).
  assert (H2 : 0 <= ctl_meta_size Run.rec_meta) by (vm_compute; discriminate).
  assert (H3 : 0 < ctl_size Run.rec_meta -> 0 < ctl_meta_size Run.rec_meta)
    by (intros _; reflexivity).
  split; [exact H | ].
  destruct (binlog_append_layout Run.stack_one Run.rec_meta Run.opened Cases.logged
              H H1 H2 H3) as (key & Hkey & Hrange & _).
  exists key. split; [exact Hkey | exact Hrange].
Defined.

Lemma binlog_append_verified_witness :
  binlog_append Run.stack_one (Some Run.rec_meta) Run.opened = (Val 0, Cases.logged)
  /\ EBLOB_BINLOG_TYPE_FIRST < ctl_type Run.rec_meta < EBLOB_BINLOG_TYPE_LAST
  /\ ctl_flags Run.rec_meta = 0.
Proof.
  assert (H0 : NDEBUG = false) by reflexivity.
  assert (H : binlog_append Run.stack_one (Some Run.rec_meta) Run.opened
              = (Val 0, Cases.logged)) by (vm_compute; reflexivity).
  split; [exact H | ].
  pose proof (binlog_append_verified Run.stack_one Run.rec_meta Run.opened Cases.logged
                H0 H) as (R1 & R2 & _).
  split; [exact R1 | exact R2].
Defined.

Lemma binlog_append_read_back_witness :
  let d := Run.read_back Run.stack_one Run.rec_meta in
  let m' := Run.after Cases.stack_max Run.rec_meta in
  let d' := Run.read_back Cases.stack_max Run.rec_meta in
  (binlog_append Run.stack_one (Some Run.rec_meta) Run.opened = (Val 0, Cases.logged)
   /\ binlog_read (Some Run.blank) 20 Cases.logged = (Val (0, Some d), Cases.logged)
   /\ ctl_type d = ctl_type Run.rec_meta
   /\ ctl_key d = ctl_key Run.rec_meta
   /\ ctl_meta_size d = ctl_meta_size Run.rec_meta
   /\ ctl_size d = ctl_size Run.rec_meta
   /\ ctl_meta d = Some [x6d; x64]
   /\ ctl_data d = ctl_data Run.rec_meta)
  /\ (binlog_append Cases.stack_max (Some Run.rec_meta) Run.opened = (Val 0, m')
      /\ binlog_read (Some Run.blank) 20 m' = (Val (0, Some d'), m')
      /\ ctl_key d' = ctl_key Run.rec_meta
      /\ ctl_meta_size d' = -1
      /\ ctl_size d' = 3).
Proof.
  cbv zeta.
  assert (H1 : 0 <= ctl_size Run.rec_meta) by (vm_compute; discriminate).
  assert (H2 : 0 <= ctl_meta_size Run.rec_meta) by (vm_compute; discriminate).
  assert (H3 : 0 < ctl_size Run.rec_meta -> 0 < ctl_meta_size Run.rec_meta)
    by (intros _; reflexivity).
  assert (Hmax : cfg_binlog_position (bcfg Run.opened) + record_len Run.rec_meta <= OFF_MAX)
    by (vm_compute; discriminate).
  assert (H4 : ctl_key Run.rec_meta = Some Run.key1) by reflexivity.
  split.
  - assert (H : binlog_append Run.stack_one (Some Run.rec_meta) Run.opened
                = (Val 0, Cases.logged)) by (vm_compute; reflexivity).
    assert (H5 : let rhdr := mk_rhdr (ctl_type Run.rec_meta)
                               (ctl_meta_size Run.rec_meta + ctl_size Run.rec_meta)
                               (rh_meta_size Run.stack_one) (ctl_flags Run.rec_meta)
                               Run.key1 in
                 decode_record_hdr (encode_record_hdr rhdr) = rhdr)
      by (vm_compute; reflexivity).
    assert (R : binlog_read (Some Run.blank) (cfg_binlog_position (bcfg Run.opened))
                            Cases.logged
                = (Val (0, Some (Run.read_back Run.stack_one Run.rec_meta)), Cases.logged))
      by (vm_compute; reflexivity).
    split; [exact H | ]. split; [exact R | ].
    pose proof (binlog_append_read_back Run.stack_one Run.rec_meta Run.key1 Run.opened
                  Cases.logged Run.blank _ _ H H1 H2 H3 Hmax H4 H5 R) as Q.
    cbv zeta in Q.
    destruct Q as (Qty & _ & Qkey & _ & _ & _ & _ & Qsame).
    destruct (Qsame eq_refl eq_refl) as (Qms & Qsize & Qm & Qd).
    split; [exact Qty | ]. split; [exact Qkey | ]. split; [exact Qms | ].
    split; [exact Qsize | ]. split; [exact Qm | exact Qd].
  - assert (H : binlog_append Cases.stack_max (Some Run.rec_meta) Run.opened
                = (Val 0, Run.after Cases.stack_max Run.rec_meta))
      by (vm_compute; reflexivity).
    assert (H5 : let rhdr := mk_rhdr (ctl_type Run.rec_meta)
                               (ctl_meta_size Run.rec_meta + ctl_size Run.rec_meta)
                               (rh_meta_size Cases.stack_max) (ctl_flags Run.rec_meta)
                               Run.key1 in
                 decode_record_hdr (encode_record_hdr rhdr) = rhdr)
      by (vm_compute; reflexivity).
    assert (R : binlog_read (Some Run.blank) (cfg_binlog_position (bcfg Run.opened))
                            (Run.after Cases.stack_max Run.rec_meta)
                = (Val (0, Some (Run.read_back Cases.stack_max Run.rec_meta)),
                   Run.after Cases.stack_max Run.rec_meta))
      by (vm_compute; reflexivity).
    split; [exact H | ]. split; [exact R | ].
    pose proof (binlog_append_read_back Cases.stack_max Run.rec_meta Run.key1 Run.opened
                  _ Run.blank _ _ H H1 H2 H3 Hmax H4 H5 R) as Q.
    cbv zeta in Q.
    destruct Q as (_ & _ & Qkey & Qms & Qsize & _).
    split; [exact Qkey | ].
    split; [rewrite Qms | rewrite Qsize]; vm_compute; reflexivity.
Defined.

Lemma binlog_append_recovered_witness :
  binlog_append Run.stack_one (Some Run.rec_meta) Run.opened = (Val 0, Cases.logged)
  /\ binlog_get_next_lsn Cases.logged = (Val 118, Cases.logged)
  /\ cfg_binlog_position (bcfg Cases.logged) = 118.
Proof.
  assert (H0 : w_script (os Run.opened) = []) by reflexivity.
  assert (H1 : 0 <= cfg_fd (bcfg Run.opened)) by (vm_compute; discriminate).
  assert (H2 : scan Run.opened sizeof_disk_hdr Run.opened
                 (cfg_binlog_position (bcfg Run.opened))).
  { apply (scan_stop _ _ (- EINTR)). vm_compute. reflexivity. }
  assert (H3 : file_size (os Run.opened)
               <= cfg_binlog_position (bcfg Run.opened) + record_len Run.rec_meta)
    by (vm_compute; discriminate).
  assert (Hmax : cfg_binlog_position (bcfg Run.opened) + record_len Run.rec_meta <= OFF_MAX)
    by (vm_compute; discriminate).
  assert (H4 : nez (Z.land (cfg_flags (bcfg Run.opened)) EBLOB_BINLOG_FLAGS_CFG_PREALLOC)
               = false) by reflexivity.
  assert (H5 : 0 <= ctl_size Run.rec_meta) by (vm_compute; discriminate).
  assert (H6 : 0 <= ctl_meta_size Run.rec_meta) by (vm_compute; discriminate).
  assert (H7 : 0 < ctl_size Run.rec_meta -> 0 < ctl_meta_size Run.rec_meta)
    by (intros _; reflexivity).
  assert (H8 : ctl_key Run.rec_meta = Some Run.key1) by reflexivity.
  assert (H9 : EBLOB_BINLOG_TYPE_FIRST < ctl_type Run.rec_meta < EBLOB_BINLOG_TYPE_LAST)
    by (split; reflexivity).
  assert (H10 : ctl_flags Run.rec_meta = 0) by reflexivity.
  assert (H11 : let rhdr := mk_rhdr (ctl_type Run.rec_meta)
                              (ctl_meta_size Run.rec_meta + ctl_size Run.rec_meta)
                              (rh_meta_size Run.stack_one) (ctl_flags Run.rec_meta)
                              Run.key1 in
                decode_record_hdr (encode_record_hdr rhdr) = rhdr)
    by (vm_compute; reflexivity).
  assert (H : binlog_append Run.stack_one (Some Run.rec_meta) Run.opened
              = (Val 0, Cases.logged)) by (vm_compute; reflexivity).
  split; [exact H | ].
  exact (binlog_append_recovered Run.stack_one Run.rec_meta Run.key1 Run.opened Run.opened
           Cases.logged H0 H1 H2 H3 Hmax H4 H5 H6 H7 H8 H9 H10 H11 H).
Defined.

Lemma binlog_open_blank_witness :
  binlog_open HANDLE Run.m0
  = (Val 0,
     mk_machine (mk_cfg 3 0 20 20 4096 (Some Cases.hdr_fresh))
                (mk_world (Some (encode_disk_hdr Cases.hdr_fresh)) [3] (LockedBy 3) 0 [])).
Proof.
  assert (H0 : w_file (os Run.m0) = None) by reflexivity.
  assert (H1 : w_lock (os Run.m0) = Unlocked) by reflexivity.
  assert (H2 : w_script (os Run.m0) = []) by reflexivity.
  assert (H3 : cfg_fd (bcfg Run.m0) = -1) by reflexivity.
  assert (H4 : nez (Z.land (cfg_flags (bcfg Run.m0)) EBLOB_BINLOG_FLAGS_CFG_PREALLOC) = false)
    by reflexivity.
  assert (H5 : binlog_verify_hdr
                 (mk_dhdr fresh_magic EBLOB_BINLOG_VERSION (cfg_flags (bcfg Run.m0))) = 0)
    by (vm_compute; reflexivity).
  assert (H6 : decode_disk_hdr
                 (encode_disk_hdr
                    (mk_dhdr fresh_magic EBLOB_BINLOG_VERSION (cfg_flags (bcfg Run.m0))))
               = mk_dhdr fresh_magic EBLOB_BINLOG_VERSION (cfg_flags (bcfg Run.m0)))
    by (vm_compute; reflexivity).
  exact (binlog_open_blank Run.m0 H0 H1 H2 H3 H4 H5 H6).
Defined.

